(** * The event bus and the reactive state store of makeki-xyz

    A shallow embedding of [EventBus] (assets/scripts/eventBus.js), of
    [StateManager] (assets/scripts/stateManager.js) and of the accessors of
    the configuration (assets/scripts/config.js), and the properties the
    specification states about them, with others that the code shows.

    JavaScript objects live in a heap and are passed by reference, so that
    the sharing between the live state tree and its shallow copies is part
    of the model.  Methods are computations in a state-and-exception monad
    over the whole system: the heap, the two singletons, and a trace of what
    the dispatchers did (every callback they entered, every [console.error]
    they wrote).  The functions of the collaborators are known by their
    identity and by how they complete when entered; [Reentrant] adds the
    calls they make on the bus while they run. *)

From Stdlib Require Import ZArith String Ascii List Lia Permutation Sorted.
From stdpp Require Import base option list gmap strings.
Import ListNotations.

Local Open Scope string_scope.
Local Open Scope list_scope.
Local Open Scope Z_scope.

(** ** Values and objects *)

Abbreviation loc := nat.

(** A JavaScript value.  Objects (and arrays, seen as objects whose
    properties are their indices) are references into the heap; a function
    of a collaborator is known by its identity only. *)
Inductive val :=
| VUndef
| VNull
| VBool (b : bool)
| VNum (n : Z)
| VStr (s : string)
| VRef (l : loc)
| VFun (f : nat).

#[global] Instance val_eq_dec : EqDecision val.
Proof. solve_decision. Defined.

(** [!!v] *)
Definition truthy (v : val) : bool :=
  match v with
  | VUndef | VNull => false
  | VBool b => b
  | VNum n => negb (n =? 0)
  | VStr s => negb (String.eqb s "")
  | VRef _ | VFun _ => true
  end.

(** [typeof v === 'object'] *)
Definition typeof_object (v : val) : bool :=
  match v with
  | VNull | VRef _ => true
  | _ => false
  end.

(** [typeof v === 'function'] *)
Definition typeof_function (v : val) : bool :=
  match v with
  | VFun _ => true
  | _ => false
  end.

(** [v !== undefined] *)
Definition defined (v : val) : bool :=
  match v with
  | VUndef => false
  | _ => true
  end.

(** [a || b] *)
Definition js_or (a b : val) : val := if truthy a then a else b.

(** The own properties of an object, in enumeration order. *)
Abbreviation obj := (list (string * val)).

Fixpoint lookup_prop (o : obj) (k : string) : val :=
  match o with
  | [] => VUndef
  | (k', v) :: o' => if String.eqb k k' then v else lookup_prop o' k
  end.

Fixpoint assign_prop (o : obj) (k : string) (v : val) : obj :=
  match o with
  | [] => [(k, v)]
  | (k', v') :: o' =>
      if String.eqb k k' then (k, v) :: o' else (k', v') :: assign_prop o' k v
  end.

(** The heap: the objects that exist, by location. *)
Abbreviation heap_t := (gmap loc obj).

Definition deref (h : heap_t) (l : loc) : obj := default [] (h !! l).

(** [v[prop]] for a value that is not [undefined] or [null].  Properties
    that the host finds on primitives or on prototypes (the [length] of a
    string or an array, the members of [Object.prototype]) are not part of
    the model: only own properties of heap objects are. *)
Definition read_prop (h : heap_t) (v : val) (prop : string) : val :=
  match v with
  | VRef l => lookup_prop (deref h l) prop
  | _ => VUndef
  end.

(** [path.split('.')] *)
Fixpoint split_dot (s : string) : list string :=
  match s with
  | EmptyString => [EmptyString]
  | String c s' =>
      if Ascii.eqb c "."%char then EmptyString :: split_dot s'
      else match split_dot s' with
           | [] => [String c EmptyString]
           | seg :: segs => String c seg :: segs
           end
  end.

(** ** Callbacks, registrations and the trace *)

(** What a dispatcher can enter: a function of a collaborator, or the
    [updateComputed] closure that [StateManager.computed] builds. *)
Inductive callee :=
| Ext (f : nat)
| UpdateComputed (computeFn : nat) (dependencies : list string) (targetKey : string).

#[global] Instance callee_eq_dec : EqDecision callee.
Proof. solve_decision. Defined.

Inductive exn :=
| TypeError (msg : string)
| Error (msg : string)
| Thrown (e : val).

#[global] Instance exn_eq_dec : EqDecision exn.
Proof. solve_decision. Defined.

(** Where in the source a callback is entered. *)
Inductive site :=
| AtEmit        (* EventBus._handleEventEmission *)
| AtSubscribe   (* StateManager.subscribe, immediate call *)
| AtNotify      (* StateManager._notifySubscribers *)
| AtCompute.    (* computeFn(...inputs) inside updateComputed *)

#[global] Instance site_eq_dec : EqDecision site.
Proof. solve_decision. Defined.

Inductive event :=
| Call (at_site : site) (f : callee) (this : val) (args : list val)
| ConsoleError (msg : string) (e : exn).

#[global] Instance event_eq_dec : EqDecision event.
Proof. solve_decision. Defined.

(** How a collaborator's function completes. *)
Inductive outcome :=
| Returns (v : val)
| Throws (e : val).

(** EventBus handler: [{callback, context, priority, once}]. *)
Record handler := Handler {
  h_callback : val;
  h_context : val;
  h_priority : Z;
  h_once : bool
}.

#[global] Instance handler_eq_dec : EqDecision handler.
Proof. solve_decision. Defined.

(** StateManager subscription: [{callback, context, immediate, once}].
    [sub_id] is the identity of the subscription object, which
    [Set.prototype.delete] goes by. *)
Record subscription := Subscription {
  sub_id : nat;
  sub_callback : callee;
  sub_context : val;
  sub_immediate : bool;
  sub_once : bool
}.

#[global] Instance subscription_eq_dec : EqDecision subscription.
Proof. solve_decision. Defined.

(** [{timestamp, oldState, newState}]: the two states are references to
    the objects built by [{ ...this.state }]. *)
Record HistoryEntry := Entry {
  timestamp : Z;
  oldState : loc;
  newState : loc
}.

(** The value of the [_notifySubscribers] slot of the store: the method of
    the class, or the closure [(key) => changedKeys.add(key)] that a running
    [batch] installs, known by the set it captured. *)
Inductive notifier :=
| Original
| Collector (changedKeys : nat).

(** The thunks the registration methods return. *)
Inductive thunk :=
| ThunkOff (event : string) (callback : val)
| ThunkOffOnce (event : string) (callback : val)
| ThunkUnsubscribe (key : string) (callback : callee).

(** First argument of [setState]: a path, or an object of path/value
    pairs. *)
Inductive key_arg :=
| Path (key : string)
| Bulk (o : loc).

(** ** The system *)

(** Everything the two singletons can touch.  The collaborators are
    represented by [behaviour]: how function [f], entered with the given
    [this] and arguments after the dispatchers have done [trace], completes.
    In the methods below a collaborator does not call back into the bus or
    the store while it runs; the one callback that does is the store's own
    [UpdateComputed].  The bus with collaborators that call it is
    [Reentrant.run].  [clock] gives the successive readings of
    [Date.now()].  Logging under [debugMode] ([console.log]) is left
    out. *)
Record sys := Sys {
  heap : heap_t;
  trace : list event;
  behaviour : nat -> val -> list val -> list event -> outcome;
  clock : nat -> Z;
  ticks : nat;
  (* EventBus *)
  events : gmap string (list handler);
  onceEvents : gmap string (list handler);
  (* StateManager *)
  state : loc;
  subscribers : gmap string (list subscription);
  next_sub : nat;
  history : list HistoryEntry;
  maxHistoryLength : nat;
  _notifySubscribers_slot : notifier;
  sets : list (list string)
}.

Definition set_heap (h : heap_t) (s : sys) : sys :=
  Sys h (trace s) (behaviour s) (clock s) (ticks s) (events s) (onceEvents s)
      (state s) (subscribers s) (next_sub s) (history s) (maxHistoryLength s)
      (_notifySubscribers_slot s) (sets s).

Definition set_trace (t : list event) (s : sys) : sys :=
  Sys (heap s) t (behaviour s) (clock s) (ticks s) (events s) (onceEvents s)
      (state s) (subscribers s) (next_sub s) (history s) (maxHistoryLength s)
      (_notifySubscribers_slot s) (sets s).

Definition set_ticks (n : nat) (s : sys) : sys :=
  Sys (heap s) (trace s) (behaviour s) (clock s) n (events s) (onceEvents s)
      (state s) (subscribers s) (next_sub s) (history s) (maxHistoryLength s)
      (_notifySubscribers_slot s) (sets s).

Definition set_events (m : gmap string (list handler)) (s : sys) : sys :=
  Sys (heap s) (trace s) (behaviour s) (clock s) (ticks s) m (onceEvents s)
      (state s) (subscribers s) (next_sub s) (history s) (maxHistoryLength s)
      (_notifySubscribers_slot s) (sets s).

Definition set_onceEvents (m : gmap string (list handler)) (s : sys) : sys :=
  Sys (heap s) (trace s) (behaviour s) (clock s) (ticks s) (events s) m
      (state s) (subscribers s) (next_sub s) (history s) (maxHistoryLength s)
      (_notifySubscribers_slot s) (sets s).

Definition set_state (l : loc) (s : sys) : sys :=
  Sys (heap s) (trace s) (behaviour s) (clock s) (ticks s) (events s) (onceEvents s)
      l (subscribers s) (next_sub s) (history s) (maxHistoryLength s)
      (_notifySubscribers_slot s) (sets s).

Definition set_subscribers (m : gmap string (list subscription)) (s : sys) : sys :=
  Sys (heap s) (trace s) (behaviour s) (clock s) (ticks s) (events s) (onceEvents s)
      (state s) m (next_sub s) (history s) (maxHistoryLength s)
      (_notifySubscribers_slot s) (sets s).

Definition set_next_sub (n : nat) (s : sys) : sys :=
  Sys (heap s) (trace s) (behaviour s) (clock s) (ticks s) (events s) (onceEvents s)
      (state s) (subscribers s) n (history s) (maxHistoryLength s)
      (_notifySubscribers_slot s) (sets s).

Definition set_history (hs : list HistoryEntry) (s : sys) : sys :=
  Sys (heap s) (trace s) (behaviour s) (clock s) (ticks s) (events s) (onceEvents s)
      (state s) (subscribers s) (next_sub s) hs (maxHistoryLength s)
      (_notifySubscribers_slot s) (sets s).

Definition set_notifier (n : notifier) (s : sys) : sys :=
  Sys (heap s) (trace s) (behaviour s) (clock s) (ticks s) (events s) (onceEvents s)
      (state s) (subscribers s) (next_sub s) (history s) (maxHistoryLength s)
      n (sets s).

Definition set_sets (cs : list (list string)) (s : sys) : sys :=
  Sys (heap s) (trace s) (behaviour s) (clock s) (ticks s) (events s) (onceEvents s)
      (state s) (subscribers s) (next_sub s) (history s) (maxHistoryLength s)
      (_notifySubscribers_slot s) cs.

(** ** The monad of methods *)

Inductive res (A : Type) :=
| Ok (a : A)
| Exn (e : exn).
Arguments Ok {A} a.
Arguments Exn {A} e.

Definition M (A : Type) : Type := sys -> res A * sys.

Definition ret {A} (a : A) : M A := fun s => (Ok a, s).

Definition bind {A B} (m : M A) (k : A -> M B) : M B :=
  fun s => match m s with
           | (Ok a, s') => k a s'
           | (Exn e, s') => (Exn e, s')
           end.

Notation "x <- m ;; k" := (bind m (fun x => k))
  (at level 100, m at next level, right associativity).
Notation "m ;; k" := (bind m (fun _ => k))
  (at level 100, right associativity).

Definition throw {A} (e : exn) : M A := fun s => (Exn e, s).

(** [try { body } catch (error) { handler(error) }] *)
Definition try_catch {A} (body : M A) (handler : exn -> M A) : M A :=
  fun s => match body s with
           | (Ok a, s') => (Ok a, s')
           | (Exn e, s') => handler e s'
           end.

(** [try { body } finally { fin }]: the completion of [body] survives
    unless [fin] itself throws. *)
Definition try_finally {A} (body : M A) (fin : M unit) : M A :=
  fun s => match body s with
           | (r, s') => match fin s' with
                        | (Ok _, s'') => (r, s'')
                        | (Exn e, s'') => (Exn e, s'')
                        end
           end.

Definition gets {A} (f : sys -> A) : M A := fun s => (Ok (f s), s).
Definition modify (f : sys -> sys) : M unit := fun s => (Ok tt, f s).

(** [xs.forEach(f)] *)
Fixpoint forEach {A} (xs : list A) (f : A -> M unit) : M unit :=
  match xs with
  | [] => ret tt
  | x :: xs' => f x ;; forEach xs' f
  end.

(** [xs.map(f)] *)
Fixpoint mapM {A B} (f : A -> M B) (xs : list A) : M (list B) :=
  match xs with
  | [] => ret []
  | x :: xs' => y <- f x ;; ys <- mapM f xs' ;; ret (y :: ys)
  end.

(** [xs.reduce(f, init)] *)
Fixpoint reduceM {A B} (f : B -> A -> M B) (xs : list A) (init : B) : M B :=
  match xs with
  | [] => ret init
  | x :: xs' => acc <- f init x ;; reduceM f xs' acc
  end.

Definition result {A} (m : M A) (s : sys) : res A := fst (m s).
Definition exec {A} (m : M A) (s : sys) : sys := snd (m s).

(** ** Primitive effects *)

Definition emit_event (e : event) : M unit :=
  modify (fun s => set_trace (trace s ++ [e]) s).

Definition console_error (msg : string) (e : exn) : M unit :=
  emit_event (ConsoleError msg e).

(** [Date.now()] *)
Definition date_now : M Z :=
  fun s => (Ok (clock s (ticks s)), set_ticks (S (ticks s)) s).

(** A fresh object with the given properties. *)
Definition alloc (o : obj) : M loc :=
  fun s => let l := fresh (dom (heap s)) in (Ok l, set_heap (<[l := o]> (heap s)) s).

(** [target[key] = value] for an object of the heap, where it sets a
    property, and for a primitive, where it throws (module code is strict).
    What the host does instead of setting a property is not part of the
    model: for the names [__proto__] and [length] (see [Paths.host_name]),
    and for a function, which is not an object of the heap; the store never
    assigns to a function, and nothing is stated about [setConfig] going
    through one. *)
Definition assign (target : val) (key : string) (value : val) : M unit :=
  match target with
  | VRef l =>
      modify (fun s => set_heap (<[l := assign_prop (deref (heap s) l) key value]> (heap s)) s)
  | _ => throw (TypeError "Cannot create property")
  end.

(** Enter a collaborator's function. *)
Definition call_ext (st : site) (f : nat) (this : val) (args : list val) : M val :=
  fun s =>
    let s' := set_trace (trace s ++ [Call st (Ext f) this args]) s in
    match behaviour s f this args (trace s) with
    | Returns v => (Ok v, s')
    | Throws e => (Exn (Thrown e), s')
    end.

(** ** EventBus *)

Module EventBus.

(** The [options] argument of [on] and [once]; an absent field is
    [VUndef], an absent priority is [0] either way. *)
Record options := Options {
  opt_context : val;
  opt_priority : Z
}.

Definition no_options : options := Options VUndef 0.

Definition bucket (m : gmap string (list handler)) (event : string) : list handler :=
  default [] (m !! event).

(** [set.add(handler)] for a handler object that was just created. *)
Definition add_handler (event : string) (h : handler)
    (m : gmap string (list handler)) : gmap string (list handler) :=
  <[event := bucket m event ++ [h]]> m.

Definition on (event : string) (callback : val) (opts : options) : M thunk :=
  if negb (typeof_function callback)
  then throw (Error "Event callback must be a function")
  else
    let handler := Handler callback (js_or (opt_context opts) VNull) (opt_priority opts) false in
    modify (fun s => set_events (add_handler event handler (events s)) s) ;;
    ret (ThunkOff event callback).

Definition once (event : string) (callback : val) (opts : options) : M thunk :=
  let handler := Handler callback (js_or (opt_context opts) VNull) (opt_priority opts) true in
  modify (fun s => set_onceEvents (add_handler event handler (onceEvents s)) s) ;;
  ret (ThunkOffOnce event callback).

(** The [for ... of] loop of [off]: delete the first handler whose callback
    is the given one. *)
Fixpoint remove_first (callback : val) (hs : list handler) : list handler :=
  match hs with
  | [] => []
  | h :: hs' =>
      if bool_decide (h_callback h = callback) then hs'
      else h :: remove_first callback hs'
  end.

Definition remove_listener (event : string) (callback : val)
    (m : gmap string (list handler)) : gmap string (list handler) :=
  match m !! event with
  | None => m
  | Some hs =>
      let hs' := remove_first callback hs in
      if (length hs' =? 0)%nat then delete event m else <[event := hs']> m
  end.

Definition off (event : string) (callback : val) : M unit :=
  modify (fun s => set_events (remove_listener event callback (events s)) s).

Definition offOnce (event : string) (callback : val) : M unit :=
  modify (fun s => set_onceEvents (remove_listener event callback (onceEvents s)) s).

(** [handlers.sort((a, b) => b.priority - a.priority)]: the sort of the
    host is stable, so the result is the one stable arrangement by
    descending priority; it is computed here by insertion. *)
Fixpoint insert_by_priority (h : handler) (hs : list handler) : list handler :=
  match hs with
  | [] => [h]
  | x :: hs' =>
      if h_priority h <? h_priority x then x :: insert_by_priority h hs'
      else h :: x :: hs'
  end.

Definition sort_by_priority (hs : list handler) : list handler :=
  foldr insert_by_priority [] hs.

(** The dispatch, for a given way of entering the functions of the
    collaborators: [call_ext] when they leave the bus alone while they run,
    which gives [deliver], [_handleEventEmission] and [emit] below, and
    [Reentrant.enter] when they call the bus themselves. *)
Section Dispatch.
Variable enter : site -> nat -> val -> list val -> M val.

(** [handler.callback(eventData)]: a value that is not a function cannot
    be called.  The callback is called as a member of the handler object,
    which is then its [this]; handler objects are not values here, and the
    call is recorded with [undefined] as its [this]. *)
Definition call_plain (callback : val) (args : list val) : M val :=
  match callback with
  | VFun f => enter AtEmit f VUndef args
  | _ => throw (TypeError "callback is not a function")
  end.

(** [handler.callback.call(context, eventData)]: the member [call] of a
    function enters the function with [context] as its [this]; an object is
    asked for the member [call] it holds (prototypes are not part of the
    model), and a function held there is entered with the object as its
    [this] and with [context] as its first argument; other values have no
    such member.  The [TypeError]s of the host differ in their messages and
    are all written as the one above. *)
Definition call_method (callback context : val) (args : list val) : M val :=
  match callback with
  | VFun f => enter AtEmit f context args
  | VRef l =>
      h <- gets heap ;;
      match lookup_prop (deref h l) "call" with
      | VFun g => enter AtEmit g callback (context :: args)
      | _ => throw (TypeError "callback is not a function")
      end
  | _ => throw (TypeError "callback is not a function")
  end.

Definition deliver_by (event : string) (eventData : val) (h : handler) : M unit :=
  try_catch
    (if truthy (h_context h)
     then call_method (h_callback h) (h_context h) [eventData] ;; ret tt
     else call_plain (h_callback h) [eventData] ;; ret tt)
    (fun error =>
       console_error ("EventBus: Error in event handler for '" +:+ event +:+ "':") error).

Definition _handleEventEmission_by (event : string) (eventData : val)
    (eventMap : sys -> gmap string (list handler)) : M unit :=
  m <- gets eventMap ;;
  match m !! event with
  | None => ret tt
  | Some hs => forEach (sort_by_priority hs) (deliver_by event eventData)
  end.

Definition envelope (event : string) (data : val) (timestamp : Z) (source : val) : obj :=
  [("type", VStr event);
   ("data", match data with VUndef => VNull | _ => data end);
   ("timestamp", VNum timestamp);
   ("source", js_or source (VStr "unknown"))].

(** [emit(event, data, {source})] *)
Definition emit_by (event : string) (data : val) (source : val) : M unit :=
  timestamp <- date_now ;;
  eventData <- alloc (envelope event data timestamp source) ;;
  _handleEventEmission_by event (VRef eventData) events ;;
  _handleEventEmission_by event (VRef eventData) onceEvents ;;
  modify (fun s => set_onceEvents (delete event (onceEvents s)) s).

End Dispatch.

Definition deliver : string -> val -> handler -> M unit := deliver_by call_ext.

Definition _handleEventEmission
    : string -> val -> (sys -> gmap string (list handler)) -> M unit :=
  _handleEventEmission_by call_ext.

Definition emit : string -> val -> val -> M unit := emit_by call_ext.

Definition removeAllListeners (event : option string) : M unit :=
  match event with
  | Some e =>
      if negb (String.eqb e "")
      then modify (fun s => set_onceEvents (delete e (onceEvents s))
                              (set_events (delete e (events s)) s))
      else modify (fun s => set_onceEvents ∅ (set_events ∅ s))
  | None => modify (fun s => set_onceEvents ∅ (set_events ∅ s))
  end.

Definition getListenerCount (event : string) (s : sys) : nat :=
  length (bucket (events s) event) + length (bucket (onceEvents s) event).

Definition run_thunk (t : thunk) : M unit :=
  match t with
  | ThunkOff e cb => off e cb
  | ThunkOffOnce e cb => offOnce e cb
  | ThunkUnsubscribe _ _ => ret tt
  end.

(** [getEvents()]: the names that have a bucket in either registry.  The
    array of the source lists them in the order the buckets were created,
    which the registries here do not record: the result is the set of the
    names. *)
Definition getEvents (s : sys) : gset string :=
  dom (events s) ∪ dom (onceEvents s).

(** [`${namespace}:${event}`] *)
Definition prefixed (namespace event : string) : string :=
  namespace +:+ ":" +:+ event.

(** The object [namespace(ns)] returns.  Its [emit] spreads the options it
    is given and then sets [source], so the source of the emission is the
    namespace whatever the options are. *)
Record namespaced := Namespaced {
  ns_on : string -> val -> options -> M thunk;
  ns_once : string -> val -> options -> M thunk;
  ns_off : string -> val -> M unit;
  ns_emit : string -> val -> M unit
}.

Definition namespace (namespace : string) : namespaced :=
  {| ns_on := fun event callback opts => on (prefixed namespace event) callback opts;
     ns_once := fun event callback opts => once (prefixed namespace event) callback opts;
     ns_off := fun event callback => off (prefixed namespace event) callback;
     ns_emit := fun event data => emit (prefixed namespace event) data (VStr namespace) |}.

End EventBus.

(** ** StateManager *)

Module StateManager.

(** The [options] argument of [subscribe]; an absent field is [VUndef]. *)
Record options := Options {
  opt_context : val;
  opt_immediate : val;
  opt_once : val
}.

Definition no_options : options := Options VUndef VUndef VUndef.

(** One step of the [reduce] in [getState]:
    [obj && obj[prop] !== undefined ? obj[prop] : undefined]. *)
Definition getState_step (h : heap_t) (obj : val) (prop : string) : val :=
  if truthy obj && defined (read_prop h obj prop) then read_prop h obj prop else VUndef.

(** The value at a dotted path below [root]. *)
Definition read_path (h : heap_t) (root : loc) (key : string) : val :=
  fold_left (getState_step h) (split_dot key) (VRef root).

(** [{ ...this.state }]: a new object with the properties of the root. *)
Definition snapshot : M loc :=
  root <- gets state ;;
  h <- gets heap ;;
  alloc (deref h root).

Definition getState (key : string) : M val :=
  if String.eqb key ""
  then l <- snapshot ;; ret (VRef l)
  else h <- gets heap ;;
       root <- gets state ;;
       ret (read_path h root key).

(** One step of the [reduce] in [_setNestedValue]. *)
Definition descend (obj : val) (key : string) : M val :=
  h <- gets heap ;;
  (if negb (truthy (read_prop h obj key)) || negb (typeof_object (read_prop h obj key))
   then fresh <- alloc [] ;; assign obj key (VRef fresh)
   else ret tt) ;;
  h' <- gets heap ;;
  ret (read_prop h' obj key).

Definition _setNestedValue (path : string) (value : val) : M unit :=
  let keys := split_dot path in
  let lastKey := List.last keys "" in
  root <- gets state ;;
  target <- reduceM descend (removelast keys) (VRef root) ;;
  assign target lastKey value.

Definition _addToHistory (oldState newState : loc) : M unit :=
  now <- date_now ;;
  modify (fun s => set_history (history s ++ [Entry now oldState newState]) s) ;;
  modify (fun s => if (maxHistoryLength s <? length (history s))%nat
                   then set_history (tail (history s)) s
                   else s).

(** [setState], with the method it notifies through left open:
    [updateComputed] and [_notifySubscribers] reach each other through
    [setState].  The knot is closed by [setState] below. *)
Definition setState_via (notify : string -> M unit)
    (key : key_arg) (value : val) (silent : bool) : M unit :=
  oldState <- snapshot ;;
  match key with
  | Bulk o =>
      h <- gets heap ;;
      forEach (deref h o) (fun kv => _setNestedValue (fst kv) (snd kv))
  | Path k => _setNestedValue k value
  end ;;
  newState <- snapshot ;;
  _addToHistory oldState newState ;;
  if negb silent
  then match key with
       | Bulk o => h <- gets heap ;; forEach (map fst (deref h o)) notify
       | Path k => notify k
       end
  else ret tt.

(** The closure of [computed]; its last line is
    [this.setState(targetKey, result, true)], which is silent. *)
Definition updateComputed (computeFn : nat) (dependencies : list string)
    (targetKey : string) : M unit :=
  inputs <- mapM getState dependencies ;;
  result <- call_ext AtCompute computeFn VUndef inputs ;;
  setState_via (fun _ => ret tt) (Path targetKey) result true.

(** Enter a subscriber. *)
Definition call_callee (st : site) (c : callee) (this : val) (args : list val) : M val :=
  match c with
  | Ext f => call_ext st f this args
  | UpdateComputed computeFn dependencies targetKey =>
      emit_event (Call st c this args) ;;
      updateComputed computeFn dependencies targetKey ;;
      ret VUndef
  end.

Definition remove_sub (sub : subscription) (subs : list subscription) : list subscription :=
  filter (fun x => sub_id x ≠ sub_id sub) subs.

(** [this.subscribers.get(key).delete(subscription)] *)
Definition delete_subscription (key : string) (sub : subscription) : M unit :=
  m <- gets subscribers ;;
  match m !! key with
  | None => throw (TypeError "Cannot read properties of undefined (reading 'delete')")
  | Some subs => modify (set_subscribers (<[key := remove_sub sub subs]> m))
  end.

(** One subscriber of a round.  Without a context the callback is called
    as a member of the subscription object, which is then its [this];
    subscription objects are not values here, and the call is recorded with
    [undefined] as its [this]. *)
Definition notify_one (key : string) (currentValue : val) (sub : subscription) : M unit :=
  try_catch
    ((if truthy (sub_context sub)
      then call_callee AtNotify (sub_callback sub) (sub_context sub) [currentValue; VStr key]
      else call_callee AtNotify (sub_callback sub) VUndef [currentValue; VStr key]) ;;
     if sub_once sub then delete_subscription key sub else ret tt)
    (fun error =>
       console_error ("State notification error for '" +:+ key +:+ "':") error).

Definition _notifySubscribers (key : string) : M unit :=
  m <- gets subscribers ;;
  match m !! key with
  | None => ret tt
  | Some subscriptions =>
      currentValue <- getState key ;;
      forEach subscriptions (notify_one key currentValue) ;;
      m' <- gets subscribers ;;
      match m' !! key with
      | None => throw (TypeError "Cannot read properties of undefined (reading 'size')")
      | Some subs =>
          if (length subs =? 0)%nat
          then modify (fun s => set_subscribers (delete key (subscribers s)) s)
          else ret tt
      end
  end.

(** [changedKeys.add(key)] *)
Definition set_add (key : string) (keys : list string) : list string :=
  if bool_decide (key ∈ keys) then keys else keys ++ [key].

(** Apply a value of the [_notifySubscribers] slot. *)
Definition notify_via (n : notifier) (key : string) : M unit :=
  match n with
  | Original => _notifySubscribers key
  | Collector changedKeys =>
      modify (fun s => set_sets (alter (set_add key) changedKeys (sets s)) s)
  end.

(** [this._notifySubscribers(key)] *)
Definition this_notifySubscribers (key : string) : M unit :=
  n <- gets _notifySubscribers_slot ;;
  notify_via n key.

Definition setState (key : key_arg) (value : val) (silent : bool) : M unit :=
  setState_via this_notifySubscribers key value silent.

Definition add_subscription (key : string) (sub : subscription)
    (m : gmap string (list subscription)) : gmap string (list subscription) :=
  <[key := default [] (m !! key) ++ [sub]]> m.

(** [subscribe] once the callback is known to be a function. *)
Definition subscribe_callee (key : string) (callback : callee) (opts : options) : M thunk :=
  id <- gets next_sub ;;
  let subscription :=
    Subscription id callback (js_or (opt_context opts) VNull)
      (negb (bool_decide (opt_immediate opts = VBool false)))
      (truthy (js_or (opt_once opts) (VBool false))) in
  modify (fun s => set_next_sub (S id) (set_subscribers (add_subscription key subscription (subscribers s)) s)) ;;
  (if sub_immediate subscription
   then try_catch
          (currentValue <- getState key ;;
           (if truthy (sub_context subscription)
            then call_callee AtSubscribe callback (sub_context subscription) [currentValue; VStr key]
            else call_callee AtSubscribe callback VUndef [currentValue; VStr key]) ;;
           ret tt)
          (fun error =>
             console_error ("State subscription error for '" +:+ key +:+ "':") error)
   else ret tt) ;;
  ret (ThunkUnsubscribe key callback).

Definition subscribe (key : string) (callback : val) (opts : options) : M thunk :=
  match callback with
  | VFun f => subscribe_callee key (Ext f) opts
  | _ => throw (Error "Callback must be a function")
  end.

Fixpoint remove_first (callback : callee) (subs : list subscription) : list subscription :=
  match subs with
  | [] => []
  | x :: subs' =>
      if bool_decide (sub_callback x = callback) then subs'
      else x :: remove_first callback subs'
  end.

Definition unsubscribe (key : string) (callback : callee) : M unit :=
  modify (fun s =>
    match subscribers s !! key with
    | None => s
    | Some subs =>
        let subs' := remove_first callback subs in
        if (length subs' =? 0)%nat
        then set_subscribers (delete key (subscribers s)) s
        else set_subscribers (<[key := subs']> (subscribers s)) s
    end).

Definition computed (computeFn : nat) (dependencies : list string)
    (targetKey : string) : M unit :=
  forEach dependencies (fun dep =>
    subscribe_callee dep (UpdateComputed computeFn dependencies targetKey)
      (Options VUndef (VBool false) VUndef) ;;
    ret tt) ;;
  updateComputed computeFn dependencies targetKey.

(** [new Set()] *)
Definition new_set : M nat :=
  fun s => (Ok (length (sets s)), set_sets (sets s ++ [[]]) s).

Definition batch (updateFn : M unit) : M unit :=
  originalNotify <- gets _notifySubscribers_slot ;;
  changedKeys <- new_set ;;
  modify (set_notifier (Collector changedKeys)) ;;
  try_finally updateFn
    (modify (set_notifier originalNotify) ;;
     keys <- gets (fun s => default [] (sets s !! changedKeys)) ;;
     forEach keys (notify_via originalNotify)).

Definition getHistory : M (list HistoryEntry) := gets history.

Definition clearHistory : M unit := modify (set_history []).

(** The state object the constructor builds, with its nested arrays and
    objects. *)
Definition initial_objects : list obj :=
  [ [("isLoading", VBool false); ("currentSection", VStr "hero"); ("theme", VStr "dark");
     ("navigationVisible", VBool true); ("mobileMenuOpen", VBool false);
     ("skills", VRef 1); ("projects", VRef 2); ("blogPosts", VRef 3);
     ("experience", VRef 4); ("modalOpen", VBool false); ("modalContent", VNull);
     ("performanceMetrics", VRef 5); ("preferences", VRef 6)];
    []; []; []; []; [];
    [("reducedMotion", VBool false); ("highContrast", VBool false);
     ("fontSize", VStr "normal")] ]%nat.

Definition initial_heap : heap_t :=
  list_to_map (imap (fun l o => (l, o)) initial_objects).

(** The object [_getInitialState()] builds: a new tree at every call. *)
Definition _getInitialState : M loc :=
  skills <- alloc [] ;;
  projects <- alloc [] ;;
  blogPosts <- alloc [] ;;
  experience <- alloc [] ;;
  performanceMetrics <- alloc [] ;;
  preferences <- alloc [("reducedMotion", VBool false); ("highContrast", VBool false);
                        ("fontSize", VStr "normal")] ;;
  alloc [("isLoading", VBool false); ("currentSection", VStr "hero"); ("theme", VStr "dark");
         ("navigationVisible", VBool true); ("mobileMenuOpen", VBool false);
         ("skills", VRef skills); ("projects", VRef projects); ("blogPosts", VRef blogPosts);
         ("experience", VRef experience); ("modalOpen", VBool false); ("modalContent", VNull);
         ("performanceMetrics", VRef performanceMetrics); ("preferences", VRef preferences)].

(** [resetState(keys)]: with an array of keys, each is written with the
    value it has in a new initial tree; without keys ([null], the default)
    the state becomes a copy of the root of a new initial tree, and every
    key of the registry is notified.  [this.subscribers.forEach] goes
    through the keys in the order their buckets were made, which the
    registry here, a finite map, does not record: [order] gives it. *)
Definition resetState (keys : option (list string)) (order : list string) : M unit :=
  initialState <- _getInitialState ;;
  match keys with
  | Some keys =>
      forEach keys (fun key =>
        h <- gets heap ;;
        setState (Path key) (read_path h initialState key) false)
  | None =>
      h <- gets heap ;;
      root <- alloc (deref h initialState) ;;
      modify (set_state root) ;;
      forEach order this_notifySubscribers
  end.

End StateManager.

(** Calling the function a registration method returned. *)
Definition call_thunk (t : thunk) : M unit :=
  match t with
  | ThunkOff event callback => EventBus.off event callback
  | ThunkOffOnce event callback => EventBus.offOnce event callback
  | ThunkUnsubscribe key callback => StateManager.unsubscribe key callback
  end.

(** ** Configuration (assets/scripts/config.js) *)

Module Config.

(** One step of the [reduce] in [getConfig]:
    [obj && obj[key] !== undefined ? obj[key] : defaultValue]. *)
Definition getConfig_step (h : heap_t) (defaultValue : val) (obj : val) (key : string) : val :=
  if truthy obj && defined (read_prop h obj key) then read_prop h obj key else defaultValue.

(** [getConfig(path, defaultValue)], the object [AppConfig] of the module
    being at the given location. *)
Definition getConfig (AppConfig : loc) (path : string) (defaultValue : val) : M val :=
  h <- gets heap ;;
  ret (fold_left (getConfig_step h defaultValue) (split_dot path) (VRef AppConfig)).

(** One step of the [reduce] in [setConfig]:
    [if (!obj[key]) obj[key] = {}; return obj[key]]. *)
Definition descend (obj : val) (key : string) : M val :=
  h <- gets heap ;;
  (if negb (truthy (read_prop h obj key))
   then fresh <- alloc [] ;; assign obj key (VRef fresh)
   else ret tt) ;;
  h' <- gets heap ;;
  ret (read_prop h' obj key).

Definition setConfig (AppConfig : loc) (path : string) (value : val) : M unit :=
  let keys := split_dot path in
  let lastKey := List.last keys "" in
  target <- reduceM descend (removelast keys) (VRef AppConfig) ;;
  assign target lastKey value.

End Config.

(** [new EventBus()] and [new StateManager()], with collaborators that
    behave as given. *)
Definition new_system (beh : nat -> val -> list val -> list event -> outcome)
    (clk : nat -> Z) : sys :=
  Sys StateManager.initial_heap [] beh clk 0 ∅ ∅ 0%nat ∅ 0 [] 50 Original [].

(** [m] takes every system to one related to it by [R], however it
    completes. *)
Definition keeps {A} (R : sys -> sys -> Prop) (m : M A) : Prop :=
  forall s, R s (snd (m s)).

(** ** Reading a trace *)

Definition is_call (ev : event) : bool :=
  match ev with
  | Call _ _ _ _ => true
  | ConsoleError _ _ => false
  end.

Definition is_call_at (st : site) (ev : event) : bool :=
  match ev with
  | Call st' _ _ _ => bool_decide (st' = st)
  | ConsoleError _ _ => false
  end.

(** Function [f] of a collaborator is entered. *)
Definition is_call_of (f : nat) (ev : event) : bool :=
  match ev with
  | Call _ (Ext g) _ _ => Nat.eqb f g
  | _ => false
  end.

(** ** What a dispatch of the bus is expected to do *)

Module BusSpec.
Import EventBus.

Definition this_of (h : handler) : val :=
  if truthy (h_context h) then h_context h else VUndef.

Definition error_msg (name : string) : string :=
  "EventBus: Error in event handler for '" +:+ name +:+ "':".

(** The function a listener enters in the heap [hp], with its [this] and
    its arguments, if its callback can be called at all: the callback
    itself when it is a function, and the function that an object holds as
    its member [call] when the listener has a context. *)
Definition entry (hp : heap_t) (eventData : val) (h : handler)
    : option (nat * val * list val) :=
  match h_callback h with
  | VFun f => Some (f, this_of h, [eventData])
  | VRef l =>
      if truthy (h_context h)
      then match lookup_prop (deref hp l) "call" with
           | VFun g => Some (g, VRef l, [h_context h; eventData])
           | _ => None
           end
      else None
  | _ => None
  end.

(** The function a listener enters, if any. *)
Definition target (hp : heap_t) (h : handler) : option nat :=
  match entry hp VUndef h with
  | Some (f, _, _) => Some f
  | None => None
  end.

(** The call a listener receives, if its callback can be called at all. *)
Definition delivery (hp : heap_t) (eventData : val) (h : handler) : list event :=
  match entry hp eventData h with
  | Some (f, this, args) => [Call AtEmit (Ext f) this args]
  | None => []
  end.

(** What one listener adds to the trace [tr]. *)
Definition delivery_events (beh : nat -> val -> list val -> list event -> outcome)
    (hp : heap_t) (tr : list event) (name : string) (eventData : val) (h : handler)
    : list event :=
  match entry hp eventData h with
  | Some (f, this, args) =>
      Call AtEmit (Ext f) this args ::
      match beh f this args tr with
      | Returns _ => []
      | Throws x => [ConsoleError (error_msg name) (Thrown x)]
      end
  | None => [ConsoleError (error_msg name) (TypeError "callback is not a function")]
  end.

Fixpoint dispatch_events (beh : nat -> val -> list val -> list event -> outcome)
    (hp : heap_t) (tr : list event) (name : string) (eventData : val) (hs : list handler)
    : list event :=
  match hs with
  | [] => []
  | h :: hs' =>
      delivery_events beh hp tr name eventData h ++
      dispatch_events beh hp (tr ++ delivery_events beh hp tr name eventData h)
        name eventData hs'
  end.

(** [sorted] is [hs] put in descending priority, listeners of equal
    priority staying in the order they have in [hs]. *)
Definition stable_descending (hs sorted : list handler) : Prop :=
  Permutation sorted hs /\
  StronglySorted (fun a b => h_priority b <= h_priority a) sorted /\
  forall p : Z,
    List.filter (fun h => h_priority h =? p) sorted =
    List.filter (fun h => h_priority h =? p) hs.

(** The events one [emit] adds to the trace.  The envelope is a new
    object and holds no member [call]: what the listeners enter is read in
    the heap as it is before the emission. *)
Definition emitted (s : sys) (name : string) : list event :=
  let eventData := VRef (fresh (dom (heap s))) in
  let regular :=
    dispatch_events (behaviour s) (heap s) (trace s) name eventData
      (sort_by_priority (bucket (events s) name)) in
  regular ++
  dispatch_events (behaviour s) (heap s) (trace s ++ regular) name eventData
    (sort_by_priority (bucket (onceEvents s) name)).

End BusSpec.

(** ** The writes of the store, as functions on the heap *)

Module Tree.

(** One step of the descent of [_setNestedValue] from object [l]: the
    object found under [key], or a new empty object put there. *)
Definition descend (h : heap_t) (l : loc) (key : string) : heap_t * loc :=
  match lookup_prop (deref h l) key with
  | VRef l' => (h, l')
  | _ =>
      let n := fresh (dom h) in
      (<[l := assign_prop (deref (<[n := []]> h) l) key (VRef n)]> (<[n := []]> h), n)
  end.

Fixpoint walk (h : heap_t) (l : loc) (keys : list string) : heap_t * loc :=
  match keys with
  | [] => (h, l)
  | k :: keys' => walk (fst (descend h l k)) (snd (descend h l k)) keys'
  end.

Definition setNestedValue (h : heap_t) (root : loc) (path : string) (value : val) : heap_t :=
  let keys := split_dot path in
  let h' := fst (walk h root (removelast keys)) in
  let target := snd (walk h root (removelast keys)) in
  <[target := assign_prop (deref h' target) (List.last keys "") value]> h'.

(** [{ ...this.state }] *)
Definition copy_root (h : heap_t) (root : loc) : heap_t :=
  <[fresh (dom h) := deref h root]> h.

Definition write (h : heap_t) (root : loc) (key : key_arg) (value : val) : heap_t :=
  match key with
  | Path k => setNestedValue h root k value
  | Bulk o => fold_left (fun h' kv => setNestedValue h' root (fst kv) (snd kv)) (deref h o) h
  end.

Definition push_history (max : nat) (entry : HistoryEntry) (hist : list HistoryEntry)
    : list HistoryEntry :=
  if (max <? length (hist ++ [entry]))%nat then tail (hist ++ [entry]) else hist ++ [entry].

(** The state of the system once [setState] has written and recorded, and
    before it notifies. *)
Definition commit (s : sys) (key : key_arg) (value : val) : sys :=
  let h1 := copy_root (heap s) (state s) in
  let h2 := write h1 (state s) key value in
  set_history
    (push_history (maxHistoryLength s)
       (Entry (clock s (ticks s)) (fresh (dom (heap s))) (fresh (dom h2))) (history s))
    (set_ticks (S (ticks s)) (set_heap (copy_root h2 (state s)) s)).

(** The slots, object and key, that reading [keys] from [l] goes through
    in [h]. *)
Fixpoint slots (h : heap_t) (l : loc) (keys : list string) : list (loc * string) :=
  match keys with
  | [] => []
  | k :: keys' =>
      (l, k) :: match lookup_prop (deref h l) k with
                | VRef l' => slots h l' keys'
                | _ => []
                end
  end.

(** The last assignment of [_setNestedValue] for [path] does not fall on a
    slot that its own descent went through: no object on the way is reached
    twice under the key it is left by. *)
Definition unaliased (h : heap_t) (root : loc) (path : string) : bool :=
  let keys := split_dot path in
  let h' := fst (walk h root (removelast keys)) in
  let target := snd (walk h root (removelast keys)) in
  forallb (fun slot => negb (bool_decide (slot = (target, List.last keys ""))))
          (slots h' root (removelast keys)).

(** Reading [keys] from [l] in [h] goes from object to object and ends at
    object [t]. *)
Fixpoint chain (h : heap_t) (l : loc) (keys : list string) (t : loc) : Prop :=
  match keys with
  | [] => l = t
  | k :: keys' => exists l', lookup_prop (deref h l) k = VRef l' /\ chain h l' keys' t
  end.

(** The paths a [setState] writes. *)
Definition written (h : heap_t) (key : key_arg) : list string :=
  match key with
  | Path k => [k]
  | Bulk o => map fst (deref h o)
  end.

End Tree.

(** ** What a notification round of the store is expected to do *)

Module StoreSpec.

Definition bucket (m : gmap string (list subscription)) (key : string) : list subscription :=
  default [] (m !! key).

Definition this_of (sub : subscription) : val :=
  if truthy (sub_context sub) then sub_context sub else VUndef.

Definition error_msg (key : string) : string :=
  "State notification error for '" +:+ key +:+ "':".

(** The call by which a subscriber of [key] is notified of [value]. *)
Definition notification (key : string) (value : val) (sub : subscription) : event :=
  Call AtNotify (sub_callback sub) (this_of sub) [value; VStr key].

Definition is_ext (c : callee) : bool :=
  match c with
  | Ext _ => true
  | UpdateComputed _ _ _ => false
  end.


(** What [getState(key)] returns in [s], and the system after it: the
    empty key makes a copy of the root. *)
Definition current_value (s : sys) (key : string) : val :=
  if String.eqb key "" then VRef (fresh (dom (heap s)))
  else StateManager.read_path (heap s) (state s) key.

Definition after_read (s : sys) (key : string) : sys :=
  if String.eqb key "" then set_heap (Tree.copy_root (heap s) (state s)) s else s.

(** The parts of the system that neither a write nor a notification
    touches. *)
Definition rest (s : sys) :=
  (behaviour s, clock s, state s, next_sub s, maxHistoryLength s,
   _notifySubscribers_slot s, sets s, events s, onceEvents s).

(** [bucket] without the subscriptions whose identity is in [removed]. *)
Definition without (removed : list nat) (b : list subscription) : list subscription :=
  filter (fun x => sub_id x ∉ removed) b.

(** A step that leaves the registrations alone and notifies nobody. *)
Definition quiet (s s' : sys) : Prop :=
  rest s' = rest s /\
  subscribers s' = subscribers s /\
  exists evs, trace s' = trace s ++ evs /\
              Forall (fun ev => is_call_at AtNotify ev = false) evs.

(** [s'] is [s] after the subscriber [sub] of [key] has been notified of
    [value]: it was entered, once; nobody else was notified; it is still
    registered, or has just been deleted from its bucket. *)
Definition notified_one (key : string) (value : val) (sub : subscription)
    (s s' : sys) : Prop :=
  rest s' = rest s /\
  (subscribers s' = subscribers s \/
   exists b, subscribers s !! key = Some b /\
             subscribers s' = <[key := StateManager.remove_sub sub b]> (subscribers s)) /\
  (exists evs, trace s' = trace s ++ notification key value sub :: evs /\
               Forall (fun ev => is_call_at AtNotify ev = false) evs) /\
  (is_ext (sub_callback sub) = true -> heap s' = heap s).

(** [s'] is [s] after the subscribers [subs] of [key], whose bucket is [b],
    have been notified of [value] in turn. *)
Definition notified_all (key : string) (value : val) (subs b : list subscription)
    (s s' : sys) : Prop :=
  rest s' = rest s /\
  (exists removed,
     removed ⊆ map sub_id subs /\
     subscribers s' = <[key := without removed b]> (subscribers s)) /\
  (exists evs, trace s' = trace s ++ evs /\
               List.filter (is_call_at AtNotify) evs = map (notification key value) subs) /\
  (Forall (fun sub => is_ext (sub_callback sub) = true) subs -> heap s' = heap s).

(** [s'] is [s] after one round of notification for [key]: every
    subscriber of [key] has been entered once, in registration order, with
    the value [getState(key)] had when the round began and with [key];
    nobody else has been notified; other buckets are untouched. *)
Definition round (key : string) (s s' : sys) : Prop :=
  rest s' = rest s /\
  (exists removed,
     removed ⊆ map sub_id (bucket (subscribers s) key) /\
     bucket (subscribers s') key = without removed (bucket (subscribers s) key)) /\
  (forall k', k' <> key -> subscribers s' !! k' = subscribers s !! k') /\
  (exists evs,
     trace s' = trace s ++ evs /\
     List.filter (is_call_at AtNotify) evs =
       map (notification key (current_value s key)) (bucket (subscribers s) key)) /\
  (Forall (fun sub => is_ext (sub_callback sub) = true) (bucket (subscribers s) key) ->
   key <> "" -> heap s' = heap s).


(** The event is the notification of a subscriber registered in [m]
    under one of [keys], with that key. *)
Definition is_notification_of (m : gmap string (list subscription)) (keys : list string)
    (ev : event) : Prop :=
  exists k v sub, k ∈ keys /\ sub ∈ bucket m k /\ ev = notification k v sub.


(** From [s] to [s'] the cap of the history is the same, and the history
    is within it if it was. *)
Definition capped (s s' : sys) : Prop :=
  maxHistoryLength s' = maxHistoryLength s /\
  ((length (history s) <= maxHistoryLength s)%nat ->
   (length (history s') <= maxHistoryLength s')%nat).


End StoreSpec.

(** ** Update functions for [batch] *)

Module Batch.

(** A call [this.setState(key, value, silent)] made by an update
    function. *)
Record write_call := WriteCall {
  w_key : string;
  w_value : val;
  w_silent : bool
}.

(** The update function that makes the given calls in turn and then, if
    [thrown] is given, throws it. *)
Definition updates (calls : list write_call) (thrown : option exn) : M unit :=
  forEach calls (fun c => StateManager.setState (Path (w_key c)) (w_value c) (w_silent c)) ;;
  match thrown with
  | Some e => throw e
  | None => ret tt
  end.





End Batch.


(** ** Sample systems *)

Module Demo.

(** Collaborators of which function 7 throws and the others return their
    first argument. *)
Definition beh : nat -> val -> list val -> list event -> outcome :=
  fun f _ args _ =>
    if Nat.eqb f 7 then Throws (VStr "boom") else Returns (hd VUndef args).

(** Collaborators that all return. *)
Definition beh_ok : nat -> val -> list val -> list event -> outcome :=
  fun _ _ _ _ => Returns VUndef.

Definition clk : nat -> Z := fun n => Z.of_nat n.

Definition fresh_system : sys := new_system beh clk.

Definition quietly : StateManager.options :=
  StateManager.Options VUndef (VBool false) VUndef.

Definition once_quietly : StateManager.options :=
  StateManager.Options VUndef (VBool false) (VBool true).

(** A bus with a persistent listener of low priority, one of high
    priority that throws, and a once listener, all for ["e"]. *)
Definition bus : sys :=
  exec (EventBus.on "e" (VFun 2) (EventBus.Options VUndef 1) ;;
        EventBus.on "e" (VFun 7) (EventBus.Options VUndef 10) ;;
        EventBus.once "e" (VFun 3) EventBus.no_options) fresh_system.

(** An update object that replaces ["preferences"] by the object at
    location 8 and also writes below it. *)
Definition update_object : obj :=
  [("preferences", VRef 8); ("preferences.fontSize", VStr "large");
   ("isLoading", VBool true)].

Definition new_preferences : obj := [("reducedMotion", VBool true)].

(** A store with subscribers on ["isLoading"], ["preferences.fontSize"],
    ["preferences.reducedMotion"] and ["preferences"], and with an update
    object at location 7 and the object it refers to at location 8. *)
Definition store : sys :=
  let s := exec (StateManager.subscribe "isLoading" (VFun 1) quietly ;;
                 StateManager.subscribe "preferences.fontSize" (VFun 2) quietly ;;
                 StateManager.subscribe "preferences.reducedMotion" (VFun 4) quietly ;;
                 StateManager.subscribe "preferences" (VFun 3) quietly) fresh_system in
  set_heap (<[8%nat := new_preferences]> (<[7%nat := update_object]> (heap s))) s.

(** A store with one once-subscriber on ["k"], the function 7. *)
Definition once_store (b : nat -> val -> list val -> list event -> outcome) : sys :=
  exec (StateManager.subscribe "k" (VFun 7) once_quietly) (new_system b clk).

Definition once_sub : subscription := Subscription 0 (Ext 7) VNull false true.

(** A store with one subscriber on ["k"], the function 1. *)
Definition k_store : sys :=
  exec (StateManager.subscribe "k" (VFun 1) quietly) fresh_system.


(** A system whose heap also holds, at location 9, an object with the
    function 5 as its member [call]. *)
Definition with_callable : sys :=
  set_heap (<[9%nat := [("call", VFun 5)]]> (heap (new_system beh_ok clk)))
           (new_system beh_ok clk).



End Demo.


(** ** Shapes of names and registries *)

Module Shape.

(** No bucket of the registry is empty. *)
Definition tidy {A} (m : gmap string (list A)) : Prop :=
  forall name l, m !! name = Some l -> l <> [].

(** The name holds no colon. *)
Fixpoint no_colon (s : string) : bool :=
  match s with
  | EmptyString => true
  | String c s' => negb (Ascii.eqb c ":"%char) && no_colon s'
  end.

End Shape.

(** ** Paths, and what stops a descent *)

Module Paths.

(** The key holds no dot: it names a property, not a path. *)
Fixpoint no_dot (s : string) : bool :=
  match s with
  | EmptyString => true
  | String c s' => negb (Ascii.eqb c "."%char) && no_dot s'
  end.

(** The names to which the host gives a meaning of its own, whatever an
    object holds: [__proto__], which reads and sets the prototype of an
    object, and [length], which an array keeps in step with its elements.
    The objects of the heap are lists of properties, and these two names
    are not read and written as properties are. *)
Definition host_name (k : string) : bool :=
  String.eqb k "__proto__" || String.eqb k "length".

(** No segment of the path is such a name. *)
Definition ordinary (path : string) : bool :=
  forallb (fun k => negb (host_name k)) (split_dot path).

(** A value at which [setConfig] stops: a primitive that is truthy.  It
    is not replaced, and the assignment of a property of it throws. *)
Definition stops (v : val) : bool :=
  match v with
  | VBool _ | VNum _ | VStr _ => truthy v
  | _ => false
  end.

(** A value that [setConfig] does not go through as it goes through an
    object of the heap: a primitive at which it stops, or a function, whose
    properties are not part of the model. *)
Definition blocks (v : val) : bool :=
  match v with
  | VRef _ => false
  | _ => truthy v
  end.

(** The descent of [setConfig] along [keys] from object [l] meets no such
    value. *)
Fixpoint clear (h : heap_t) (l : loc) (keys : list string) : bool :=
  match keys with
  | [] => true
  | k :: keys' =>
      negb (blocks (lookup_prop (deref h l) k)) &&
      clear (fst (Tree.descend h l k)) (snd (Tree.descend h l k)) keys'
  end.

End Paths.

(** ** What a subscription is expected to do *)

Module SubscribeSpec.
Import StateManager StoreSpec.

(** The subscription object [subscribe] builds in [s]. *)
Definition new_subscription (s : sys) (callback : callee) (opts : options) : subscription :=
  Subscription (next_sub s) callback (js_or (opt_context opts) VNull)
    (negb (bool_decide (opt_immediate opts = VBool false)))
    (truthy (js_or (opt_once opts) (VBool false))).

(** The system once the subscription is in the registry. *)
Definition registered (key : string) (sub : subscription) (s : sys) : sys :=
  set_next_sub (S (next_sub s))
    (set_subscribers (add_subscription key sub (subscribers s)) s).

Definition subscription_error_msg (key : string) : string :=
  "State subscription error for '" +:+ key +:+ "':".

(** What the immediate call of function [f] adds to the trace. *)
Definition immediate_call (s : sys) (key : string) (f : nat) (sub : subscription)
    : list event :=
  Call AtSubscribe (Ext f) (this_of sub) [current_value s key; VStr key] ::
  match behaviour s f (this_of sub) [current_value s key; VStr key] (trace s) with
  | Returns _ => []
  | Throws x => [ConsoleError (subscription_error_msg key) (Thrown x)]
  end.

End SubscribeSpec.

(** ** Sessions: the states the clients can bring about *)

Module Session.

(** A call of a client on the bus. *)
Inductive bus_call :=
| On (name : string) (callback : val) (opts : EventBus.options)
| Once (name : string) (callback : val) (opts : EventBus.options)
| Off (name : string) (callback : val)
| OffOnce (name : string) (callback : val)
| Emit (name : string) (data source : val)
| RemoveAllListeners (name : option string).

(** A call of a client on the store.  The update function of a batch is
    one that makes [setState] calls and then returns or throws.  A reset
    comes with the order in which the registry gives its keys. *)
Inductive store_call :=
| GetState (key : string)
| SetState (key : key_arg) (value : val) (silent : bool)
| Subscribe (key : string) (callback : val) (opts : StateManager.options)
| Unsubscribe (key : string) (callback : nat)
| Computed (computeFn : nat) (dependencies : list string) (targetKey : string)
| BatchOf (calls : list Batch.write_call) (thrown : option exn)
| GetHistory
| ClearHistory
| ResetState (keys : option (list string)) (order : list string).

Inductive call :=
| OnBus (c : bus_call)
| OnStore (c : store_call).

Definition run_bus (c : bus_call) : M unit :=
  match c with
  | On name callback opts => EventBus.on name callback opts ;; ret tt
  | Once name callback opts => EventBus.once name callback opts ;; ret tt
  | Off name callback => EventBus.off name callback
  | OffOnce name callback => EventBus.offOnce name callback
  | Emit name data source => EventBus.emit name data source
  | RemoveAllListeners name => EventBus.removeAllListeners name
  end.

Definition run_store (c : store_call) : M unit :=
  match c with
  | GetState key => StateManager.getState key ;; ret tt
  | SetState key value silent => StateManager.setState key value silent
  | Subscribe key callback opts => StateManager.subscribe key callback opts ;; ret tt
  | Unsubscribe key callback => StateManager.unsubscribe key (Ext callback)
  | Computed computeFn dependencies targetKey =>
      StateManager.computed computeFn dependencies targetKey
  | BatchOf calls thrown => StateManager.batch (Batch.updates calls thrown)
  | GetHistory => StateManager.getHistory ;; ret tt
  | ClearHistory => StateManager.clearHistory
  | ResetState keys order => StateManager.resetState keys order
  end.

Definition run (c : call) : M unit :=
  match c with
  | OnBus c => run_bus c
  | OnStore c => run_store c
  end.

(** The call can be made in [s]: the order that comes with a reset of the
    whole state gives the keys of the registry, each once.  Which of these
    orders the registry has is not recorded; every one counts. *)
Definition allowed (s : sys) (c : call) : Prop :=
  match c with
  | OnStore (ResetState None order) => order ≡ₚ elements (dom (subscribers s))
  | _ => True
  end.

(** The states a session reaches from the two new singletons, whether
    its calls return or throw. *)
Inductive reachable (beh : nat -> val -> list val -> list event -> outcome)
    (clk : nat -> Z) : sys -> Prop :=
| reachable_new : reachable beh clk (new_system beh clk)
| reachable_call (s : sys) (c : call) :
    reachable beh clk s -> allowed s c -> reachable beh clk (exec (run c) s).

(** The state a session of the given calls leaves. *)
Definition play (calls : list call) (s : sys) : sys :=
  fold_left (fun s' c => exec (run c) s') calls s.

(** Each call of the session can be made in the state it is made in. *)
Fixpoint admissible (calls : list call) (s : sys) : Prop :=
  match calls with
  | [] => True
  | c :: calls' => allowed s c /\ admissible calls' (exec (run c) s)
  end.

(** The subscriptions of every bucket have distinct identities, all
    given out already. *)
Definition ids_ok (s : sys) : Prop :=
  forall key b, subscribers s !! key = Some b ->
    NoDup (map sub_id b) /\ Forall (fun x => (sub_id x < next_sub s)%nat) b.

(** Relations between a system and a later one, one for each fact that
    every step of a session keeps. *)
Definition ids_kept (s s' : sys) : Prop :=
  (next_sub s <= next_sub s')%nat /\ (ids_ok s -> ids_ok s').

Definition same_bus (s s' : sys) : Prop :=
  events s' = events s /\ onceEvents s' = onceEvents s.

Definition same_slot (s s' : sys) : Prop :=
  _notifySubscribers_slot s' = _notifySubscribers_slot s.

Definition grows (s s' : sys) : Prop :=
  dom (heap s) ⊆ dom (heap s') /\
  (state s ∈ dom (heap s) -> state s' ∈ dom (heap s')).

Definition same_root (s s' : sys) : Prop := state s' = state s.

(** The call is [resetState()], without keys. *)
Definition resets_all (c : call) : bool :=
  match c with
  | OnStore (ResetState None _) => true
  | _ => false
  end.

(** [P] holds afterwards if it held before. *)
Definition kept (P : sys -> Prop) (s s' : sys) : Prop := P s -> P s'.

Definition bus_tidy (s : sys) : Prop :=
  Shape.tidy (events s) /\ Shape.tidy (onceEvents s).

Definition store_tidy (s : sys) : Prop := Shape.tidy (subscribers s).

End Session.

(** ** Collaborators that call the bus while they run *)

Module Reentrant.
Import EventBus Session.

(** What the functions of the collaborators do on the bus: [calls f this
    args tr] are the calls that function [f], entered with [this] and
    [args] after the dispatchers have done [tr], makes on the bus before it
    completes, in order. *)
Definition script : Type := nat -> val -> list val -> list event -> list bus_call.

(** Enter a function that calls the bus: the entry is recorded, its calls
    are run in turn by [nested], and it then completes as [behaviour] says.
    A call of its that throws ends it with that exception. *)
Definition enter (calls : script) (nested : bus_call -> M unit)
    (st : site) (f : nat) (this : val) (args : list val) : M val :=
  fun s =>
    match forEach (calls f this args (trace s)) nested
            (set_trace (trace s ++ [Call st (Ext f) this args]) s) with
    | (Ok _, s') =>
        match behaviour s f this args (trace s) with
        | Returns v => (Ok v, s')
        | Throws e => (Exn (Thrown e), s')
        end
    | (Exn e, s') => (Exn e, s')
    end.

(** A call on the bus, by a client or by a function that the bus has
    entered.  An emission enters the listeners, whose calls are run in
    their turn, nested emissions at most [depth] deep: the stack of the host
    is finite, and the emission that exceeds it throws (a [RangeError]). *)
Fixpoint run (calls : script) (depth : nat) (c : bus_call) {struct depth} : M unit :=
  match c with
  | Emit name data source =>
      match depth with
      | O => throw (Error "Maximum call stack size exceeded")
      | S depth' => emit_by (enter calls (run calls depth')) name data source
      end
  | _ => run_bus c
  end.



End Reentrant.

(** ** The tree [_getInitialState] builds *)

Module ResetSpec.
Import StateManager.

(** The heap after the objects [os] have been allocated in turn, and
    their locations. *)
Fixpoint allocs (h : heap_t) (os : list obj) : heap_t * list loc :=
  match os with
  | [] => (h, [])
  | o :: os' =>
      (fst (allocs (<[fresh (dom h) := o]> h) os'),
       fresh (dom h) :: snd (allocs (<[fresh (dom h) := o]> h) os'))
  end.

(** The value, with the objects it refers to moved by [ρ]. *)
Definition place (ρ : loc -> loc) (v : val) : val :=
  match v with
  | VRef l => VRef (ρ l)
  | _ => v
  end.

Definition place_obj (ρ : loc -> loc) (o : obj) : obj :=
  map (fun kv => (fst kv, place ρ (snd kv))) o.

(** The nested arrays and objects of the initial state, in the order
    [_getInitialState] makes them. *)
Definition nested : list obj := tail initial_objects.

(** Where [_getInitialState] puts the objects of the initial state when it
    runs in heap [h]: the object that the constructor has at [l] is at
    [moved h l]. *)
Definition new_root (h : heap_t) : loc := fresh (dom (fst (allocs h nested))).

Definition moved (h : heap_t) (l : loc) : loc :=
  nth l (new_root h :: snd (allocs h nested)) (new_root h).

Definition new_tree (h : heap_t) : heap_t :=
  <[new_root h := place_obj (moved h) (hd [] initial_objects)]> (fst (allocs h nested)).

(** No object of the initial state refers to an object outside it. *)
Definition closed (os : list obj) : bool :=
  forallb (fun o => forallb (fun kv => match snd kv with
                                       | VRef l => (l <? length os)%nat
                                       | _ => true
                                       end) o) os.

End ResetSpec.

(** ** More sample systems *)

Module Tour.
Import Session.

(** A system whose heap also holds the [animations] and [performance]
    sections of [AppConfig], the configuration being at location 20, and an
    object of defaults at location 23. *)
Definition config : sys :=
  set_heap
    (<[23%nat := [("duration", VNum 200)]]>
       (<[22%nat := [("enableLazyLoading", VBool true); ("imageQuality", VNum 85);
                     ("enableServiceWorker", VBool true); ("cacheMaxAge", VNum 300000)]]>
          (<[21%nat := [("duration", VNum 300); ("easing", VStr "cubic-bezier(0.4, 0, 0.2, 1)");
                        ("stagger", VNum 100); ("scrollOffset", VNum 100)]]>
             (<[20%nat := [("animations", VRef 21); ("performance", VRef 22)]]>
                (heap Demo.fresh_system)))))
    Demo.fresh_system.

(** That system after [setConfig('performance.enableServiceWorker',
    false)]. *)
Definition config_off : sys :=
  exec (Config.setConfig 20 "performance.enableServiceWorker" (VBool false)) config.

(** A store in which the theme has been changed. *)
Definition themed : sys :=
  exec (StateManager.setState (Path "theme") (VStr "light") true) Demo.fresh_system.

(** A session on both singletons: listeners come and go, a subscriber
    that asked for one call, a computed value, a batch whose update
    function throws, a reset of one key and a reset of the whole state. *)
Definition session : list call :=
  [OnBus (On "e" (VFun 2) EventBus.no_options);
   OnBus (Once "e" (VFun 7) EventBus.no_options);
   OnBus (Emit "e" VNull VUndef);
   OnBus (Off "e" (VFun 2));
   OnStore (Subscribe "theme" (VFun 1) Demo.once_quietly);
   OnStore (Subscribe "isLoading" (VFun 7) StateManager.no_options);
   OnStore (Computed 3 ["theme"] "label");
   OnStore (BatchOf [Batch.WriteCall "theme" (VStr "light") false;
                     Batch.WriteCall "isLoading" (VBool true) false]
                    (Some (Error "stop")));
   OnStore (Unsubscribe "isLoading" 7);
   OnStore (ResetState (Some ["theme"]) []);
   OnStore (ResetState None ["theme"])].

Definition visited : sys := play session Demo.fresh_system.



End Tour.


(** * Properties *)

(** ** The monad *)

Lemma set_trace_same (s : sys) : set_trace (trace s) s = s.
Proof. destruct s; reflexivity. Qed.

Lemma set_trace_nil (s : sys) : set_trace (trace s ++ []) s = s.
Proof. rewrite app_nil_r. apply set_trace_same. Qed.

Lemma bind_run {A B} (m : M A) (k : A -> M B) (s s' : sys) (a : A) :
  m s = (Ok a, s') -> bind m k s = k a s'.
Proof. intros H. unfold bind. rewrite H. reflexivity. Qed.

Lemma bind_exn {A B} (m : M A) (k : A -> M B) (s s' : sys) (e : exn) :
  m s = (Exn e, s') -> bind m k s = (Exn e, s').
Proof. intros H. unfold bind. rewrite H. reflexivity. Qed.



(** ** EventBus: ordering of the listeners *)

Module BusFacts.
Import EventBus BusSpec.

Lemma insert_by_priority_perm (h : handler) (hs : list handler) :
  Permutation (insert_by_priority h hs) (h :: hs).
Proof.
  induction hs as [|x hs IH]; simpl.
  - apply Permutation_refl.
  - destruct (h_priority h <? h_priority x).
    + eapply perm_trans; [apply perm_skip, IH | apply perm_swap].
    + apply Permutation_refl.
Qed.

Lemma sort_by_priority_perm (hs : list handler) :
  Permutation (sort_by_priority hs) hs.
Proof.
  induction hs as [|h hs IH]; simpl.
  - apply perm_nil.
  - eapply perm_trans; [apply insert_by_priority_perm | apply perm_skip, IH].
Qed.

Lemma insert_by_priority_sorted (h : handler) (hs : list handler) :
  StronglySorted (fun a b => h_priority b <= h_priority a) hs ->
  StronglySorted (fun a b => h_priority b <= h_priority a) (insert_by_priority h hs).
Proof.
  induction 1 as [|x hs Hs IH Hx]; simpl.
  - repeat constructor.
  - destruct (Z.ltb_spec (h_priority h) (h_priority x)) as [Hlt|Hge].
    + constructor; [exact IH|].
      eapply Permutation_Forall; [symmetry; apply insert_by_priority_perm|].
      constructor; [lia | exact Hx].
    + constructor; [constructor; assumption|].
      constructor; [exact Hge|].
      eapply Forall_impl; [exact Hx|]. simpl. intros; lia.
Qed.

Lemma sort_by_priority_sorted (hs : list handler) :
  StronglySorted (fun a b => h_priority b <= h_priority a) (sort_by_priority hs).
Proof.
  induction hs as [|h hs IH]; simpl.
  - constructor.
  - apply insert_by_priority_sorted, IH.
Qed.

Lemma insert_by_priority_stable (p : Z) (h : handler) (hs : list handler) :
  List.filter (fun x => h_priority x =? p) (insert_by_priority h hs) =
  List.filter (fun x => h_priority x =? p) (h :: hs).
Proof.
  induction hs as [|x hs IH]; [reflexivity|].
  cbn [insert_by_priority].
  destruct (Z.ltb_spec (h_priority h) (h_priority x)) as [Hlt|Hge]; [|reflexivity].
  cbn [List.filter] in *. rewrite IH.
  destruct (Z.eqb_spec (h_priority h) p), (Z.eqb_spec (h_priority x) p);
    try reflexivity; lia.
Qed.

Lemma sort_by_priority_stable (p : Z) (hs : list handler) :
  List.filter (fun x => h_priority x =? p) (sort_by_priority hs) =
  List.filter (fun x => h_priority x =? p) hs.
Proof.
  induction hs as [|h hs IH]; [reflexivity|].
  cbn [sort_by_priority foldr]. rewrite insert_by_priority_stable.
  cbn [List.filter]. fold (sort_by_priority hs). rewrite IH. reflexivity.
Qed.

Lemma sort_by_priority_spec (hs : list handler) :
  stable_descending hs (sort_by_priority hs).
Proof.
  split; [apply sort_by_priority_perm|].
  split; [apply sort_by_priority_sorted|].
  intros p. apply sort_by_priority_stable.
Qed.

(** ** EventBus: one emission *)

Lemma deliver_run (name : string) (eventData : val) (h : handler) (s : sys) :
  deliver name eventData h s =
  (Ok tt, set_trace (trace s ++ delivery_events (behaviour s) (heap s) (trace s)
                                  name eventData h) s).
Proof.
  unfold deliver, deliver_by, call_plain, call_method, delivery_events, entry, this_of,
    try_catch, bind, ret, console_error, emit_event, modify, throw, call_ext,
    error_msg, gets.
  destruct (truthy (h_context h)); destruct (h_callback h) as [| |b|n|str|l|g];
    try reflexivity.
  all: cbv beta.
  all: try (match goal with
            | |- context [lookup_prop ?o "call"] => destruct (lookup_prop o "call")
            end; try reflexivity).
  all: cbn [trace set_trace]; destruct (behaviour s _ _ _ _); cbn; try reflexivity;
    rewrite <- app_assoc; reflexivity.
Qed.

Lemma forEach_deliver_run (name : string) (eventData : val) (hs : list handler) (s : sys) :
  forEach hs (deliver name eventData) s =
  (Ok tt, set_trace (trace s ++ dispatch_events (behaviour s) (heap s) (trace s)
                                  name eventData hs) s).
Proof.
  revert s. induction hs as [|h hs IH]; intros s; simpl.
  - unfold ret. rewrite set_trace_nil. reflexivity.
  - erewrite bind_run; [|apply deliver_run].
    rewrite IH. simpl. rewrite app_assoc. reflexivity.
Qed.

Lemma dispatch_events_calls beh hp tr name eventData hs :
  List.filter is_call (dispatch_events beh hp tr name eventData hs) =
  flat_map (delivery hp eventData) hs.
Proof.
  revert tr. induction hs as [|h hs IH]; intros tr; [reflexivity|].
  simpl. rewrite List.filter_app, IH. f_equal.
  unfold delivery_events, delivery.
  destruct (entry hp eventData h) as [[[f this] args]|]; [|reflexivity].
  simpl. destruct (beh _ _ _ _); reflexivity.
Qed.

Lemma handle_run (name : string) (eventData : val)
    (eventMap : sys -> gmap string (list handler)) (s : sys) :
  _handleEventEmission name eventData eventMap s =
  (Ok tt, set_trace (trace s ++ dispatch_events (behaviour s) (heap s) (trace s)
                                  name eventData
                                  (sort_by_priority (bucket (eventMap s) name))) s).
Proof.
  unfold _handleEventEmission, _handleEventEmission_by, bind, gets, bucket.
  destruct (eventMap s !! name) as [hs|]; simpl.
  - apply forEach_deliver_run.
  - unfold ret. rewrite set_trace_nil. reflexivity.
Qed.

(** A new object that holds no member [call] changes nothing to what the
    listeners enter. *)
Lemma entry_alloc (hp : heap_t) (l : loc) (o : obj) (eventData : val) (h : handler) :
  hp !! l = None ->
  lookup_prop o "call" = VUndef ->
  entry (<[l := o]> hp) eventData h = entry hp eventData h.
Proof.
  intros Hl Ho. unfold entry.
  destruct (h_callback h) as [| |b|n|str|l'|g]; try reflexivity.
  destruct (truthy (h_context h)); [|reflexivity].
  unfold deref. destruct (decide (l' = l)) as [->|Hne].
  - rewrite lookup_insert_eq, Hl. cbn [default]. unfold id. rewrite Ho. reflexivity.
  - rewrite lookup_insert_ne by congruence. reflexivity.
Qed.

Lemma dispatch_events_alloc beh (hp : heap_t) (l : loc) (o : obj) tr name eventData hs :
  hp !! l = None ->
  lookup_prop o "call" = VUndef ->
  dispatch_events beh (<[l := o]> hp) tr name eventData hs =
  dispatch_events beh hp tr name eventData hs.
Proof.
  intros Hl Ho. revert tr. induction hs as [|h hs IH]; intros tr; [reflexivity|].
  cbn [dispatch_events]. unfold delivery_events.
  rewrite (entry_alloc hp l o eventData h Hl Ho), IH. reflexivity.
Qed.

Lemma fresh_absent (hp : heap_t) : hp !! fresh (dom hp) = None.
Proof. apply not_elem_of_dom. apply is_fresh. Qed.

Lemma emit_run (name : string) (data source : val) (s : sys) :
  emit name data source s =
  (Ok tt,
   set_onceEvents (delete name (onceEvents s))
     (set_trace (trace s ++ emitted s name)
        (set_heap (<[fresh (dom (heap s)) :=
                      envelope name data (clock s (ticks s)) source]> (heap s))
           (set_ticks (S (ticks s)) s)))).
Proof.
  unfold emit, emit_by, emitted.
  unfold bind at 1. unfold date_now at 1.
  unfold bind at 1. unfold alloc at 1. cbn [heap set_ticks].
  fold (_handleEventEmission name (VRef (fresh (dom (heap s)))) events).
  fold (_handleEventEmission name (VRef (fresh (dom (heap s)))) onceEvents).
  erewrite bind_run; [|apply handle_run].
  erewrite bind_run; [|apply handle_run].
  unfold modify. cbn.
  rewrite !dispatch_events_alloc by (try apply fresh_absent; reflexivity).
  rewrite app_assoc. reflexivity.
Qed.

End BusFacts.

Module BusClaims.
Import EventBus BusSpec BusFacts.

(** C3.  An emission enters the persistent listeners of the name by
    descending priority, listeners of equal priority in registration order,
    then the once listeners of the name in the same arrangement; afterwards
    the once registry has no bucket for the name, whatever it held, and the
    persistent registry is as before.  The emission itself completes
    normally. *)
Theorem emit_delivers_by_priority (s : sys) (name : string) (data source : val) :
  exists regular once_ evs,
    stable_descending (bucket (events s) name) regular /\
    stable_descending (bucket (onceEvents s) name) once_ /\
    result (emit name data source) s = Ok tt /\
    trace (exec (emit name data source) s) = trace s ++ evs /\
    List.filter is_call evs =
      flat_map (delivery (heap s) (VRef (fresh (dom (heap s))))) (regular ++ once_) /\
    onceEvents (exec (emit name data source) s) = delete name (onceEvents s) /\
    onceEvents (exec (emit name data source) s) !! name = None /\
    events (exec (emit name data source) s) = events s.
Proof.
  exists (sort_by_priority (bucket (events s) name)),
         (sort_by_priority (bucket (onceEvents s) name)),
         (emitted s name).
  unfold result, exec. rewrite emit_run. cbn.
  repeat split; try apply sort_by_priority_spec.
  - unfold emitted. rewrite List.filter_app, !dispatch_events_calls.
    rewrite flat_map_app. reflexivity.
  - apply lookup_delete_eq.
Qed.

Lemma target_entry (hp : heap_t) (eventData : val) (h : handler) :
  target hp h =
  match entry hp eventData h with
  | Some (f, _, _) => Some f
  | None => None
  end.
Proof.
  unfold target, entry. destruct (h_callback h); try reflexivity.
  destruct (truthy (h_context h)); [|reflexivity].
  destruct (lookup_prop _ _); reflexivity.
Qed.

Lemma dispatch_events_calls_of beh hp tr name eventData f hs :
  List.filter (is_call_of f) (dispatch_events beh hp tr name eventData hs) =
  flat_map (fun h => if bool_decide (target hp h = Some f)
                     then delivery hp eventData h else []) hs.
Proof.
  revert tr. induction hs as [|h hs IH]; intros tr; [reflexivity|].
  simpl. rewrite List.filter_app, IH. f_equal.
  rewrite (target_entry hp eventData h). unfold delivery_events, delivery.
  destruct (entry hp eventData h) as [[[g this] args]|]; [|reflexivity].
  case_bool_decide as Hg.
  - inversion Hg; subst. simpl. rewrite Nat.eqb_refl.
    destruct (beh _ _ _ _); reflexivity.
  - simpl. destruct (Nat.eqb_spec f g) as [->|Hne]; [congruence|].
    destruct (beh _ _ _ _); reflexivity.
Qed.

Lemma flat_map_none {A B} (g : A -> list B) (l : list A) :
  Forall (fun x => g x = []) l -> flat_map g l = [].
Proof.
  induction 1 as [|x l Hx _ IH]; [reflexivity|].
  simpl. rewrite Hx, IH. reflexivity.
Qed.

Lemma no_calls_of beh hp tr name eventData f hs :
  Forall (fun h => target hp h <> Some f) hs ->
  List.filter (is_call_of f)
    (dispatch_events beh hp tr name eventData (sort_by_priority hs)) = [].
Proof.
  intros H. rewrite dispatch_events_calls_of. apply flat_map_none.
  eapply Permutation_Forall; [symmetry; apply sort_by_priority_perm|].
  eapply Forall_impl; [exact H|]. simpl. intros h Hh.
  case_bool_decide; [contradiction | reflexivity].
Qed.

Lemma bucket_add_handler (m : gmap string (list handler)) (name : string) (h : handler) :
  bucket (add_handler name h m) name = bucket m name ++ [h].
Proof. unfold add_handler, bucket at 1. rewrite lookup_insert_eq. reflexivity. Qed.


(** What a listener adds to the trace whatever was done before it is in
    the trace of the dispatch. *)
Lemma dispatch_events_member beh hp tr name eventData h hs (ev : event) :
  In h hs ->
  (forall tr', In ev (delivery_events beh hp tr' name eventData h)) ->
  In ev (dispatch_events beh hp tr name eventData hs).
Proof.
  intros Hin Hev. revert tr.
  induction hs as [|x hs IH]; intros tr; [destruct Hin|].
  simpl. apply in_or_app. destruct Hin as [->|Hin].
  - left. apply Hev.
  - right. apply IH. exact Hin.
Qed.


(** C9.  [on] refuses a callback that is not a function, by an error
    raised to the caller, and registers nothing.  [once] does not look at
    its callback: it registers the handler and returns its thunk, and the
    next emission of the name completes normally and empties the bucket.
    What the dispatch site does with the handler depends on how it calls
    it.  Registered without a context, or not an object, the callback cannot
    be called: the [TypeError] is caught there and written to the error
    console as for any failing listener.  An object that holds a function
    as its member [call], registered with a context, is called through that
    member, with the object as [this] and the context and the envelope as
    arguments: nothing fails, and the console is written to only if that
    function throws. *)
Theorem once_does_not_validate (s : sys) (name : string) (cb : val)
    (opts : options) (data source : val) :
  typeof_function cb = false ->
  let h := Handler cb (js_or (opt_context opts) VNull) (opt_priority opts) true in
  let s1 := exec (once name cb opts) s in
  let s2 := exec (emit name data source) s1 in
  let eventData := VRef (fresh (dom (heap s))) in
  on name cb opts s = (Exn (Error "Event callback must be a function"), s) /\
  once name cb opts s =
    (Ok (ThunkOffOnce name cb),
     set_onceEvents (<[name := bucket (onceEvents s) name ++ [h]]> (onceEvents s)) s) /\
  bucket (onceEvents s1) name = bucket (onceEvents s) name ++ [h] /\
  result (emit name data source) s1 = Ok tt /\
  bucket (onceEvents s2) name = [] /\
  exists evs,
    trace s2 = trace s ++ evs /\
    (truthy (opt_context opts) = false \/ (forall l, cb <> VRef l) ->
     (forall u ed,
        deliver name ed h u =
          (Ok tt, set_trace (trace u ++ [ConsoleError (error_msg name)
                                           (TypeError "callback is not a function")]) u)) /\
     In (ConsoleError (error_msg name) (TypeError "callback is not a function")) evs) /\
    (forall l g,
       truthy (opt_context opts) = true ->
       cb = VRef l ->
       lookup_prop (deref (heap s) l) "call" = VFun g ->
       (forall u ed,
          lookup_prop (deref (heap u) l) "call" = VFun g ->
          deliver name ed h u =
            (Ok tt,
             set_trace (trace u ++
                        Call AtEmit (Ext g) cb [opt_context opts; ed] ::
                        match behaviour u g cb [opt_context opts; ed] (trace u) with
                        | Returns _ => []
                        | Throws x => [ConsoleError (error_msg name) (Thrown x)]
                        end) u)) /\
       In (Call AtEmit (Ext g) cb [opt_context opts; eventData]) evs).
Proof.
  intros Hcb h s1 s2 eventData.
  assert (E1 : s1 = set_onceEvents (add_handler name h (onceEvents s)) s) by reflexivity.
  assert (Hin : In h (sort_by_priority (bucket (onceEvents s1) name))).
  { rewrite E1. cbn [onceEvents set_onceEvents]. rewrite bucket_add_handler.
    eapply Permutation_in; [apply Permutation_sym, sort_by_priority_perm|].
    apply in_or_app. right. left. reflexivity. }
  split; [unfold on; rewrite Hcb; reflexivity|].
  split; [reflexivity|].
  split; [rewrite E1; apply bucket_add_handler|].
  split; [unfold result; rewrite emit_run; reflexivity|].
  split.
  { unfold s2, exec. rewrite emit_run. cbn [snd onceEvents set_onceEvents].
    unfold bucket. rewrite lookup_delete_eq. reflexivity. }
  exists (emitted s1 name).
  split; [unfold s2, exec; rewrite emit_run; reflexivity|].
  split.
  - intros Hcase.
    assert (He : forall hp ed, entry hp ed h = None).
    { intros hp ed. unfold entry. subst h. cbn [h_callback h_context].
      destruct cb as [| |b|n|str|l|g]; try reflexivity; [|discriminate].
      destruct Hcase as [Hctx|Hobj]; [|exfalso; exact (Hobj l eq_refl)].
      unfold js_or. rewrite Hctx. reflexivity. }
    split.
    + intros u ed. rewrite deliver_run. unfold delivery_events. rewrite He. reflexivity.
    + unfold emitted. apply in_or_app. right.
      apply dispatch_events_member with (h := h); [exact Hin|].
      intros tr'. unfold delivery_events. rewrite He. left. reflexivity.
  - intros l g Hctx -> Hcall.
    assert (Hc : h_context h = opt_context opts)
      by (subst h; cbn [h_context]; unfold js_or; rewrite Hctx; reflexivity).
    assert (He : forall hp ed, lookup_prop (deref hp l) "call" = VFun g ->
                   entry hp ed h = Some (g, VRef l, [opt_context opts; ed])).
    { intros hp ed Hl. unfold entry. rewrite Hc. subst h. cbn [h_callback].
      rewrite Hctx, Hl. reflexivity. }
    split.
    + intros u ed Hu. rewrite deliver_run. unfold delivery_events.
      rewrite (He _ _ Hu). reflexivity.
    + unfold emitted. apply in_or_app. right.
      apply dispatch_events_member with (h := h); [exact Hin|].
      intros tr'. unfold delivery_events.
      rewrite E1. cbn [heap set_onceEvents]. rewrite (He _ _ Hcall). left. reflexivity.
Qed.

(** An object that holds a function as its member [call] is accepted by
    [once] and, registered with a context, is called through that member at
    the next emission: function 5 is entered with the object as its [this],
    and nothing is written to the error console. *)
Lemma once_enters_an_object_through_call :
  typeof_function (VRef 9) = false /\
  result (once "e" (VRef 9) (Options (VStr "ctx") 0)) Demo.with_callable =
    Ok (ThunkOffOnce "e" (VRef 9)) /\
  result (emit "e" VNull VUndef)
    (exec (once "e" (VRef 9) (Options (VStr "ctx") 0)) Demo.with_callable) = Ok tt /\
  trace (exec (emit "e" VNull VUndef)
           (exec (once "e" (VRef 9) (Options (VStr "ctx") 0)) Demo.with_callable)) =
    [Call AtEmit (Ext 5) (VRef 9) [VStr "ctx"; VRef 10]].
Proof. vm_compute. repeat split. Qed.

End BusClaims.

(** ** EventBus: listeners that call the bus *)

Module ReentrantFacts.
Import EventBus BusSpec BusFacts Session Reentrant.








End ReentrantFacts.

(** ** StateManager: the writes *)

Module StoreFacts.
Import StateManager Tree StoreSpec.

Lemma set_heap_same (s : sys) : set_heap (heap s) s = s.
Proof. destruct s; reflexivity. Qed.

Lemma lookup_assign_same (o : obj) (k : string) (v : val) :
  lookup_prop (assign_prop o k v) k = v.
Proof.
  induction o as [|[k' v'] o IH]; simpl.
  - rewrite String.eqb_refl. reflexivity.
  - destruct (String.eqb_spec k k') as [->|Hne]; simpl.
    + rewrite String.eqb_refl. reflexivity.
    + destruct (String.eqb_spec k k'); [contradiction | exact IH].
Qed.

Lemma lookup_assign_ne (o : obj) (k k' : string) (v : val) :
  k <> k' -> lookup_prop (assign_prop o k v) k' = lookup_prop o k'.
Proof.
  intros Hne. induction o as [|[k0 v0] o IH]; simpl.
  - destruct (String.eqb_spec k' k); [congruence | reflexivity].
  - destruct (String.eqb_spec k k0) as [->|Hk]; simpl.
    + destruct (String.eqb_spec k' k0); [congruence | reflexivity].
    + destruct (String.eqb_spec k' k0); [reflexivity | exact IH].
Qed.

Lemma deref_insert_eq (h : heap_t) (l : loc) (o : obj) : deref (<[l := o]> h) l = o.
Proof. unfold deref. rewrite lookup_insert_eq. reflexivity. Qed.

Lemma deref_insert_ne (h : heap_t) (l l' : loc) (o : obj) :
  l <> l' -> deref (<[l := o]> h) l' = deref h l'.
Proof. intros H. unfold deref. rewrite lookup_insert_ne by exact H. reflexivity. Qed.

Lemma descend_run (l : loc) (key : string) (s : sys) :
  StateManager.descend (VRef l) key s =
  (Ok (VRef (snd (Tree.descend (heap s) l key))),
   set_heap (fst (Tree.descend (heap s) l key)) s).
Proof.
  unfold StateManager.descend, Tree.descend, bind, gets, read_prop.
  destruct (lookup_prop (deref (heap s) l) key) as [| |b|n|str|l'|g] eqn:E;
    cbn [truthy typeof_object negb orb]; rewrite ?orb_true_r;
    try (unfold alloc, assign, modify, ret; cbn [heap set_heap fst snd];
         rewrite deref_insert_eq, lookup_assign_same; reflexivity).
  unfold ret. cbn [fst snd]. rewrite E, set_heap_same. reflexivity.
Qed.

Lemma walk_run (keys : list string) (l : loc) (s : sys) :
  reduceM StateManager.descend keys (VRef l) s =
  (Ok (VRef (snd (walk (heap s) l keys))), set_heap (fst (walk (heap s) l keys)) s).
Proof.
  revert l s. induction keys as [|k keys IH]; intros l s; simpl.
  - unfold ret. rewrite set_heap_same. reflexivity.
  - erewrite bind_run; [|apply descend_run]. rewrite IH. reflexivity.
Qed.

Lemma setNestedValue_run (path : string) (value : val) (s : sys) :
  _setNestedValue path value s =
  (Ok tt, set_heap (setNestedValue (heap s) (state s) path value) s).
Proof.
  unfold _setNestedValue, setNestedValue.
  unfold bind at 1. unfold gets at 1.
  erewrite bind_run; [|apply walk_run].
  reflexivity.
Qed.

Lemma snapshot_run (s : sys) :
  snapshot s = (Ok (fresh (dom (heap s))), set_heap (copy_root (heap s) (state s)) s).
Proof. reflexivity. Qed.

Lemma bulk_writes_run (es : obj) (s : sys) :
  forEach es (fun kv => _setNestedValue (fst kv) (snd kv)) s =
  (Ok tt,
   set_heap (fold_left (fun h' kv => setNestedValue h' (state s) (fst kv) (snd kv))
               es (heap s)) s).
Proof.
  revert s. induction es as [|kv es IH]; intros s; simpl.
  - unfold ret. rewrite set_heap_same. reflexivity.
  - erewrite bind_run; [|apply setNestedValue_run]. rewrite IH. reflexivity.
Qed.

Lemma addToHistory_run (o n : loc) (s : sys) :
  _addToHistory o n s =
  (Ok tt,
   set_history (push_history (maxHistoryLength s) (Entry (clock s (ticks s)) o n) (history s))
     (set_ticks (S (ticks s)) s)).
Proof.
  unfold _addToHistory, push_history, bind, date_now, modify.
  cbn [history set_history set_ticks maxHistoryLength].
  destruct (_ <? _)%nat; reflexivity.
Qed.

(** [setState] writes and records first, and only then notifies. *)
Lemma setState_via_run (notify : string -> M unit) (key : key_arg) (value : val)
    (silent : bool) (s : sys) :
  setState_via notify key value silent s =
  (if negb silent
   then match key with
        | Bulk o => forEach (map fst (deref (heap (commit s key value)) o)) notify
        | Path k => notify k
        end
   else ret tt) (commit s key value).
Proof.
  unfold setState_via, commit.
  erewrite bind_run; [|apply snapshot_run].
  destruct key as [k|o].
  - erewrite bind_run; [|apply setNestedValue_run].
    erewrite bind_run; [|apply snapshot_run].
    erewrite bind_run; [|apply addToHistory_run].
    destruct silent; reflexivity.
  - erewrite bind_run;
      [|unfold bind at 1; unfold gets at 1; apply bulk_writes_run].
    erewrite bind_run; [|apply snapshot_run].
    erewrite bind_run; [|apply addToHistory_run].
    destruct silent; reflexivity.
Qed.

Lemma setState_silent_run (notify : string -> M unit) (key : key_arg) (value : val) (s : sys) :
  setState_via notify key value true s = (Ok tt, commit s key value).
Proof. rewrite setState_via_run. reflexivity. Qed.

End StoreFacts.

(** ** StateManager: steps that keep a relation *)

Module Keeps.

Section Rules.
Context (R : sys -> sys -> Prop) `{!PreOrder R}.

Lemma keeps_ret {A} (a : A) : keeps R (ret a).
Proof. intros s. simpl. reflexivity. Qed.

Lemma keeps_throw {A} (e : exn) : keeps R (@throw A e).
Proof. intros s. simpl. reflexivity. Qed.

Lemma keeps_gets {A} (f : sys -> A) : keeps R (gets f).
Proof. intros s. simpl. reflexivity. Qed.

Lemma keeps_bind {A B} (m : M A) (k : A -> M B) :
  keeps R m -> (forall a, keeps R (k a)) -> keeps R (bind m k).
Proof.
  intros Hm Hk s. unfold bind. specialize (Hm s).
  destruct (m s) as [[a|e] s1]; simpl in *.
  - etransitivity; [exact Hm | apply Hk].
  - exact Hm.
Qed.

Lemma keeps_try_catch {A} (body : M A) (handler : exn -> M A) :
  keeps R body -> (forall e, keeps R (handler e)) -> keeps R (try_catch body handler).
Proof.
  intros Hm Hk s. unfold try_catch. specialize (Hm s).
  destruct (body s) as [[a|e] s1]; simpl in *.
  - exact Hm.
  - etransitivity; [exact Hm | apply Hk].
Qed.

Lemma keeps_modify (f : sys -> sys) : (forall s, R s (f s)) -> keeps R (modify f).
Proof. intros H s. apply H. Qed.

Lemma keeps_reduceM {A B} (f : B -> A -> M B) (xs : list A) (init : B) :
  (forall b x, keeps R (f b x)) -> keeps R (reduceM f xs init).
Proof.
  intros Hf. revert init. induction xs as [|x xs IH]; intros init; simpl.
  - apply keeps_ret.
  - apply keeps_bind; [apply Hf | intros acc; apply IH].
Qed.

Lemma keeps_forEach {A} (xs : list A) (f : A -> M unit) :
  (forall x, keeps R (f x)) -> keeps R (forEach xs f).
Proof.
  intros Hf. induction xs as [|x xs IH]; simpl.
  - apply keeps_ret.
  - apply keeps_bind; [apply Hf | intros _; exact IH].
Qed.

Lemma keeps_mapM {A B} (f : A -> M B) (xs : list A) :
  (forall x, keeps R (f x)) -> keeps R (mapM f xs).
Proof.
  intros Hf. induction xs as [|x xs IH]; simpl.
  - apply keeps_ret.
  - apply keeps_bind; [apply Hf | intros y].
    apply keeps_bind; [exact IH | intros ys; apply keeps_ret].
Qed.

End Rules.

End Keeps.

(** ** StateManager: one notification *)

Module NotifyFacts.
Import StateManager Tree StoreSpec StoreFacts Keeps.

#[export] Instance quiet_preorder : PreOrder quiet.
Proof.
  split.
  - intros s. repeat split. exists []. rewrite app_nil_r. split; constructor.
  - intros s1 s2 s3 (Hr1 & Hs1 & evs1 & Ht1 & Hf1) (Hr2 & Hs2 & evs2 & Ht2 & Hf2).
    split; [congruence|]. split; [congruence|].
    exists (evs1 ++ evs2). split.
    + rewrite Ht2, Ht1, app_assoc. reflexivity.
    + apply Forall_app. split; assumption.
Qed.

Lemma quiet_set_heap (h : heap_t) (s : sys) : quiet s (set_heap h s).
Proof.
  repeat split. exists []. cbn. rewrite app_nil_r. split; constructor.
Qed.

Lemma getState_run (key : string) (s : sys) :
  getState key s = (Ok (current_value s key), after_read s key).
Proof.
  unfold getState, current_value, after_read.
  destruct (String.eqb key ""); reflexivity.
Qed.

Lemma keeps_quiet_getState (key : string) : keeps quiet (getState key).
Proof.
  intros s. rewrite getState_run. cbn [snd]. unfold after_read.
  destruct (String.eqb key ""); [apply quiet_set_heap | reflexivity].
Qed.

Lemma quiet_commit (s : sys) (key : key_arg) (value : val) : quiet s (commit s key value).
Proof.
  repeat split. exists []. cbn. rewrite app_nil_r. split; constructor.
Qed.

Lemma keeps_quiet_call_ext (st : site) (f : nat) (this : val) (args : list val) :
  st <> AtNotify -> keeps quiet (call_ext st f this args).
Proof.
  intros Hst s. unfold call_ext.
  assert (Hq : quiet s (set_trace (trace s ++ [Call st (Ext f) this args]) s)).
  { repeat split. eexists. split; [reflexivity|].
    constructor; [|constructor]. simpl. apply bool_decide_eq_false_2. exact Hst. }
  destruct (behaviour s f this args (trace s)); exact Hq.
Qed.

Lemma keeps_quiet_updateComputed (f : nat) (deps : list string) (target : string) :
  keeps quiet (updateComputed f deps target).
Proof.
  unfold updateComputed.
  apply keeps_bind; [typeclasses eauto | |intros inputs].
  - apply keeps_mapM; [typeclasses eauto|]. apply keeps_quiet_getState.
  - apply keeps_bind; [typeclasses eauto | |intros r].
    + apply keeps_quiet_call_ext. discriminate.
    + intros s. rewrite setState_silent_run. apply quiet_commit.
Qed.

Lemma enter_spec (c : callee) (this : val) (args : list val) (s : sys) :
  rest (snd (call_callee AtNotify c this args s)) = rest s /\
  subscribers (snd (call_callee AtNotify c this args s)) = subscribers s /\
  (exists evs,
     trace (snd (call_callee AtNotify c this args s)) =
       trace s ++ Call AtNotify c this args :: evs /\
     Forall (fun ev => is_call_at AtNotify ev = false) evs) /\
  (is_ext c = true -> heap (snd (call_callee AtNotify c this args s)) = heap s).
Proof.
  destruct c as [f|f deps target].
  - cbn [call_callee]. unfold call_ext. destruct (behaviour s f this args (trace s)); cbn;
      (repeat split; exists []; split; [reflexivity | constructor]).
  - pose (s0 := set_trace (trace s ++ [Call AtNotify (UpdateComputed f deps target) this args]) s).
    assert (E : call_callee AtNotify (UpdateComputed f deps target) this args s =
                (updateComputed f deps target ;; ret VUndef) s0) by reflexivity.
    rewrite E. clear E.
    pose proof (keeps_quiet_updateComputed f deps target s0) as (Hr & Hs & evs & Ht & Hf).
    unfold bind.
    destruct (updateComputed f deps target s0) as [[[]|e] s1]; cbn [snd ret] in *;
      (split; [exact Hr|]; split; [exact Hs|]; split; [|discriminate];
       exists evs; split; [|exact Hf];
       rewrite Ht; subst s0; cbn; rewrite <- app_assoc; reflexivity).
Qed.

Lemma notify_one_call (key : string) (value : val) (sub : subscription) :
  notify_one key value sub =
  try_catch
    (call_callee AtNotify (sub_callback sub) (this_of sub) [value; VStr key] ;;
     if sub_once sub then delete_subscription key sub else ret tt)
    (fun error => console_error (error_msg key) error).
Proof.
  unfold notify_one, this_of. destruct (truthy (sub_context sub)); reflexivity.
Qed.

Lemma Forall_no_notify_snoc (evs : list event) (msg : string) (e : exn) :
  Forall (fun ev => is_call_at AtNotify ev = false) evs ->
  Forall (fun ev => is_call_at AtNotify ev = false) (evs ++ [ConsoleError msg e]).
Proof. intros H. apply Forall_app. split; [exact H | repeat constructor]. Qed.

(** The dispatch site of the store contains every fault. *)
Lemma notify_one_spec (key : string) (value : val) (sub : subscription) (s : sys) :
  fst (notify_one key value sub s) = Ok tt /\
  notified_one key value sub s (snd (notify_one key value sub s)).
Proof.
  rewrite notify_one_call. unfold try_catch, bind.
  pose proof (enter_spec (sub_callback sub) (this_of sub) [value; VStr key] s)
    as (Hr & Hs & (evs & Ht & Hf) & Hh).
  fold (notification key value sub) in Ht.
  destruct (call_callee AtNotify (sub_callback sub) (this_of sub) [value; VStr key] s)
    as [[r|e] s1]; cbn [snd] in *.
  - destruct (sub_once sub).
    + unfold delete_subscription, bind, gets.
      destruct (subscribers s1 !! key) as [b|] eqn:Eb; cbn.
      * split; [reflexivity|]. split; [exact Hr|].
        split; [right; exists b; rewrite <- Hs; split; [exact Eb | reflexivity]|].
        split; [exists evs; split; assumption | exact Hh].
      * split; [reflexivity|]. split; [exact Hr|].
        split; [left; exact Hs|].
        split; [|exact Hh].
        exists (evs ++ [ConsoleError (error_msg key)
                  (TypeError "Cannot read properties of undefined (reading 'delete')")]).
        split; [rewrite Ht, <- app_assoc; reflexivity | apply Forall_no_notify_snoc, Hf].
    + cbn. split; [reflexivity|]. split; [exact Hr|].
      split; [left; exact Hs|].
      split; [exists evs; split; assumption | exact Hh].
  - cbn. split; [reflexivity|]. split; [exact Hr|].
    split; [left; exact Hs|].
    split; [|exact Hh].
    exists (evs ++ [ConsoleError (error_msg key) e]).
    split; [rewrite Ht, <- app_assoc; reflexivity | apply Forall_no_notify_snoc, Hf].
Qed.

Lemma filter_no_notify (evs : list event) :
  Forall (fun ev => is_call_at AtNotify ev = false) evs ->
  List.filter (is_call_at AtNotify) evs = [].
Proof.
  induction 1 as [|ev evs Hev _ IH]; [reflexivity|].
  simpl. rewrite Hev. exact IH.
Qed.

Lemma without_nil (b : list subscription) : without [] b = b.
Proof.
  unfold without. induction b as [|x b IH]; [reflexivity|].
  rewrite filter_cons_True by (apply not_elem_of_nil). rewrite IH. reflexivity.
Qed.

Lemma without_remove_sub (removed : list nat) (x : subscription) (b : list subscription) :
  without removed (remove_sub x b) = without (sub_id x :: removed) b.
Proof.
  unfold without, remove_sub. induction b as [|y b IH]; [reflexivity|].
  rewrite (filter_cons (fun z => sub_id z <> sub_id x)).
  rewrite (filter_cons (fun z => sub_id z ∉ sub_id x :: removed)).
  destruct (decide (sub_id y <> sub_id x)) as [Hne|Heq].
  - rewrite filter_cons. rewrite IH.
    destruct (decide (sub_id y ∈ removed)) as [Hin|Hnin].
    + rewrite decide_False by (intros H; apply H; exact Hin).
      rewrite decide_False by (intros H; apply H; right; exact Hin).
      reflexivity.
    + rewrite decide_True by exact Hnin.
      rewrite decide_True; [reflexivity|].
      intros H. apply elem_of_cons in H. destruct H; [congruence | contradiction].
  - rewrite IH. rewrite decide_False; [reflexivity|].
    intros H. apply H.
    destruct (decide (sub_id y = sub_id x)) as [->|]; [left | contradiction].
Qed.

Lemma forEach_notify_spec (key : string) (value : val) (subs : list subscription)
    (b : list subscription) (s : sys) :
  subscribers s !! key = Some b ->
  fst (forEach subs (notify_one key value) s) = Ok tt /\
  notified_all key value subs b s (snd (forEach subs (notify_one key value) s)).
Proof.
  revert b s. induction subs as [|x subs IH]; intros b s Hb.
  - cbn. split; [reflexivity|]. split; [reflexivity|].
    split; [|split; [|reflexivity]].
    + exists []. split; [set_solver|].
      rewrite without_nil. symmetry. apply insert_id. exact Hb.
    + exists []. rewrite app_nil_r. split; reflexivity.
  - cbn [forEach]. unfold bind.
    pose proof (notify_one_spec key value x s) as (Hok & Hr1 & Hs1 & (evs1 & Ht1 & Hf1) & Hh1).
    destruct (notify_one key value x s) as [[[]|e] s1]; cbn [fst snd] in *;
      [|discriminate].
    assert (Hb1 : exists b1 r1, subscribers s1 !! key = Some b1 /\
              b1 = without r1 b /\ r1 ⊆ [sub_id x] /\
              subscribers s1 = <[key := b1]> (subscribers s)).
    { destruct Hs1 as [Hs1|(b0 & Hb0 & Hs1)].
      - exists b, []. rewrite Hs1. split; [exact Hb|]. split; [symmetry; apply without_nil|].
        split; [set_solver|]. symmetry. apply insert_id. exact Hb.
      - assert (b0 = b) by congruence. subst b0.
        exists (remove_sub x b), [sub_id x]. rewrite Hs1, lookup_insert_eq.
        split; [reflexivity|]. split; [|split; [set_solver | reflexivity]].
        rewrite <- (without_nil (remove_sub x b)). apply without_remove_sub. }
    destruct Hb1 as (b1 & r1 & Hb1 & Eb1 & Hr1' & Hsub1).
    specialize (IH b1 s1 Hb1) as (Hok2 & Hr2 & (r2 & Hr2' & Hs2) & (evs2 & Ht2 & Hf2) & Hh2).
    split; [exact Hok2|]. split; [congruence|].
    split; [|split].
    + exists (r2 ++ r1). split.
      * cbn [map]. intros z Hz. apply elem_of_app in Hz as [Hz|Hz].
        -- right. apply Hr2'. exact Hz.
        -- apply Hr1' in Hz. apply list_elem_of_singleton in Hz. subst z. left.
      * rewrite Hs2, Hsub1, insert_insert_eq. f_equal. subst b1.
        unfold without. rewrite list_filter_filter. apply list_filter_iff.
        intros y. rewrite elem_of_app. tauto.
    + exists (notification key value x :: evs1 ++ evs2). split.
      * rewrite Ht2, Ht1, <- app_assoc. reflexivity.
      * cbn [List.filter map]. unfold notification at 1. cbn [is_call_at].
        rewrite bool_decide_eq_true_2 by reflexivity.
        rewrite List.filter_app, filter_no_notify by exact Hf1.
        cbn [app]. rewrite Hf2. reflexivity.
    + intros Hext. apply Forall_cons in Hext as [Hx Hext].
      rewrite Hh2 by exact Hext. apply Hh1. exact Hx.
Qed.

Lemma rest_after_read (s : sys) (key : string) : rest (after_read s key) = rest s.
Proof. unfold after_read. destruct (String.eqb key ""); reflexivity. Qed.

Lemma subscribers_after_read (s : sys) (key : string) :
  subscribers (after_read s key) = subscribers s.
Proof. unfold after_read. destruct (String.eqb key ""); reflexivity. Qed.

Lemma trace_after_read (s : sys) (key : string) : trace (after_read s key) = trace s.
Proof. unfold after_read. destruct (String.eqb key ""); reflexivity. Qed.

Lemma after_read_nonempty (s : sys) (key : string) : key <> "" -> after_read s key = s.
Proof.
  intros H. unfold after_read. destruct (String.eqb_spec key ""); [contradiction | reflexivity].
Qed.

Lemma current_value_nonempty (s : sys) (key : string) :
  key <> "" -> current_value s key = read_path (heap s) (state s) key.
Proof.
  intros H. unfold current_value.
  destruct (String.eqb_spec key ""); [contradiction | reflexivity].
Qed.

Lemma notifySubscribers_spec (key : string) (s : sys) :
  exists s', _notifySubscribers key s = (Ok tt, s') /\ round key s s'.
Proof.
  unfold _notifySubscribers. unfold bind at 1. unfold gets at 1. unfold round, bucket.
  destruct (subscribers s !! key) as [b|] eqn:Hb; cbn [default].
  - erewrite bind_run; [|apply getState_run].
    assert (Hb0 : subscribers (after_read s key) !! key = Some b)
      by (rewrite subscribers_after_read; exact Hb).
    pose proof (forEach_notify_spec key (current_value s key) b b _ Hb0)
      as (Hok & Hr & (removed & Hrem & Hs) & (evs & Ht & Hf) & Hh).
    unfold bind.
    destruct (forEach b (notify_one key (current_value s key)) (after_read s key))
      as [[[]|e] s1]; cbn [fst snd] in *; [|discriminate].
    unfold gets. rewrite Hs, lookup_insert_eq.
    rewrite rest_after_read in Hr. rewrite trace_after_read in Ht.
    rewrite subscribers_after_read in Hs.
    destruct (length (without removed b) =? 0)%nat eqn:Hlen.
    + eexists. split; [reflexivity|]. cbn. rewrite Hs.
      split; [exact Hr|].
      split; [|split; [|split]].
      * exists removed. split; [exact Hrem|].
        rewrite lookup_delete_eq. cbn.
        apply Nat.eqb_eq in Hlen. symmetry. apply nil_length_inv. exact Hlen.
      * intros k' Hk'. rewrite lookup_delete_ne by congruence.
        apply lookup_insert_ne. congruence.
      * exists evs. split; assumption.
      * intros Hext Hne. rewrite Hh by exact Hext.
        rewrite after_read_nonempty by exact Hne. reflexivity.
    + eexists. split; [reflexivity|]. cbn. rewrite Hs.
      split; [exact Hr|].
      split; [|split; [|split]].
      * exists removed. split; [exact Hrem|].
        rewrite lookup_insert_eq. reflexivity.
      * intros k' Hk'. apply lookup_insert_ne. congruence.
      * exists evs. split; assumption.
      * intros Hext Hne. rewrite Hh by exact Hext.
        rewrite after_read_nonempty by exact Hne. reflexivity.
  - exists s. split; [reflexivity|]. rewrite Hb. cbn.
    split; [reflexivity|].
    split; [|split; [|split]].
    + exists []. split; [apply list_subseteq_nil | reflexivity].
    + reflexivity.
    + exists []. rewrite app_nil_r. split; reflexivity.
    + reflexivity.
Qed.

Lemma rest_slot (s s' : sys) :
  rest s' = rest s -> _notifySubscribers_slot s' = _notifySubscribers_slot s.
Proof. unfold rest. intros H. injection H. auto. Qed.

Lemma rest_state (s s' : sys) : rest s' = rest s -> state s' = state s.
Proof. unfold rest. intros H. injection H. auto. Qed.


Lemma rest_sets (s s' : sys) : rest s' = rest s -> sets s' = sets s.
Proof. unfold rest. intros H. injection H. auto. Qed.

Lemma this_notify_original (key : string) (s : sys) :
  _notifySubscribers_slot s = Original ->
  this_notifySubscribers key s = _notifySubscribers key s.
Proof.
  intros H. unfold this_notifySubscribers, bind, gets. rewrite H. reflexivity.
Qed.

Lemma without_subset (removed : list nat) (b : list subscription) (x : subscription) :
  x ∈ without removed b -> x ∈ b.
Proof. unfold without. intros H. apply list_elem_of_filter in H. tauto. Qed.



(** Rounds for several paths, whatever the subscribers are. *)
Lemma rounds_general (keys : list string) (s : sys) :
  _notifySubscribers_slot s = Original ->
  exists s' evs,
    forEach keys this_notifySubscribers s = (Ok tt, s') /\
    rest s' = rest s /\
    (forall k x, x ∈ bucket (subscribers s') k -> x ∈ bucket (subscribers s) k) /\
    (forall k, k ∉ keys -> subscribers s' !! k = subscribers s !! k) /\
    trace s' = trace s ++ evs /\
    Forall (is_notification_of (subscribers s) keys) (List.filter (is_call_at AtNotify) evs).
Proof.
  revert s. induction keys as [|k keys IH]; intros s Hslot.
  - exists s, []. cbn. rewrite app_nil_r. repeat split; auto.
  - cbn [forEach]. rewrite (bind_run _ _ s) with (a := tt)
      (s' := snd (_notifySubscribers k s)).
    2:{ rewrite this_notify_original by exact Hslot.
        destruct (notifySubscribers_spec k s) as (s1 & E & _). rewrite E. reflexivity. }
    destruct (notifySubscribers_spec k s) as (s1 & E & Hr & (removed & _ & Hb) & Hoth & (evs1 & Ht1 & Hf1) & _).
    rewrite E. cbn [snd].
    destruct (IH s1) as (s' & evs2 & E2 & Hr2 & Hsub2 & Hoth2 & Ht2 & Hf2).
    { rewrite (rest_slot _ _ Hr). exact Hslot. }
    assert (Hsub1 : forall k' x, x ∈ bucket (subscribers s1) k' -> x ∈ bucket (subscribers s) k').
    { intros k' x Hx. destruct (decide (k' = k)) as [->|Hne].
      - rewrite Hb in Hx. eapply without_subset, Hx.
      - unfold bucket in *. rewrite Hoth in Hx by exact Hne. exact Hx. }
    exists s', (evs1 ++ evs2). split; [exact E2|]. split; [congruence|].
    split; [intros k' x Hx; apply Hsub1, Hsub2, Hx|].
    split.
    { intros k' Hk'. apply not_elem_of_cons in Hk' as [Hne Hk'].
      rewrite Hoth2 by exact Hk'. apply Hoth. exact Hne. }
    split; [rewrite Ht2, Ht1, app_assoc; reflexivity|].
    rewrite List.filter_app. apply Forall_app. split.
    + rewrite Hf1. apply Forall_forall. intros ev Hev.
      apply list_elem_of_In, in_map_iff in Hev as (sub & <- & Hsub).
      exists k, (current_value s k), sub. split; [left|].
      split; [apply list_elem_of_In; exact Hsub | reflexivity].
    + eapply Forall_impl; [exact Hf2|]. cbn beta.
      intros ev (k' & v & sub & Hk' & Hsub & ->).
      exists k', v, sub. split; [right; exact Hk'|].
      split; [apply Hsub1, Hsub | reflexivity].
Qed.


End NotifyFacts.

(** ** StateManager: the claims about [setState] *)

Module StoreClaims.
Import StateManager Tree StoreSpec StoreFacts NotifyFacts.

Lemma forEach_single {A} (x : A) (f : A -> M unit) (s : sys) :
  forEach [x] f s = f x s.
Proof.
  cbn. unfold bind. destruct (f x s) as [[[]|e] s']; reflexivity.
Qed.



(** C7.  Subscriptions go by the exact path string.  Whatever [setState]
    writes, every subscriber it notifies is registered under one of the
    written paths, literally, and is notified with that path; a subscriber
    registered under any other string, an ancestor or a descendant of a
    written path included, is not notified with its path, and its bucket is
    left as it was. *)
Theorem notification_is_by_exact_path (s : sys) (key : key_arg) (value : val) (silent : bool) :
  _notifySubscribers_slot s = Original ->
  written (heap (commit s key value)) key = written (heap s) key ->
  exists s' evs,
    setState key value silent s = (Ok tt, s') /\
    trace s' = trace s ++ evs /\
    Forall (is_notification_of (subscribers s) (written (heap s) key))
           (List.filter (is_call_at AtNotify) evs) /\
    (forall k v sub, k ∉ written (heap s) key -> ~ In (notification k v sub) evs) /\
    (forall k, k ∉ written (heap s) key -> subscribers s' !! k = subscribers s !! k).
Proof.
  intros Hslot Hw.
  assert (Hgen : exists s' evs,
    setState key value silent s = (Ok tt, s') /\
    trace s' = trace s ++ evs /\
    Forall (is_notification_of (subscribers s) (written (heap s) key))
           (List.filter (is_call_at AtNotify) evs) /\
    (forall k, k ∉ written (heap s) key -> subscribers s' !! k = subscribers s !! k)).
  { unfold setState. rewrite setState_via_run. destruct silent; cbn [negb].
    - exists (commit s key value), []. cbn. rewrite app_nil_r.
      repeat split; auto.
    - destruct (rounds_general (written (heap s) key) (commit s key value) Hslot)
        as (s' & evs & E & _ & _ & Hoth & Ht & Hf).
      exists s', evs. split; [|split; [exact Ht|split; [exact Hf | exact Hoth]]].
      rewrite <- E. rewrite <- Hw. destruct key as [k|o]; cbn [written].
      + symmetry. apply forEach_single.
      + reflexivity. }
  destruct Hgen as (s' & evs & E & Ht & Hf & Hoth).
  exists s', evs. repeat split; try assumption.
  intros k v sub Hk Hin.
  assert (Hin' : In (notification k v sub) (List.filter (is_call_at AtNotify) evs)).
  { apply filter_In. split; [exact Hin|]. cbn. apply bool_decide_eq_true_2. reflexivity. }
  rewrite Forall_forall in Hf. apply list_elem_of_In, Hf in Hin'.
  destruct Hin' as (k' & v' & sub' & Hk' & _ & Heq).
  unfold notification in Heq. injection Heq as _ _ _ Hkk. subst k'. contradiction.
Qed.

End StoreClaims.

(** ** Faults at the dispatch sites *)

Module FaultClaims.
Import StateManager Tree StoreSpec StoreFacts NotifyFacts.

Lemma notify_one_throws (key : string) (v : val) (sub : subscription) (g : nat)
    (y : val) (w : sys) :
  sub_callback sub = Ext g ->
  behaviour w g (this_of sub) [v; VStr key] (trace w) = Throws y ->
  notify_one key v sub w =
  (Ok tt, set_trace (trace w ++ [notification key v sub;
                                 ConsoleError (error_msg key) (Thrown y)]) w).
Proof.
  intros Hcb Hbeh. rewrite notify_one_call. unfold notification. rewrite Hcb.
  cbn [call_callee]. unfold try_catch, bind, call_ext. rewrite Hbeh.
  unfold console_error, emit_event, modify. cbn. rewrite <- app_assoc. reflexivity.
Qed.


(** C6.  At both dispatch sites a callback that throws is caught and
    written to the error console, and nothing else of the system changes;
    the dispatch goes on.  Whatever the callbacks do, an emission completes
    normally and has entered every listener of the name, persistent ones
    first, and a notification round completes normally and has entered
    every subscriber of the path. *)
Theorem faults_are_contained
    (s : sys) (name : string) (data source : val)
    (t : sys) (key : string)
    (u : sys) (h : handler) (eventData : val) (f : nat) (x : val)
    (w : sys) (sub : subscription) (v : val) (g : nat) (y : val) :
  h_callback h = VFun f ->
  behaviour u f (BusSpec.this_of h) [eventData] (trace u) = Throws x ->
  sub_callback sub = Ext g ->
  behaviour w g (this_of sub) [v; VStr key] (trace w) = Throws y ->
  EventBus.deliver name eventData h u =
    (Ok tt, set_trace (trace u ++ [Call AtEmit (Ext f) (BusSpec.this_of h) [eventData];
                                   ConsoleError (BusSpec.error_msg name) (Thrown x)]) u) /\
  (exists s' evs,
     EventBus.emit name data source s = (Ok tt, s') /\
     trace s' = trace s ++ evs /\
     List.filter is_call evs =
       flat_map (BusSpec.delivery (heap s) (VRef (fresh (dom (heap s)))))
         (EventBus.sort_by_priority (EventBus.bucket (events s) name) ++
          EventBus.sort_by_priority (EventBus.bucket (onceEvents s) name))) /\
  notify_one key v sub w =
    (Ok tt, set_trace (trace w ++ [notification key v sub;
                                   ConsoleError (error_msg key) (Thrown y)]) w) /\
  (exists t' evs,
     _notifySubscribers key t = (Ok tt, t') /\
     trace t' = trace t ++ evs /\
     List.filter (is_call_at AtNotify) evs =
       map (notification key (current_value t key)) (bucket (subscribers t) key)).
Proof.
  intros Hh Hu Hsub Hw.
  split; [|split; [|split]].
  - rewrite BusFacts.deliver_run. unfold BusSpec.delivery_events, BusSpec.entry.
    rewrite Hh, Hu. reflexivity.
  - eexists. exists (BusSpec.emitted s name).
    split; [apply BusFacts.emit_run|]. split; [reflexivity|].
    unfold BusSpec.emitted.
    rewrite List.filter_app, !BusFacts.dispatch_events_calls, flat_map_app.
    reflexivity.
  - exact (notify_one_throws key v sub g y w Hsub Hw).
  - destruct (notifySubscribers_spec key t) as (t' & E & _ & _ & _ & (evs & Ht & Hf) & _).
    exists t', evs. repeat split; assumption.
Qed.

End FaultClaims.

(** ** A once-subscription whose callback throws *)

Module OnceClaims.
Import StateManager Tree StoreSpec StoreFacts NotifyFacts FaultClaims.

Lemma nodup_ids_inj (b : list subscription) (y z : subscription) :
  NoDup (map sub_id b) -> y ∈ b -> z ∈ b -> sub_id y = sub_id z -> y = z.
Proof.
  induction b as [|x b IH]; intros Hnd Hy Hz Hid.
  - apply elem_of_nil in Hy. destruct Hy.
  - cbn [map] in Hnd. apply NoDup_cons in Hnd as [Hx Hnd].
    apply elem_of_cons in Hy as [->|Hy]; apply elem_of_cons in Hz as [->|Hz].
    + reflexivity.
    + exfalso. apply Hx. rewrite Hid. apply list_elem_of_fmap_2. exact Hz.
    + exfalso. apply Hx. rewrite <- Hid. apply list_elem_of_fmap_2. exact Hy.
    + apply IH; assumption.
Qed.



Lemma remove_sub_gone (sub : subscription) (b : list subscription) :
  sub ∉ remove_sub sub b.
Proof.
  unfold remove_sub. intros Hin. apply list_elem_of_filter in Hin as [Hid _].
  apply Hid. reflexivity.
Qed.







End OnceClaims.

(** ** Batched updates *)

Module BatchClaims.
Import StateManager Tree StoreSpec StoreFacts NotifyFacts Batch.












End BatchClaims.

(** ** Reading back what was written *)

Module TreeFacts.
Import StateManager Tree StoreSpec StoreFacts.

Lemma deref_fresh (h : heap_t) : deref h (fresh (dom h)) = [].
Proof.
  unfold deref. rewrite (not_elem_of_dom_1 h (fresh (dom h))); [reflexivity|].
  apply is_fresh.
Qed.

Lemma descend_link (h : heap_t) (l : loc) (k : string) :
  lookup_prop (deref (fst (Tree.descend h l k)) l) k = VRef (snd (Tree.descend h l k)).
Proof.
  unfold Tree.descend.
  destruct (lookup_prop (deref h l) k) eqn:E; cbn [fst snd];
    try (rewrite deref_insert_eq; apply lookup_assign_same).
  exact E.
Qed.

Lemma descend_preserves_ref (h : heap_t) (l a b : loc) (k k' : string) :
  lookup_prop (deref h a) k' = VRef b ->
  lookup_prop (deref (fst (Tree.descend h l k)) a) k' = VRef b.
Proof.
  intros H. unfold Tree.descend.
  assert (Ha : a <> fresh (dom h)).
  { intros ->. rewrite deref_fresh in H. discriminate. }
  destruct (lookup_prop (deref h l) k) eqn:E; cbn [fst]; try exact H;
    (destruct (decide (a = l)) as [->|Hal];
     [ rewrite deref_insert_eq, deref_insert_ne by congruence;
       destruct (String.eqb_spec k k') as [->|Hk];
       [ congruence | rewrite lookup_assign_ne by exact Hk; exact H ]
     | rewrite !deref_insert_ne by congruence; exact H ]).
Qed.

Lemma walk_preserves_ref (keys : list string) (h : heap_t) (l a b : loc) (k' : string) :
  lookup_prop (deref h a) k' = VRef b ->
  lookup_prop (deref (fst (walk h l keys)) a) k' = VRef b.
Proof.
  revert h l. induction keys as [|k keys IH]; intros h l H; [exact H|].
  cbn [walk]. apply IH. apply descend_preserves_ref. exact H.
Qed.

Lemma walk_chain (keys : list string) (h : heap_t) (l : loc) :
  chain (fst (walk h l keys)) l keys (snd (walk h l keys)).
Proof.
  revert h l. induction keys as [|k keys IH]; intros h l; [reflexivity|].
  cbn [walk chain]. exists (snd (Tree.descend h l k)). split.
  - apply walk_preserves_ref. apply descend_link.
  - apply IH.
Qed.

Lemma chain_write (keys : list string) (h : heap_t) (l t t' : loc) (last : string) (v : val) :
  chain h l keys t' ->
  forallb (fun slot => negb (bool_decide (slot = (t, last)))) (slots h l keys) = true ->
  chain (<[t := assign_prop (deref h t) last v]> h) l keys t'.
Proof.
  revert l. induction keys as [|k keys IH]; intros l Hc Hs; [exact Hc|].
  cbn [chain slots] in *. destruct Hc as (l' & Hl & Hc). rewrite Hl in Hs.
  cbn [forallb] in Hs. apply andb_prop in Hs as [Hne Hs].
  apply negb_true_iff, bool_decide_eq_false in Hne.
  exists l'. split; [|apply IH; assumption].
  destruct (decide (l = t)) as [->|Hlt].
  - rewrite deref_insert_eq. rewrite lookup_assign_ne; [exact Hl|].
    intros ->. apply Hne. reflexivity.
  - rewrite deref_insert_ne by congruence. exact Hl.
Qed.

Lemma chain_read (keys : list string) (h : heap_t) (l t : loc) :
  chain h l keys t -> fold_left (getState_step h) keys (VRef l) = VRef t.
Proof.
  revert l. induction keys as [|k keys IH]; intros l Hc; cbn in *.
  - congruence.
  - destruct Hc as (l' & Hl & Hc). unfold getState_step at 2. cbn [truthy read_prop andb].
    rewrite Hl. cbn [defined]. apply IH. exact Hc.
Qed.

Lemma chain_insert_fresh (keys : list string) (h : heap_t) (l t : loc) (o : obj) :
  chain h l keys t -> chain (<[fresh (dom h) := o]> h) l keys t.
Proof.
  revert l. induction keys as [|k keys IH]; intros l Hc; [exact Hc|].
  cbn [chain] in *. destruct Hc as (l' & Hl & Hc).
  exists l'. split; [|apply IH; exact Hc].
  rewrite deref_insert_ne; [exact Hl|].
  intros <-. rewrite deref_fresh in Hl. discriminate.
Qed.

Lemma split_dot_nonempty (p : string) : split_dot p <> [].
Proof.
  induction p as [|c p IH]; cbn; [discriminate|].
  destruct (Ascii.eqb c "."); [discriminate|].
  destruct (split_dot p); discriminate.
Qed.

Lemma getState_step_last (h : heap_t) (t : loc) (k : string) :
  getState_step h (VRef t) k = lookup_prop (deref h t) k.
Proof.
  unfold getState_step. cbn [truthy read_prop andb].
  destruct (lookup_prop (deref h t) k); reflexivity.
Qed.

(** The value at [path] once [path] has been written and the tree copied
    again is the value written. *)
Lemma read_after_write (h : heap_t) (root : loc) (path : string) (v : val) :
  unaliased h root path = true ->
  read_path (copy_root (setNestedValue h root path v) root) root path = v.
Proof.
  unfold unaliased, read_path, setNestedValue.
  set (keys := split_dot path).
  set (h' := fst (walk h root (removelast keys))).
  set (t := snd (walk h root (removelast keys))).
  intros Hun.
  assert (Hk : keys = removelast keys ++ [List.last keys ""])
    by (apply app_removelast_last, split_dot_nonempty).
  pose proof (walk_chain (removelast keys) h root) as Hc. fold h' t in Hc.
  apply (chain_write _ _ _ t _ (List.last keys "") v) in Hc; [|exact Hun].
  unfold copy_root.
  set (hw := <[t := assign_prop (deref h' t) (List.last keys "") v]> h') in *.
  apply (chain_insert_fresh _ _ _ _ (deref hw root)) in Hc.
  set (hc := <[fresh (dom hw) := deref hw root]> hw) in *.
  rewrite Hk, fold_left_app. cbn [fold_left].
  rewrite (chain_read _ _ _ _ Hc). rewrite getState_step_last.
  unfold hc. rewrite deref_insert_ne.
  - unfold hw. rewrite deref_insert_eq. apply lookup_assign_same.
  - intros Heq. apply (is_fresh (dom hw)).
    rewrite Heq. unfold hw. rewrite dom_insert_L. set_solver.
Qed.

Lemma read_after_commit (s : sys) (path : string) (v : val) :
  unaliased (copy_root (heap s) (state s)) (state s) path = true ->
  read_path (heap (commit s (Path path) v)) (state s) path = v.
Proof. intros H. apply read_after_write. exact H. Qed.

(** [setState(path, v)] then [getState(path)] gives [v]. *)
Lemma getState_after_setState (s : sys) (path : string) (v : val) :
  path <> "" ->
  unaliased (copy_root (heap s) (state s)) (state s) path = true ->
  result (setState (Path path) v true ;; getState path) s = Ok v.
Proof.
  intros Hp Hun. unfold result, setState.
  erewrite bind_run; [|apply setState_silent_run].
  rewrite NotifyFacts.getState_run. cbn [fst].
  rewrite NotifyFacts.current_value_nonempty by exact Hp.
  f_equal. exact (read_after_commit s path v Hun).
Qed.

End TreeFacts.

(** ** Computed values *)

Module ComputedClaims.
Import StateManager Tree StoreSpec StoreFacts NotifyFacts TreeFacts.















End ComputedClaims.

(** ** The history *)

Module HistoryClaims.
Import StateManager Tree StoreSpec StoreFacts Keeps NotifyFacts.

Lemma push_history_capped (max : nat) (e : HistoryEntry) (hist : list HistoryEntry) :
  (length hist <= max)%nat -> (length (push_history max e hist) <= max)%nat.
Proof.
  intros H. unfold push_history.
  destruct (Nat.ltb_spec max (length (hist ++ [e]))) as [Hlt|Hge]; [|exact Hge].
  rewrite length_tl, length_app. cbn. lia.
Qed.

(** Below the cap the new entry is appended. *)
Lemma push_history_append (max : nat) (e : HistoryEntry) (hist : list HistoryEntry) :
  (length hist < max)%nat -> push_history max e hist = hist ++ [e].
Proof.
  intros H. unfold push_history.
  destruct (Nat.ltb_spec max (length (hist ++ [e]))) as [Hlt|Hge]; [|reflexivity].
  rewrite length_app in Hlt. cbn in Hlt. lia.
Qed.

(** At the cap the oldest entry leaves and the new entry is appended. *)
Lemma push_history_evicts (max : nat) (e e0 : HistoryEntry) (hist : list HistoryEntry) :
  length (e0 :: hist) = max -> push_history max e (e0 :: hist) = hist ++ [e].
Proof.
  intros H. unfold push_history.
  destruct (Nat.ltb_spec max (length ((e0 :: hist) ++ [e]))) as [Hlt|Hge]; [reflexivity|].
  rewrite length_app in Hge. cbn in *. lia.
Qed.

#[export] Instance capped_preorder : PreOrder capped.
Proof.
  split.
  - intros s. split; [reflexivity | auto].
  - intros s1 s2 s3 [Hm1 H1] [Hm2 H2]. split; [congruence|].
    intros H. apply H2, H1, H.
Qed.

Lemma capped_same (s s' : sys) :
  history s' = history s -> maxHistoryLength s' = maxHistoryLength s -> capped s s'.
Proof. intros Hh Hm. split; [exact Hm|]. rewrite Hh, Hm. auto. Qed.

Lemma capped_commit (s : sys) (key : key_arg) (value : val) : capped s (commit s key value).
Proof.
  split; [reflexivity|]. cbn. apply push_history_capped.
Qed.

Lemma keeps_capped_getState (key : string) : keeps capped (getState key).
Proof.
  intros s. rewrite getState_run. cbn [snd]. unfold after_read.
  destruct (String.eqb key ""); [apply capped_same; reflexivity | reflexivity].
Qed.

Lemma keeps_capped_call_ext (st : site) (f : nat) (this : val) (args : list val) :
  keeps capped (call_ext st f this args).
Proof.
  intros s. unfold call_ext.
  destruct (behaviour s f this args (trace s)); apply capped_same; reflexivity.
Qed.

Lemma keeps_capped_updateComputed (f : nat) (deps : list string) (target : string) :
  keeps capped (updateComputed f deps target).
Proof.
  unfold updateComputed.
  apply keeps_bind; [typeclasses eauto | |intros inputs].
  - apply keeps_mapM; [typeclasses eauto|]. apply keeps_capped_getState.
  - apply keeps_bind; [typeclasses eauto | |intros r].
    + apply keeps_capped_call_ext.
    + intros s. rewrite setState_silent_run. apply capped_commit.
Qed.

Lemma keeps_capped_call_callee (st : site) (c : callee) (this : val) (args : list val) :
  keeps capped (call_callee st c this args).
Proof.
  destruct c as [f|f deps target]; cbn [call_callee].
  - apply keeps_capped_call_ext.
  - apply keeps_bind; [typeclasses eauto | |intros _].
    + apply keeps_modify. intros s. apply capped_same; reflexivity.
    + apply keeps_bind; [typeclasses eauto | |intros _; apply keeps_ret; typeclasses eauto].
      apply keeps_capped_updateComputed.
Qed.

Lemma keeps_capped_notify_one (key : string) (v : val) (sub : subscription) :
  keeps capped (notify_one key v sub).
Proof.
  rewrite notify_one_call.
  apply keeps_try_catch; [typeclasses eauto | |].
  - apply keeps_bind; [typeclasses eauto | |intros _].
    + apply keeps_capped_call_callee.
    + destruct (sub_once sub); [|apply keeps_ret; typeclasses eauto].
      unfold delete_subscription.
      apply keeps_bind; [typeclasses eauto | apply keeps_gets; typeclasses eauto |intros m].
      destruct (m !! key); [|apply keeps_throw; typeclasses eauto].
      apply keeps_modify. intros s. apply capped_same; reflexivity.
  - intros e. apply keeps_modify. intros s. apply capped_same; reflexivity.
Qed.

Lemma keeps_capped_notifySubscribers (key : string) : keeps capped (_notifySubscribers key).
Proof.
  unfold _notifySubscribers.
  apply keeps_bind; [typeclasses eauto | apply keeps_gets; typeclasses eauto |intros m].
  destruct (m !! key); [|apply keeps_ret; typeclasses eauto].
  apply keeps_bind; [typeclasses eauto | apply keeps_capped_getState |intros v].
  apply keeps_bind; [typeclasses eauto | |intros _].
  - apply keeps_forEach; [typeclasses eauto|]. apply keeps_capped_notify_one.
  - apply keeps_bind; [typeclasses eauto | apply keeps_gets; typeclasses eauto |intros m'].
    destruct (m' !! key) as [subs|]; [|apply keeps_throw; typeclasses eauto].
    destruct (length subs =? 0)%nat; [|apply keeps_ret; typeclasses eauto].
    apply keeps_modify. intros s. apply capped_same; reflexivity.
Qed.

Lemma keeps_capped_this_notify (key : string) : keeps capped (this_notifySubscribers key).
Proof.
  unfold this_notifySubscribers.
  apply keeps_bind; [typeclasses eauto | apply keeps_gets; typeclasses eauto |intros n].
  destruct n as [|c]; cbn [notify_via].
  - apply keeps_capped_notifySubscribers.
  - apply keeps_modify. intros s. apply capped_same; reflexivity.
Qed.

(** Whatever [setState] is called with, and whatever its subscribers do,
    the history stays within its cap. *)
Lemma history_stays_capped (s : sys) (key : key_arg) (value : val) (silent : bool) :
  (length (history s) <= maxHistoryLength s)%nat ->
  (length (history (exec (setState key value silent) s)) <= maxHistoryLength s)%nat.
Proof.
  intros H.
  assert (Hc : capped s (exec (setState key value silent) s)).
  { unfold exec, setState. rewrite setState_via_run.
    etransitivity; [apply (capped_commit s key value)|].
    destruct silent; cbn [negb]; [reflexivity|].
    destruct key as [k|o].
    - apply keeps_capped_this_notify.
    - apply keeps_forEach; [typeclasses eauto|]. apply keeps_capped_this_notify. }
  destruct Hc as [Hm Hc]. rewrite <- Hm. apply Hc, H.
Qed.

(** C2 (what the code does).  The two states of a history entry are
    shallow copies of the root of the tree: they share every nested object
    with the live tree.  After [setState("preferences.reducedMotion", true)]
    on a new store, where the value was [false], the entry's state from
    before the write reads [true] at that path, as its state from after the
    write does.  A write to a top-level key is recorded as it should be:
    after [setState("isLoading", true)] the entry's earlier state reads
    [false] and its later state [true]. *)
Theorem history_snapshot_shares_nested_objects
    (beh : nat -> val -> list val -> list event -> outcome) (clk : nat -> Z) :
  let s := new_system beh clk in
  let s' := exec (setState (Path "preferences.reducedMotion") (VBool true) false) s in
  let s'' := exec (setState (Path "isLoading") (VBool true) false) s in
  read_path (heap s) (state s) "preferences.reducedMotion" = VBool false /\
  (exists e,
     history s' = [e] /\
     read_path (heap s') (oldState e) "preferences.reducedMotion" = VBool true /\
     read_path (heap s') (newState e) "preferences.reducedMotion" = VBool true /\
     read_path (heap s') (oldState e) "preferences" =
       read_path (heap s') (state s') "preferences") /\
  read_path (heap s) (state s) "isLoading" = VBool false /\
  (exists e,
     history s'' = [e] /\
     read_path (heap s'') (oldState e) "isLoading" = VBool false /\
     read_path (heap s'') (newState e) "isLoading" = VBool true).
Proof.
  intros s s' s''. split; [vm_compute; reflexivity|].
  split; [eexists; split; [vm_compute; reflexivity|]; repeat split; vm_compute; reflexivity|].
  split; [vm_compute; reflexivity|].
  eexists. split; [vm_compute; reflexivity|]. split; vm_compute; reflexivity.
Qed.

End HistoryClaims.

(** ** The claims on sample systems *)

Module Witnesses.
Import StateManager Tree StoreSpec Batch.

Ltac by_decision :=
  match goal with
  | |- ?P => refine (@bool_decide_unpack P _ _); vm_compute; exact I
  end.

(** The listener of priority 10, registered second, is entered first and
    throws; the listener of priority 1 and the once listener still run. *)
Example emit_on_sample_bus :
  List.filter is_call
    (trace (exec (EventBus.emit "e" VNull VUndef) Demo.bus)) =
  [Call AtEmit (Ext 7) VUndef [VRef 7];
   Call AtEmit (Ext 2) VUndef [VRef 7];
   Call AtEmit (Ext 3) VUndef [VRef 7]] /\
  result (EventBus.emit "e" VNull VUndef) Demo.bus = Ok tt /\
  EventBus.getListenerCount "e" (exec (EventBus.emit "e" VNull VUndef) Demo.bus) = 2%nat.
Proof. vm_compute. repeat split. Qed.


Lemma exact_path_witness :
  (exists s' evs,
     setState (Path "preferences.reducedMotion") (VBool true) false Demo.store = (Ok tt, s') /\
     trace s' = trace Demo.store ++ evs /\
     (forall v sub, ~ In (notification "preferences" v sub) evs) /\
     subscribers s' !! "preferences" = subscribers Demo.store !! "preferences") /\
  (exists s' evs,
     setState (Path "preferences") (VRef 8) false Demo.store = (Ok tt, s') /\
     trace s' = trace Demo.store ++ evs /\
     (forall v sub, ~ In (notification "preferences.reducedMotion" v sub) evs)).
Proof.
  split.
  - destruct (StoreClaims.notification_is_by_exact_path
                Demo.store (Path "preferences.reducedMotion") (VBool true) false)
      as (s' & evs & E & Ht & _ & Hno & Hoth).
    + vm_compute. reflexivity.
    + vm_compute. reflexivity.
    + exists s', evs. split; [exact E|]. split; [exact Ht|].
      split.
      * intros v sub. apply Hno. by_decision.
      * apply Hoth. by_decision.
  - destruct (StoreClaims.notification_is_by_exact_path
                Demo.store (Path "preferences") (VRef 8) false)
      as (s' & evs & E & Ht & _ & Hno & _).
    + vm_compute. reflexivity.
    + vm_compute. reflexivity.
    + exists s', evs. split; [exact E|]. split; [exact Ht|].
      intros v sub. apply Hno. by_decision.
Defined.



Lemma faults_witness :
  EventBus.deliver "e" VNull (Handler (VFun 7) VNull 10 false) Demo.bus =
    (Ok tt,
     set_trace (trace Demo.bus ++
                [Call AtEmit (Ext 7) VUndef [VNull];
                 ConsoleError (BusSpec.error_msg "e") (Thrown (VStr "boom"))]) Demo.bus) /\
  notify_one "k" VNull Demo.once_sub (Demo.once_store Demo.beh) =
    (Ok tt,
     set_trace (trace (Demo.once_store Demo.beh) ++
                [Call AtNotify (Ext 7) VUndef [VNull; VStr "k"];
                 ConsoleError (error_msg "k") (Thrown (VStr "boom"))])
       (Demo.once_store Demo.beh)).
Proof.
  destruct (FaultClaims.faults_are_contained
              Demo.bus "e" VNull VUndef
              (Demo.once_store Demo.beh) "k"
              Demo.bus (Handler (VFun 7) VNull 10 false) VNull 7 (VStr "boom")
              (Demo.once_store Demo.beh) Demo.once_sub VNull 7 (VStr "boom"))
    as (H1 & _ & H3 & _).
  - vm_compute. reflexivity.
  - vm_compute. reflexivity.
  - vm_compute. reflexivity.
  - vm_compute. reflexivity.
  - split; [exact H1 | exact H3].
Defined.


Lemma once_does_not_validate_witness :
  (EventBus.on "e" (VNum 5) EventBus.no_options Demo.fresh_system =
     (Exn (Error "Event callback must be a function"), Demo.fresh_system) /\
   result (EventBus.emit "e" VNull VUndef)
     (exec (EventBus.once "e" (VNum 5) EventBus.no_options) Demo.fresh_system) = Ok tt /\
   exists evs,
     trace (exec (EventBus.emit "e" VNull VUndef)
              (exec (EventBus.once "e" (VNum 5) EventBus.no_options) Demo.fresh_system)) =
       trace Demo.fresh_system ++ evs /\
     In (ConsoleError (BusSpec.error_msg "e") (TypeError "callback is not a function")) evs) /\
  (exists evs,
     trace (exec (EventBus.emit "e" VNull VUndef)
              (exec (EventBus.once "e" (VRef 9) (EventBus.Options (VStr "ctx") 0))
                 Demo.with_callable)) =
       trace Demo.with_callable ++ evs /\
     In (Call AtEmit (Ext 5) (VRef 9)
           [VStr "ctx"; VRef (fresh (dom (heap Demo.with_callable)))]) evs).
Proof.
  split.
  - destruct (BusClaims.once_does_not_validate Demo.fresh_system "e" (VNum 5)
                EventBus.no_options VNull VUndef)
      as (H1 & _ & _ & H4 & _ & evs & Ht & Hfail & _).
    + vm_compute. reflexivity.
    + split; [exact H1|]. split; [exact H4|].
      exists evs. split; [exact Ht|]. apply Hfail. left. reflexivity.
  - destruct (BusClaims.once_does_not_validate Demo.with_callable "e" (VRef 9)
                (EventBus.Options (VStr "ctx") 0) VNull VUndef)
      as (_ & _ & _ & _ & _ & evs & Ht & _ & Hcall).
    + vm_compute. reflexivity.
    + exists evs. split; [exact Ht|].
      apply (Hcall 9%nat 5%nat); vm_compute; reflexivity.
Defined.


End Witnesses.

(** ** EventBus: registering and removing listeners *)

Module BusRegistry.
Import EventBus BusSpec Shape.

Lemma on_run (name : string) (f : nat) (opts : options) (s : sys) :
  on name (VFun f) opts s =
  (Ok (ThunkOff name (VFun f)),
   set_events
     (add_handler name
        (Handler (VFun f) (js_or (opt_context opts) VNull) (opt_priority opts) false)
        (events s)) s).
Proof. reflexivity. Qed.

Lemma remove_first_found (cb : val) (pre post : list handler) (x : handler) :
  Forall (fun y => h_callback y <> cb) pre ->
  h_callback x = cb ->
  remove_first cb (pre ++ x :: post) = pre ++ post.
Proof.
  intros Hpre Hx. induction Hpre as [|y pre Hy _ IH]; simpl.
  - rewrite bool_decide_eq_true_2 by exact Hx. reflexivity.
  - rewrite bool_decide_eq_false_2 by exact Hy. rewrite IH. reflexivity.
Qed.

Lemma bucket_remove_listener (m : gmap string (list handler)) (name : string) (cb : val) :
  bucket (remove_listener name cb m) name = remove_first cb (bucket m name).
Proof.
  unfold remove_listener, bucket.
  destruct (m !! name) as [hs|] eqn:Hm; cbn [default].
  - destruct (length (remove_first cb hs) =? 0)%nat eqn:Hlen.
    + rewrite lookup_delete_eq. cbn. apply Nat.eqb_eq in Hlen.
      symmetry. apply nil_length_inv. exact Hlen.
    + rewrite lookup_insert_eq. reflexivity.
  - rewrite Hm. reflexivity.
Qed.

Lemma lookup_remove_listener_ne (m : gmap string (list handler)) (name name' : string)
    (cb : val) :
  name' <> name -> remove_listener name cb m !! name' = m !! name'.
Proof.
  intros Hne. unfold remove_listener.
  destruct (m !! name) as [hs|]; [|reflexivity].
  destruct (length (remove_first cb hs) =? 0)%nat.
  - apply lookup_delete_ne. congruence.
  - apply lookup_insert_ne. congruence.
Qed.

Lemma lookup_add_handler_ne (m : gmap string (list handler)) (name name' : string)
    (h : handler) :
  name' <> name -> add_handler name h m !! name' = m !! name'.
Proof. intros Hne. unfold add_handler. apply lookup_insert_ne. congruence. Qed.

Lemma tidy_add_handler (m : gmap string (list handler)) (name : string) (h : handler) :
  tidy m -> tidy (add_handler name h m).
Proof.
  intros Hm name' l. unfold add_handler.
  destruct (decide (name' = name)) as [->|Hne].
  - rewrite lookup_insert_eq. intros [= <-]. destruct (bucket m name); discriminate.
  - rewrite lookup_insert_ne by congruence. apply Hm.
Qed.

Lemma tidy_remove_listener (m : gmap string (list handler)) (name : string) (cb : val) :
  tidy m -> tidy (remove_listener name cb m).
Proof.
  intros Hm name' l. unfold remove_listener.
  destruct (m !! name) as [hs|] eqn:Hn; [|apply Hm].
  destruct (length (remove_first cb hs) =? 0)%nat eqn:Hlen.
  - destruct (decide (name' = name)) as [->|Hne].
    + rewrite lookup_delete_eq. discriminate.
    + rewrite lookup_delete_ne by congruence. apply Hm.
  - destruct (decide (name' = name)) as [->|Hne].
    + rewrite lookup_insert_eq. intros [= <-] Hnil. rewrite Hnil in Hlen. discriminate.
    + rewrite lookup_insert_ne by congruence. apply Hm.
Qed.

Lemma tidy_delete {A} (m : gmap string (list A)) (name : string) :
  tidy m -> tidy (delete name m).
Proof.
  intros Hm name' l Hl. apply lookup_delete_Some in Hl as [_ Hl]. exact (Hm _ _ Hl).
Qed.

Lemma tidy_empty {A} : tidy (∅ : gmap string (list A)).
Proof. intros name l Hl. rewrite lookup_empty in Hl. discriminate. Qed.

(** In a tidy registry, removing what was just added gives the registry
    back. *)
Lemma remove_added (m : gmap string (list handler)) (name : string) (h : handler) :
  tidy m ->
  Forall (fun x => h_callback x <> h_callback h) (bucket m name) ->
  remove_listener name (h_callback h) (add_handler name h m) = m.
Proof.
  intros Hm Hreg. unfold remove_listener, add_handler.
  rewrite lookup_insert_eq.
  rewrite (remove_first_found _ _ [] h Hreg eq_refl). rewrite app_nil_r.
  unfold bucket in *. destruct (m !! name) as [hs|] eqn:Hn; cbn [default] in *.
  - destruct hs as [|x hs]; [exfalso; exact (Hm _ _ Hn eq_refl)|].
    cbn [length Nat.eqb]. rewrite insert_insert_eq. apply insert_id. exact Hn.
  - cbn. rewrite delete_insert_eq. apply delete_id. exact Hn.
Qed.

Lemma length_remove_first_found (cb : val) (hs : list handler) :
  Exists (fun x => h_callback x = cb) hs ->
  S (length (remove_first cb hs)) = length hs.
Proof.
  induction 1 as [x hs Hx|x hs _ IH]; simpl.
  - rewrite bool_decide_eq_true_2 by exact Hx. reflexivity.
  - case_bool_decide; [reflexivity|]. simpl. rewrite IH. reflexivity.
Qed.

(** X1.  [on] with a function registers it: it returns the thunk, puts the
    handler last in the bucket of the name and enters nothing.  Calling the
    thunk removes one handler of that callback from the bucket, the first
    one: the bucket is as before if the callback was not registered for the
    name, and otherwise the older registration goes and the new one
    stays.  Other names and the once registry are not touched, and a
    registry without empty buckets is given back as it was. *)
Theorem on_then_its_thunk (s : sys) (name : string) (f : nat) (opts : options) :
  let h := Handler (VFun f) (js_or (opt_context opts) VNull) (opt_priority opts) false in
  let s1 := exec (on name (VFun f) opts) s in
  let s2 := exec (t <- on name (VFun f) opts ;; call_thunk t) s in
  result (on name (VFun f) opts) s = Ok (ThunkOff name (VFun f)) /\
  bucket (events s1) name = bucket (events s) name ++ [h] /\
  getListenerCount name s1 = S (getListenerCount name s) /\
  trace s1 = trace s /\
  result (t <- on name (VFun f) opts ;; call_thunk t) s = Ok tt /\
  getListenerCount name s2 = getListenerCount name s /\
  (Forall (fun x => h_callback x <> VFun f) (bucket (events s) name) ->
   bucket (events s2) name = bucket (events s) name) /\
  (forall pre x post,
     bucket (events s) name = pre ++ x :: post ->
     Forall (fun y => h_callback y <> VFun f) pre ->
     h_callback x = VFun f ->
     bucket (events s2) name = pre ++ post ++ [h]) /\
  (forall name', name' <> name -> events s2 !! name' = events s !! name') /\
  (tidy (events s) ->
   Forall (fun x => h_callback x <> VFun f) (bucket (events s) name) ->
   events s2 = events s) /\
  onceEvents s2 = onceEvents s /\
  trace s2 = trace s.
Proof.
  intros h s1 s2.
  assert (E1 : s1 = set_events (add_handler name h (events s)) s) by reflexivity.
  assert (E2 : s2 = set_events (remove_listener name (VFun f) (add_handler name h (events s))) s)
    by reflexivity.
  assert (B2 : bucket (events s2) name = remove_first (VFun f) (bucket (events s) name ++ [h])).
  { rewrite E2. cbn [events set_events]. rewrite bucket_remove_listener.
    rewrite BusClaims.bucket_add_handler. reflexivity. }
  split; [reflexivity|].
  split; [rewrite E1; apply BusClaims.bucket_add_handler|].
  split.
  { unfold getListenerCount. rewrite E1. cbn [events onceEvents set_events].
    rewrite BusClaims.bucket_add_handler, length_app. simpl. lia. }
  split; [reflexivity|].
  split; [reflexivity|].
  split.
  { unfold getListenerCount. rewrite B2.
    assert (Hex : Exists (fun x => h_callback x = VFun f) (bucket (events s) name ++ [h])).
    { apply Exists_app. right. constructor. reflexivity. }
    apply length_remove_first_found in Hex. rewrite length_app in Hex. simpl in Hex.
    rewrite E2. cbn [onceEvents set_events]. lia. }
  split.
  { intros Hreg. rewrite B2.
    rewrite (remove_first_found _ _ [] h Hreg eq_refl). apply app_nil_r. }
  split.
  { intros pre x post Hb Hpre Hx. rewrite B2, Hb.
    rewrite <- app_assoc. cbn [app].
    rewrite (remove_first_found _ pre (post ++ [h]) x Hpre Hx). reflexivity. }
  split.
  { intros name' Hne. rewrite E2. cbn [events set_events].
    rewrite lookup_remove_listener_ne by exact Hne.
    apply lookup_add_handler_ne. exact Hne. }
  split.
  { intros Ht Hreg. rewrite E2. cbn [events set_events].
    exact (remove_added (events s) name h Ht Hreg). }
  split; reflexivity.
Qed.

Lemma delivery_events_enters beh hp tr name eventData h f :
  h_callback h = VFun f ->
  In (Call AtEmit (Ext f) (this_of h) [eventData])
     (delivery_events beh hp tr name eventData h).
Proof. intros Hcb. unfold delivery_events, entry. rewrite Hcb. left. reflexivity. Qed.

Lemma dispatch_events_enters beh hp tr name eventData h hs f :
  In h hs ->
  h_callback h = VFun f ->
  In (Call AtEmit (Ext f) (this_of h) [eventData])
     (dispatch_events beh hp tr name eventData hs).
Proof.
  intros Hin Hcb. revert tr.
  induction hs as [|x hs IH]; intros tr; [destruct Hin|].
  simpl. apply in_or_app. destruct Hin as [->|Hin].
  - left. apply delivery_events_enters. exact Hcb.
  - right. apply IH. exact Hin.
Qed.

(** X2.  [off] looks in the persistent registry only and [offOnce] in the
    once registry only.  A listener registered with [once] is therefore not
    removed by [off]: it is still entered by the next emission. *)
Theorem off_leaves_once_listeners (s : sys) (name : string) (f : nat) (opts : options)
    (data source : val) :
  let h := Handler (VFun f) (js_or (opt_context opts) VNull) (opt_priority opts) true in
  let s1 := exec (once name (VFun f) opts ;; off name (VFun f)) s in
  (forall name' cb u, onceEvents (exec (off name' cb) u) = onceEvents u) /\
  (forall name' cb u, events (exec (offOnce name' cb) u) = events u) /\
  bucket (onceEvents s1) name = bucket (onceEvents s) name ++ [h] /\
  exists evs,
    trace (exec (emit name data source) s1) = trace s ++ evs /\
    In (Call AtEmit (Ext f) (this_of h) [VRef (fresh (dom (heap s)))]) evs.
Proof.
  intros h s1.
  assert (E1 : s1 = set_events (remove_listener name (VFun f) (events s))
                      (set_onceEvents (add_handler name h (onceEvents s)) s))
    by reflexivity.
  split; [reflexivity|]. split; [reflexivity|].
  split; [rewrite E1; apply BusClaims.bucket_add_handler|].
  exists (emitted s1 name). split.
  - unfold exec. rewrite BusFacts.emit_run. rewrite E1. reflexivity.
  - unfold emitted. apply in_or_app. right.
    assert (Hh : heap s1 = heap s) by (rewrite E1; reflexivity). rewrite Hh.
    apply dispatch_events_enters; [|reflexivity].
    apply (Permutation_in _ (Permutation_sym (BusFacts.sort_by_priority_perm _))).
    rewrite E1. cbn [onceEvents set_events set_onceEvents].
    rewrite BusClaims.bucket_add_handler. apply in_or_app. right. left. reflexivity.
Qed.

Lemma emitted_nobody (s : sys) (name : string) :
  getListenerCount name s = 0%nat -> emitted s name = [].
Proof.
  unfold getListenerCount. intros H.
  assert (H1 : bucket (events s) name = []) by (apply nil_length_inv; lia).
  assert (H2 : bucket (onceEvents s) name = []) by (apply nil_length_inv; lia).
  unfold emitted. rewrite H1, H2. reflexivity.
Qed.

Lemma bucket_delete_empty (m : gmap string (list handler)) (name name' : string) :
  bucket m name = [] -> bucket (delete name m) name' = bucket m name'.
Proof.
  intros H. unfold bucket in *. destruct (decide (name' = name)) as [->|Hne].
  - rewrite lookup_delete_eq. rewrite H. reflexivity.
  - rewrite lookup_delete_ne by congruence. reflexivity.
Qed.

(** X3.  An emission under a name that has no listener completes, enters
    nobody and writes nothing to the console; the listeners of the other
    names stay as they are.  It still reads the clock and builds its
    envelope. *)
Theorem emit_without_listeners (s : sys) (name : string) (data source : val) :
  getListenerCount name s = 0%nat ->
  let s' := exec (emit name data source) s in
  result (emit name data source) s = Ok tt /\
  trace s' = trace s /\
  events s' = events s /\
  (forall name', bucket (onceEvents s') name' = bucket (onceEvents s) name') /\
  (forall name', getListenerCount name' s' = getListenerCount name' s) /\
  heap s' = <[fresh (dom (heap s)) := envelope name data (clock s (ticks s)) source]> (heap s) /\
  ticks s' = S (ticks s).
Proof.
  intros Hcount s'.
  assert (E : s' = snd (emit name data source s)) by reflexivity.
  rewrite BusFacts.emit_run in E. cbn [snd] in E.
  rewrite (emitted_nobody s name Hcount), app_nil_r in E.
  assert (Ho : bucket (onceEvents s) name = []).
  { unfold getListenerCount in Hcount. apply nil_length_inv. lia. }
  split; [unfold result; rewrite BusFacts.emit_run; reflexivity|].
  split; [rewrite E; reflexivity|].
  split; [rewrite E; reflexivity|].
  split.
  { intros name'. rewrite E. cbn [onceEvents set_onceEvents].
    apply bucket_delete_empty. exact Ho. }
  split.
  { intros name'. unfold getListenerCount. rewrite E.
    cbn [events onceEvents set_onceEvents set_trace set_heap set_ticks].
    rewrite bucket_delete_empty by exact Ho. reflexivity. }
  split; rewrite E; reflexivity.
Qed.

Lemma count_empty_registries (s : sys) (name : string) :
  events s = ∅ -> onceEvents s = ∅ -> getListenerCount name s = 0%nat.
Proof.
  intros H1 H2. unfold getListenerCount, bucket. rewrite H1, H2, !lookup_empty. reflexivity.
Qed.

Lemma emit_nobody_trace (s : sys) (name : string) (data source : val) :
  getListenerCount name s = 0%nat ->
  trace (exec (emit name data source) s) = trace s.
Proof.
  intros H. unfold exec. rewrite BusFacts.emit_run. cbn.
  rewrite (emitted_nobody s name H). apply app_nil_r.
Qed.

(** X4.  [removeAllListeners(name)] leaves no listener of either kind under
    the name and does not touch the other names; called without a name, or
    with the empty name, it empties both registries, the listeners of all
    names included.  An emission that follows enters nobody. *)
Theorem removeAllListeners_clears (s : sys) (name : string) (data source : val) :
  let s1 := exec (removeAllListeners (Some name)) s in
  let s0 := exec (removeAllListeners None) s in
  (name <> "" ->
   getListenerCount name s1 = 0%nat /\
   (forall name', name' <> name ->
      events s1 !! name' = events s !! name' /\
      onceEvents s1 !! name' = onceEvents s !! name') /\
   trace (exec (emit name data source) s1) = trace s) /\
  exec (removeAllListeners (Some "")) s = s0 /\
  events s0 = ∅ /\ onceEvents s0 = ∅ /\
  (forall name',
     getListenerCount name' s0 = 0%nat /\
     trace (exec (emit name' data source) s0) = trace s).
Proof.
  intros s1 s0. split; [|split; [reflexivity|split; [reflexivity|split; [reflexivity|]]]].
  - intros Hne.
    assert (E1 : s1 = set_onceEvents (delete name (onceEvents s))
                        (set_events (delete name (events s)) s)).
    { unfold s1, exec, removeAllListeners.
      destruct (String.eqb_spec name ""); [contradiction|]. reflexivity. }
    assert (Hc : getListenerCount name s1 = 0%nat).
    { rewrite E1. unfold getListenerCount, bucket. cbn [events onceEvents set_onceEvents set_events].
      rewrite !lookup_delete_eq. reflexivity. }
    split; [exact Hc|]. split.
    + intros name' Hn. rewrite E1. cbn [events onceEvents set_onceEvents set_events].
      rewrite !lookup_delete_ne by congruence. split; reflexivity.
    + rewrite emit_nobody_trace by exact Hc. rewrite E1. reflexivity.
  - intros name'.
    assert (Hc : getListenerCount name' s0 = 0%nat)
      by (apply count_empty_registries; reflexivity).
    split; [exact Hc|]. rewrite emit_nobody_trace by exact Hc. reflexivity.
Qed.

End BusRegistry.

(** ** EventBus: namespaces *)

Module NamespaceFacts.
Import EventBus BusSpec Shape.

Lemma append_cons (c : ascii) (a b : string) : String c a +:+ b = String c (a +:+ b).
Proof. reflexivity. Qed.

Lemma append_empty (b : string) : "" +:+ b = b.
Proof. reflexivity. Qed.

Lemma length_append (a b : string) :
  String.length (a +:+ b) = (String.length a + String.length b)%nat.
Proof.
  induction a as [|c a IH]; [reflexivity|].
  rewrite append_cons. cbn [String.length]. rewrite IH. reflexivity.
Qed.

Lemma prefixed_ne_bare (ns e : string) : prefixed ns e <> e.
Proof.
  intros H. apply (f_equal String.length) in H.
  unfold prefixed in H. rewrite !length_append in H. cbn [String.length] in H. lia.
Qed.

Lemma prefixed_separates (ns1 ns2 e1 e2 : string) :
  no_colon ns1 = true -> no_colon ns2 = true ->
  prefixed ns1 e1 = prefixed ns2 e2 -> ns1 = ns2 /\ e1 = e2.
Proof.
  unfold prefixed. revert ns2.
  induction ns1 as [|c ns1 IH]; intros [|c2 ns2] H1 H2 H.
  - rewrite !append_empty in H. injection H as H. split; [reflexivity | exact H].
  - rewrite append_empty, !append_cons in H. rewrite append_empty in H.
    injection H as Hc _. cbn [no_colon] in H2. subst c2.
    rewrite Ascii.eqb_refl in H2. discriminate.
  - rewrite append_empty, !append_cons in H. rewrite append_empty in H.
    injection H as Hc _. cbn [no_colon] in H1. subst c.
    rewrite Ascii.eqb_refl in H1. discriminate.
  - rewrite !append_cons in H. injection H as Hc H.
    cbn [no_colon] in H1, H2.
    apply andb_true_iff in H1 as [_ H1]. apply andb_true_iff in H2 as [_ H2].
    destruct (IH ns2 H1 H2 H) as [-> ->]. subst c2. split; reflexivity.
Qed.

Lemma append_assoc (a b c : string) : (a +:+ b) +:+ c = a +:+ (b +:+ c).
Proof.
  induction a as [|x a IH]; [reflexivity|].
  rewrite !append_cons, IH. reflexivity.
Qed.

Lemma emit_calls_of_registered (s : sys) (name : string) (f : nat) (h : handler) :
  h_callback h = VFun f ->
  Forall (fun x => target (heap s) x <> Some f) (bucket (events s) name) ->
  Forall (fun x => target (heap s) x <> Some f) (bucket (onceEvents s) name) ->
  let s1 := set_events (add_handler name h (events s)) s in
  List.filter (is_call_of f) (emitted s1 name) =
  [Call AtEmit (Ext f) (this_of h) [VRef (fresh (dom (heap s)))]].
Proof.
  intros Hcb Hreg Honce s1.
  unfold emitted. rewrite List.filter_app.
  cbn [events onceEvents set_events behaviour trace heap s1].
  rewrite (BusClaims.no_calls_of _ _ _ _ _ f (bucket (onceEvents s) name)) by exact Honce.
  rewrite app_nil_r.
  rewrite BusClaims.dispatch_events_calls_of.
  rewrite BusClaims.bucket_add_handler.
  apply Permutation_length_1_inv.
  eapply perm_trans;
    [|apply Permutation_flat_map, Permutation_sym, BusFacts.sort_by_priority_perm].
  unfold id. rewrite flat_map_app. rewrite BusClaims.flat_map_none.
  - simpl. rewrite bool_decide_eq_true_2 by (unfold target, entry; rewrite Hcb; reflexivity).
    rewrite app_nil_r. unfold delivery, entry. rewrite Hcb. apply Permutation_refl.
  - eapply Forall_impl; [exact Hreg|]. simpl. intros x Hx.
    case_bool_decide; [contradiction | reflexivity].
Qed.

(** Why the other listeners of the name must not enter [f]: an object
    that holds [f] as its member [call], registered once with a context under
    the same name, brings a second call of [f]. *)
Example listener_entered_through_another :
  List.filter (is_call_of 5)
    (trace (exec (once "nav:open" (VRef 9) (Options (VStr "ctx") 0) ;;
                  ns_on (namespace "nav") "open" (VFun 5) no_options ;;
                  ns_emit (namespace "nav") "open" VNull) Demo.with_callable)) =
  [Call AtEmit (Ext 5) VUndef [VRef 10];
   Call AtEmit (Ext 5) (VRef 9) [VStr "ctx"; VRef 10]].
Proof. vm_compute. reflexivity. Qed.

(** X5.  A listener registered through [namespace(ns).on(e, f)] sits under
    the name [ns:e], which is never the bare name [e]: the listeners of [e]
    are as before.  [namespace(ns).emit(e, d)] enters it once, with an
    envelope whose type is [ns:e], whose data is [d] and whose source is
    the namespace, or ['unknown'] when the namespace is the empty string.
    (No other listener of [ns:e] enters [f].) *)
Theorem namespace_routes_by_prefix (s : sys) (ns e : string) (f : nat)
    (opts : options) (d : val) :
  Forall (fun x => target (heap s) x <> Some f) (bucket (events s) (prefixed ns e)) ->
  Forall (fun x => target (heap s) x <> Some f) (bucket (onceEvents s) (prefixed ns e)) ->
  let bus := namespace ns in
  let h := Handler (VFun f) (js_or (opt_context opts) VNull) (opt_priority opts) false in
  let s1 := exec (ns_on bus e (VFun f) opts) s in
  let s2 := exec (ns_emit bus e d) s1 in
  let eventData := fresh (dom (heap s)) in
  prefixed ns e <> e /\
  events s1 !! e = events s !! e /\
  bucket (events s1) (prefixed ns e) = bucket (events s) (prefixed ns e) ++ [h] /\
  (exists evs,
     trace s2 = trace s ++ evs /\
     List.filter (is_call_of f) evs = [Call AtEmit (Ext f) (this_of h) [VRef eventData]]) /\
  lookup_prop (deref (heap s2) eventData) "type" = VStr (prefixed ns e) /\
  lookup_prop (deref (heap s2) eventData) "data" = match d with VUndef => VNull | _ => d end /\
  lookup_prop (deref (heap s2) eventData) "source" =
    VStr (if String.eqb ns "" then "unknown" else ns).
Proof.
  intros Hreg Honce bus h s1 s2 eventData.
  assert (E1 : s1 = set_events (add_handler (prefixed ns e) h (events s)) s) by reflexivity.
  assert (E2 : s2 = snd (emit (prefixed ns e) d (VStr ns) s1)) by reflexivity.
  rewrite BusFacts.emit_run in E2. cbn [snd] in E2.
  assert (Hd : deref (heap s2) eventData =
               envelope (prefixed ns e) d (clock s (ticks s)) (VStr ns)).
  { rewrite E2, E1. cbn [heap set_onceEvents set_trace set_heap set_ticks set_events clock ticks].
    apply StoreFacts.deref_insert_eq. }
  split; [apply prefixed_ne_bare|].
  split.
  { rewrite E1. cbn [events set_events]. apply BusRegistry.lookup_add_handler_ne.
    intros Heq. exact (prefixed_ne_bare ns e (eq_sym Heq)). }
  split; [rewrite E1; apply BusClaims.bucket_add_handler|].
  split.
  { exists (emitted s1 (prefixed ns e)). split; [rewrite E2; reflexivity|].
    rewrite E1. apply emit_calls_of_registered; [reflexivity | exact Hreg | exact Honce]. }
  rewrite Hd. split; [reflexivity|]. split; [reflexivity|].
  cbn. unfold js_or. cbn [truthy].
  destruct (String.eqb ns ""); reflexivity.
Qed.

Lemma emit_calls_of_unregistered (s : sys) (name : string) (f : nat) :
  Forall (fun x => target (heap s) x <> Some f) (bucket (events s) name) ->
  Forall (fun x => target (heap s) x <> Some f) (bucket (onceEvents s) name) ->
  List.filter (is_call_of f) (emitted s name) = [].
Proof.
  intros Hreg Honce. unfold emitted. rewrite List.filter_app.
  rewrite !BusClaims.no_calls_of by assumption. reflexivity.
Qed.

(** X6.  Two namespaces that hold no colon do not meet: their prefixed
    names differ whatever the events are, so a listener registered through
    one is not entered by an emission through the other.  (No listener of
    the emitted name enters [f].) *)
Theorem namespaces_without_colon_are_separate (s : sys) (ns1 ns2 e1 e2 : string)
    (f : nat) (opts : options) (d : val) :
  no_colon ns1 = true ->
  no_colon ns2 = true ->
  ns1 <> ns2 ->
  Forall (fun x => target (heap s) x <> Some f) (bucket (events s) (prefixed ns1 e1)) ->
  Forall (fun x => target (heap s) x <> Some f) (bucket (onceEvents s) (prefixed ns1 e1)) ->
  let s1 := exec (ns_on (namespace ns2) e2 (VFun f) opts) s in
  prefixed ns1 e1 <> prefixed ns2 e2 /\
  exists evs,
    trace (exec (ns_emit (namespace ns1) e1 d) s1) = trace s ++ evs /\
    List.filter (is_call_of f) evs = [].
Proof.
  intros H1 H2 Hne Hreg Honce s1.
  assert (Hp : prefixed ns1 e1 <> prefixed ns2 e2).
  { intros Heq. apply Hne. exact (proj1 (prefixed_separates _ _ _ _ H1 H2 Heq)). }
  split; [exact Hp|].
  exists (emitted s1 (prefixed ns1 e1)). split.
  - unfold exec. cbn [ns_emit namespace]. rewrite BusFacts.emit_run. reflexivity.
  - apply emit_calls_of_unregistered; [|exact Honce].
    unfold s1, exec. cbn [ns_on namespace]. rewrite BusRegistry.on_run. cbn [snd events set_events].
    unfold bucket. rewrite BusRegistry.lookup_add_handler_ne by exact Hp. exact Hreg.
Qed.

(** X7.  With a colon in a namespace the names can meet: the namespace
    [a:b] with the event [c] and the namespace [a] with the event [b:c] are
    the same name.  A listener registered through the first is entered by
    an emission through the second, and the envelope it receives names [a]
    as the source.  (No other listener of the name enters [f].) *)
Theorem namespaces_with_colon_overlap (s : sys) (a b c : string) (f : nat)
    (opts : options) (d : val) :
  Forall (fun x => target (heap s) x <> Some f)
         (bucket (events s) (prefixed a (prefixed b c))) ->
  Forall (fun x => target (heap s) x <> Some f)
         (bucket (onceEvents s) (prefixed a (prefixed b c))) ->
  let h := Handler (VFun f) (js_or (opt_context opts) VNull) (opt_priority opts) false in
  let s1 := exec (ns_on (namespace (prefixed a b)) c (VFun f) opts) s in
  let s2 := exec (ns_emit (namespace a) (prefixed b c) d) s1 in
  let eventData := fresh (dom (heap s)) in
  prefixed (prefixed a b) c = prefixed a (prefixed b c) /\
  (exists evs,
     trace s2 = trace s ++ evs /\
     List.filter (is_call_of f) evs = [Call AtEmit (Ext f) (this_of h) [VRef eventData]]) /\
  lookup_prop (deref (heap s2) eventData) "source" =
    VStr (if String.eqb a "" then "unknown" else a).
Proof.
  intros Hreg Honce h s1 s2 eventData.
  assert (Hp : prefixed (prefixed a b) c = prefixed a (prefixed b c)).
  { unfold prefixed. rewrite !append_assoc. reflexivity. }
  assert (E1 : s1 = set_events (add_handler (prefixed a (prefixed b c)) h (events s)) s).
  { unfold s1, exec. cbn [ns_on namespace]. rewrite BusRegistry.on_run, Hp. reflexivity. }
  assert (E2 : s2 = snd (emit (prefixed a (prefixed b c)) d (VStr a) s1)) by reflexivity.
  rewrite BusFacts.emit_run in E2. cbn [snd] in E2.
  split; [exact Hp|]. split.
  - exists (emitted s1 (prefixed a (prefixed b c))). split; [rewrite E2, E1; reflexivity|].
    rewrite E1. apply emit_calls_of_registered; [reflexivity | exact Hreg | exact Honce].
  - assert (Hd : deref (heap s2) eventData =
                 envelope (prefixed a (prefixed b c)) d (clock s (ticks s)) (VStr a)).
    { rewrite E2, E1.
      cbn [heap set_onceEvents set_trace set_heap set_ticks set_events clock ticks].
      apply StoreFacts.deref_insert_eq. }
    rewrite Hd. cbn. unfold js_or. cbn [truthy]. destruct (String.eqb a ""); reflexivity.
Qed.

End NamespaceFacts.

(** ** Paths *)

Module PathFacts.
Import StateManager Tree StoreSpec Paths.

Lemma split_dot_no_dot (k : string) : no_dot k = true -> split_dot k = [k].
Proof.
  induction k as [|c k IH]; [reflexivity|].
  cbn [no_dot split_dot]. intros H. apply andb_true_iff in H as [Hc Hk].
  apply negb_true_iff in Hc. rewrite Hc, (IH Hk). reflexivity.
Qed.

Lemma split_dot_append (a b : string) :
  split_dot (a +:+ "." +:+ b) = split_dot a ++ split_dot b.
Proof.
  induction a as [|c a IH].
  - reflexivity.
  - rewrite NamespaceFacts.append_cons. cbn [split_dot].
    destruct (Ascii.eqb c "."%char).
    + rewrite IH. reflexivity.
    + rewrite IH. destruct (split_dot a) as [|seg segs] eqn:Ha.
      * exfalso. exact (TreeFacts.split_dot_nonempty a Ha).
      * reflexivity.
Qed.

Lemma dotted_nonempty (a b : string) : String.eqb (a +:+ "." +:+ b) "" = false.
Proof. destruct a; reflexivity. Qed.

Lemma fold_getState_step_falsy (h : heap_t) (keys : list string) (a : val) :
  keys <> [] -> truthy a = false -> fold_left (getState_step h) keys a = VUndef.
Proof.
  revert a. induction keys as [|k keys IH]; intros a Hne Ha; [contradiction|].
  cbn [fold_left].
  assert (Hs : getState_step h a k = VUndef)
    by (unfold getState_step; rewrite Ha; reflexivity).
  rewrite Hs. destruct keys as [|k' keys]; [reflexivity|].
  apply IH; [discriminate | reflexivity].
Qed.

(** X8.  [getState] of a path that leads below a value that the state
    holds and that is falsy ([null], [false], [0] or the empty string) is
    [undefined]: the read completes and changes nothing. *)
Theorem getState_below_nothing (s : sys) (p q : string) :
  ordinary p = true ->
  defined (read_path (heap s) (state s) p) = true ->
  truthy (read_path (heap s) (state s) p) = false ->
  getState (p +:+ "." +:+ q) s = (Ok VUndef, s).
Proof.
  intros _ _ Hp. unfold getState. rewrite dotted_nonempty.
  unfold bind, gets, ret. f_equal. f_equal.
  unfold read_path in *. rewrite split_dot_append, fold_left_app.
  apply fold_getState_step_falsy; [apply TreeFacts.split_dot_nonempty | exact Hp].
Qed.

Lemma setNestedValue_top (h : heap_t) (root : loc) (k : string) (v : val) :
  no_dot k = true ->
  setNestedValue h root k v = <[root := assign_prop (deref h root) k v]> h.
Proof.
  intros Hk. unfold setNestedValue. rewrite (split_dot_no_dot k Hk). reflexivity.
Qed.

Lemma read_path_top (h : heap_t) (root : loc) (k : string) :
  no_dot k = true -> read_path h root k = lookup_prop (deref h root) k.
Proof.
  intros Hk. unfold read_path. rewrite (split_dot_no_dot k Hk). cbn [fold_left].
  apply TreeFacts.getState_step_last.
Qed.

Lemma unaliased_top (h : heap_t) (root : loc) (k : string) :
  no_dot k = true -> unaliased h root k = true.
Proof.
  intros Hk. unfold unaliased. rewrite (split_dot_no_dot k Hk). reflexivity.
Qed.

Lemma fresh_not_in (h : heap_t) (l : loc) : is_Some (h !! l) -> fresh (dom h) <> l.
Proof.
  intros Hl Heq. apply (is_fresh (dom h)). rewrite Heq. apply elem_of_dom. exact Hl.
Qed.

Lemma fresh_lookup (h : heap_t) : h !! fresh (dom h) = None.
Proof. apply not_elem_of_dom. apply is_fresh. Qed.

Lemma deref_copy_root_old (h : heap_t) (root l : loc) :
  is_Some (h !! l) -> deref (copy_root h root) l = deref h l.
Proof.
  intros Hl. unfold copy_root. apply StoreFacts.deref_insert_ne.
  apply fresh_not_in. exact Hl.
Qed.

Lemma copy_root_is_Some (h : heap_t) (root l : loc) :
  is_Some (h !! l) -> is_Some (copy_root h root !! l).
Proof.
  intros Hl. unfold copy_root. rewrite lookup_insert_ne by (apply fresh_not_in; exact Hl).
  exact Hl.
Qed.

(** The heap a top-level write leaves: only the root has changed among
    the objects that existed. *)
Lemma commit_top_deref (s : sys) (k : string) (v : val) (l : loc) :
  no_dot k = true ->
  is_Some (heap s !! l) ->
  deref (heap (commit s (Path k) v)) l =
  if decide (l = state s) then assign_prop (deref (heap s) (state s)) k v
  else deref (heap s) l.
Proof.
  intros Hk Hl. unfold commit. cbn [heap set_history set_ticks set_heap write].
  rewrite setNestedValue_top by exact Hk.
  rewrite deref_copy_root_old.
  2:{ destruct (decide (state s = l)) as [->|Hne].
      - rewrite lookup_insert_eq. eexists. reflexivity.
      - rewrite lookup_insert_ne by exact Hne. apply copy_root_is_Some. exact Hl. }
  destruct (decide (l = state s)) as [->|Hne].
  - rewrite StoreFacts.deref_insert_eq. rewrite deref_copy_root_old by exact Hl. reflexivity.
  - rewrite StoreFacts.deref_insert_ne by congruence. apply deref_copy_root_old. exact Hl.
Qed.


(** X10.  A write to a top-level key, other than the names the host keeps
    for itself, leaves the values of the other top-level keys as they are,
    and is read back by [getState]. *)
Theorem top_level_write_is_local (s : sys) (k k' : string) (v : val) :
  is_Some (heap s !! state s) ->
  no_dot k = true ->
  k <> "" ->
  host_name k = false ->
  no_dot k' = true ->
  k' <> "" ->
  k' <> k ->
  let s' := exec (setState (Path k) v true) s in
  result (getState k) s' = Ok v /\
  result (getState k') s' = result (getState k') s.
Proof.
  intros Hroot Hk Hk0 _ Hk' Hk0' Hne s'.
  assert (E : s' = commit s (Path k) v).
  { unfold s', exec, setState. rewrite StoreFacts.setState_silent_run. reflexivity. }
  unfold result. rewrite !NotifyFacts.getState_run. cbn [fst].
  rewrite !NotifyFacts.current_value_nonempty by assumption.
  enough (H : read_path (heap s') (state s') k = v /\
              read_path (heap s') (state s') k' = read_path (heap s) (state s) k')
    by (destruct H as [H1 H2]; rewrite H1, H2; split; reflexivity).
  rewrite E. change (state (commit s (Path k) v)) with (state s). split.
  - apply TreeFacts.read_after_commit. apply unaliased_top. exact Hk.
  - rewrite !read_path_top by exact Hk'.
    rewrite commit_top_deref by assumption.
    rewrite decide_True by reflexivity.
    apply StoreFacts.lookup_assign_ne. congruence.
Qed.

Lemma descend_replaces (h : heap_t) (l : loc) (k : string) :
  (forall l', lookup_prop (deref h l) k <> VRef l') ->
  Tree.descend h l k =
  (<[l := assign_prop (deref (<[fresh (dom h) := []]> h) l) k (VRef (fresh (dom h)))]>
     (<[fresh (dom h) := []]> h), fresh (dom h)).
Proof.
  intros Hv. unfold Tree.descend.
  destruct (lookup_prop (deref h l) k) eqn:E; try reflexivity.
  exfalso. exact (Hv _ eq_refl).
Qed.

(** X11.  [_setNestedValue] does not write below a value that is not an
    object: it puts a new object in its place first.  After
    [setState('k.p', v)] with such a value at [k], the state has at [k] a
    new object whose one property is [p], and the value that was there is
    gone.  (Neither [k] nor [p] is a name the host keeps for itself.) *)
Theorem write_below_a_non_object_replaces_it (s : sys) (k p : string) (v : val) :
  is_Some (heap s !! state s) ->
  no_dot k = true ->
  no_dot p = true ->
  k <> "" ->
  host_name k = false ->
  host_name p = false ->
  (forall l, read_path (heap s) (state s) k <> VRef l) ->
  let s' := exec (setState (Path (k +:+ "." +:+ p)) v true) s in
  exists n,
    heap s !! n = None /\
    result (getState k) s' = Ok (VRef n) /\
    deref (heap s') n = [(p, v)] /\
    result (getState (k +:+ "." +:+ p)) s' = Ok v.
Proof.
  intros Hroot Hk Hp Hk0 _ _ Hv s'.
  unfold result. rewrite !NotifyFacts.getState_run. cbn [fst].
  rewrite (NotifyFacts.current_value_nonempty s' k) by exact Hk0.
  rewrite (NotifyFacts.current_value_nonempty s' (k +:+ "." +:+ p))
    by (intros H0; pose proof (dotted_nonempty k p) as Hd; rewrite H0 in Hd; discriminate).
  enough (H : exists n, heap s !! n = None /\
                        read_path (heap s') (state s') k = VRef n /\
                        deref (heap s') n = [(p, v)] /\
                        read_path (heap s') (state s') (k +:+ "." +:+ p) = v).
  { destruct H as (n & H1 & H2 & H3 & H4). exists n. rewrite H2, H4. repeat split; assumption. }
  assert (E : s' = commit s (Path (k +:+ "." +:+ p)) v).
  { unfold s', exec, setState. rewrite StoreFacts.setState_silent_run. reflexivity. }
  rewrite read_path_top in Hv by exact Hk.
  set (h1 := copy_root (heap s) (state s)).
  set (n := fresh (dom h1)).
  assert (Hr1 : is_Some (h1 !! state s)) by (apply copy_root_is_Some; exact Hroot).
  assert (Hd1 : deref h1 (state s) = deref (heap s) (state s))
    by (apply deref_copy_root_old; exact Hroot).
  assert (Hn : n <> state s) by (apply fresh_not_in; exact Hr1).
  assert (Hsplit : split_dot (k +:+ "." +:+ p) = [k; p]).
  { rewrite split_dot_append, (split_dot_no_dot k Hk), (split_dot_no_dot p Hp). reflexivity. }
  assert (Hw : setNestedValue h1 (state s) (k +:+ "." +:+ p) v =
               <[n := [(p, v)]]>
                 (<[state s := assign_prop (deref (heap s) (state s)) k (VRef n)]>
                    (<[n := []]> h1))).
  { unfold setNestedValue. rewrite Hsplit. cbn [removelast List.last walk].
    rewrite descend_replaces by (rewrite Hd1; exact Hv). cbn [fst snd]. fold n.
    rewrite (StoreFacts.deref_insert_ne _ (state s) n) by congruence.
    rewrite StoreFacts.deref_insert_eq.
    rewrite (StoreFacts.deref_insert_ne _ n (state s)) by exact Hn. rewrite Hd1.
    reflexivity. }
  assert (Hh : heap s' = copy_root (setNestedValue h1 (state s) (k +:+ "." +:+ p) v) (state s))
    by (rewrite E; reflexivity).
  assert (Hnsome : is_Some (setNestedValue h1 (state s) (k +:+ "." +:+ p) v !! n)).
  { rewrite Hw, lookup_insert_eq. eexists. reflexivity. }
  assert (Hrsome : is_Some (setNestedValue h1 (state s) (k +:+ "." +:+ p) v !! state s)).
  { rewrite Hw, lookup_insert_ne by exact Hn. rewrite lookup_insert_eq. eexists. reflexivity. }
  assert (Hdn : deref (heap s') n = [(p, v)]).
  { rewrite Hh, deref_copy_root_old by exact Hnsome. rewrite Hw.
    apply StoreFacts.deref_insert_eq. }
  assert (Hdk : read_path (heap s') (state s') k = VRef n).
  { rewrite E. change (state (commit s (Path (k +:+ "." +:+ p)) v)) with (state s).
    rewrite <- E. rewrite read_path_top by exact Hk.
    rewrite Hh, deref_copy_root_old by exact Hrsome. rewrite Hw.
    rewrite StoreFacts.deref_insert_ne by exact Hn.
    rewrite StoreFacts.deref_insert_eq. apply StoreFacts.lookup_assign_same. }
  exists n. split; [|split; [exact Hdk|split; [exact Hdn|]]].
  - destruct (heap s !! n) eqn:Hsn; [|reflexivity]. exfalso.
    apply (is_fresh (dom h1)). fold n. apply elem_of_dom.
    apply copy_root_is_Some. rewrite Hsn. eexists. reflexivity.
  - unfold read_path in *. rewrite Hsplit. cbn [fold_left].
    rewrite (split_dot_no_dot k Hk) in Hdk. cbn [fold_left] in Hdk. rewrite Hdk.
    rewrite TreeFacts.getState_step_last, Hdn. cbn [lookup_prop].
    rewrite String.eqb_refl. reflexivity.
Qed.

End PathFacts.

(** ** Configuration *)

Module ConfigFacts.
Import StateManager Tree Paths Config.

Lemma fold_getState_step_undef (h : heap_t) (keys : list string) :
  fold_left (getState_step h) keys VUndef = VUndef.
Proof. induction keys as [|k keys IH]; [reflexivity | exact IH]. Qed.

Lemma fold_getConfig_step_falsy (h : heap_t) (d : val) (keys : list string) :
  truthy d = false -> fold_left (getConfig_step h d) keys d = d.
Proof.
  intros Hd. induction keys as [|k keys IH]; [reflexivity|].
  cbn [fold_left]. unfold getConfig_step at 2. rewrite Hd. exact IH.
Qed.

Lemma step_cases (h : heap_t) (d a : val) (k : string) :
  (defined (getState_step h a k) = true /\ getConfig_step h d a k = getState_step h a k) \/
  (getState_step h a k = VUndef /\ getConfig_step h d a k = d).
Proof.
  unfold getState_step, getConfig_step.
  destruct (truthy a && defined (read_prop h a k)) eqn:E.
  - left. apply andb_true_iff in E as [_ E]. split; [exact E | reflexivity].
  - right. split; reflexivity.
Qed.

(** A path that resolves is read by [getConfig] as by [getState]. *)
Lemma getConfig_hit (h : heap_t) (d : val) (keys : list string) (a : val) :
  defined (fold_left (getState_step h) keys a) = true ->
  fold_left (getConfig_step h d) keys a = fold_left (getState_step h) keys a.
Proof.
  revert a. induction keys as [|k keys IH]; intros a Hdef; [reflexivity|].
  cbn [fold_left] in *.
  destruct (step_cases h d a k) as [[_ E]|[E _]].
  - rewrite E. apply IH. exact Hdef.
  - rewrite E, fold_getState_step_undef in Hdef. discriminate.
Qed.

Lemma fold_getConfig_step_below_falsy (h : heap_t) (d a : val) (keys : list string) :
  keys <> [] -> truthy a = false -> truthy d = false ->
  fold_left (getConfig_step h d) keys a = d.
Proof.
  intros Hne Ha Hd. destruct keys as [|k keys]; [contradiction|].
  cbn [fold_left]. unfold getConfig_step at 2. rewrite Ha. cbn [andb].
  apply fold_getConfig_step_falsy. exact Hd.
Qed.

(** X12.  [getConfig] returns the value at the path when the
    configuration holds one there, whatever the default is, falsy values
    included.  When the path leads below a value that the configuration
    holds and that is falsy, it returns the default, if the default is
    falsy (as the default [undefined] is).  It reads only.  (No segment of
    the path is a name the host keeps for itself.) *)
Theorem getConfig_value_or_default (s : sys) (AppConfig : loc) (path : string) (d : val) :
  ordinary path = true ->
  let found := read_path (heap s) AppConfig path in
  exec (getConfig AppConfig path d) s = s /\
  (defined found = true -> result (getConfig AppConfig path d) s = Ok found) /\
  (forall p q,
     path = p +:+ "." +:+ q ->
     defined (read_path (heap s) AppConfig p) = true ->
     truthy (read_path (heap s) AppConfig p) = false ->
     truthy d = false ->
     result (getConfig AppConfig path d) s = Ok d).
Proof.
  intros _ found. split; [reflexivity|]. unfold result, getConfig, bind, gets, ret. cbn [fst].
  split.
  - intros Hf. f_equal. apply getConfig_hit. exact Hf.
  - intros p q -> Hdef Hfalsy Hd. f_equal.
    rewrite PathFacts.split_dot_append, fold_left_app.
    rewrite (getConfig_hit (heap s) d (split_dot p) (VRef AppConfig)) by exact Hdef.
    apply fold_getConfig_step_below_falsy;
      [apply TreeFacts.split_dot_nonempty | exact Hfalsy | exact Hd].
Qed.







Lemma reduceM_app {A B} (f : B -> A -> M B) (xs ys : list A) (a b : B) (s s' : sys) :
  reduceM f xs a s = (Ok b, s') ->
  reduceM f (xs ++ ys) a s = reduceM f ys b s'.
Proof.
  revert a s. induction xs as [|x xs IH]; intros a s H; cbn [reduceM app] in *.
  - unfold ret in H. congruence.
  - unfold bind in *. destruct (f a x s) as [[c|e] s1]; [|discriminate].
    apply IH. exact H.
Qed.

(** Along objects that exist [setConfig] descends without writing. *)
Lemma config_walk_objects (keys : list string) (l t : loc) (s : sys) :
  chain (heap s) l keys t ->
  reduceM Config.descend keys (VRef l) s = (Ok (VRef t), s).
Proof.
  revert l. induction keys as [|k keys IH]; intros l Hc; cbn [chain reduceM] in *.
  - subst t. reflexivity.
  - destruct Hc as (l' & Hl & Hc).
    assert (Hd : Config.descend (VRef l) k s = (Ok (VRef l'), s)).
    { unfold Config.descend, bind, gets, read_prop. rewrite Hl.
      cbn [truthy negb]. unfold ret. rewrite Hl. reflexivity. }
    erewrite bind_run; [|exact Hd]. apply IH. exact Hc.
Qed.

(** X15.  [setConfig] does not replace a truthy primitive (a number that
    is not zero, a string that is not empty, [true]), as [_setNestedValue]
    does: a path that assigns a property of one, reached through objects of
    the configuration, throws the [TypeError] of an assignment to a
    primitive, and nothing is changed.  (No segment of the path is a name
    the host keeps for itself.) *)
Theorem setConfig_stops_at_a_primitive (s : sys) (AppConfig : loc) (path : string)
    (pre : list string) (t : loc) (k q : string) (v : val) :
  ordinary path = true ->
  split_dot path = pre ++ [k; q] ->
  chain (heap s) AppConfig pre t ->
  stops (lookup_prop (deref (heap s) t) k) = true ->
  setConfig AppConfig path v s = (Exn (TypeError "Cannot create property"), s).
Proof.
  intros _ Hsplit Hc Hb.
  set (p := lookup_prop (deref (heap s) t) k) in *.
  assert (Ht : truthy p = true) by (destruct p; try exact Hb; discriminate).
  assert (Hd : Config.descend (VRef t) k s = (Ok p, s)).
  { unfold Config.descend, bind, gets, read_prop. fold p. rewrite Ht. reflexivity. }
  unfold setConfig. rewrite Hsplit.
  change (pre ++ [k; q]) with (pre ++ [k] ++ [q]). rewrite app_assoc.
  rewrite removelast_last, last_last.
  unfold bind at 1.
  rewrite (reduceM_app _ pre [k] _ _ _ _ (config_walk_objects pre AppConfig t s Hc)).
  cbn [reduceM]. unfold bind at 1. rewrite Hd. unfold ret, assign.
  destruct p; try reflexivity; discriminate.
Qed.

End ConfigFacts.

(** ** StateManager: subscribing and unsubscribing *)

Module SubscribeFacts.
Import StateManager Tree StoreSpec SubscribeSpec.

Lemma subscribe_run (key : string) (f : nat) (opts : options) (s : sys) :
  let sub := new_subscription s (Ext f) opts in
  subscribe key (VFun f) opts s =
  (Ok (ThunkUnsubscribe key (Ext f)),
   if sub_immediate sub
   then set_trace (trace s ++ immediate_call s key f sub)
          (after_read (registered key sub s) key)
   else registered key sub s).
Proof.
  intros sub. unfold subscribe, subscribe_callee.
  unfold bind at 1. unfold gets at 1.
  fold (new_subscription s (Ext f) opts). fold sub.
  unfold bind at 1. unfold modify at 1.
  fold (registered key sub s).
  destruct (sub_immediate sub); [|reflexivity].
  unfold bind at 1. unfold try_catch.
  erewrite bind_run; [|apply NotifyFacts.getState_run].
  assert (Hcv : current_value (registered key sub s) key = current_value s key) by reflexivity.
  rewrite Hcv.
  assert (Hc : (if truthy (sub_context sub)
                then call_callee AtSubscribe (Ext f) (sub_context sub)
                       [current_value s key; VStr key]
                else call_callee AtSubscribe (Ext f) VUndef
                       [current_value s key; VStr key]) =
               call_ext AtSubscribe f (this_of sub) [current_value s key; VStr key]).
  { unfold this_of. destruct (truthy (sub_context sub)); reflexivity. }
  rewrite Hc. unfold bind, call_ext, immediate_call.
  rewrite NotifyFacts.trace_after_read.
  assert (Hb : behaviour (after_read (registered key sub s) key) = behaviour s).
  { unfold after_read. destruct (String.eqb key ""); reflexivity. }
  rewrite Hb. cbn [trace registered set_next_sub set_subscribers].
  destruct (behaviour s f (this_of sub) [current_value s key; VStr key] (trace s)) as [r|x].
  - reflexivity.
  - unfold console_error, emit_event, modify, ret. cbn [trace set_trace].
    rewrite <- app_assoc. destruct (after_read (registered key sub s) key); reflexivity.
Qed.

Lemma subscribers_subscribed (key : string) (f : nat) (opts : options) (s : sys) :
  subscribers (exec (subscribe key (VFun f) opts) s) =
  add_subscription key (new_subscription s (Ext f) opts) (subscribers s).
Proof.
  unfold exec. rewrite subscribe_run. cbn [snd].
  destruct (sub_immediate _); [|reflexivity].
  cbn [subscribers set_trace]. rewrite NotifyFacts.subscribers_after_read. reflexivity.
Qed.

Lemma bucket_add_subscription_eq (m : gmap string (list subscription)) (key : string)
    (sub : subscription) :
  bucket (add_subscription key sub m) key = bucket m key ++ [sub].
Proof. unfold bucket, add_subscription. rewrite lookup_insert_eq. reflexivity. Qed.

Lemma lookup_add_subscription_ne (m : gmap string (list subscription)) (key k' : string)
    (sub : subscription) :
  k' <> key -> add_subscription key sub m !! k' = m !! k'.
Proof. intros Hne. unfold add_subscription. apply lookup_insert_ne. congruence. Qed.

(** X16.  [subscribe] with a function always returns the thunk and puts the
    subscription last in the bucket of the key.  Unless the option
    [immediate] is [false] it enters the function once, at once, with the
    current value and the key; if the function throws, the error is written
    to the console and the subscription stays.  With another value than a
    function it throws and registers nothing. *)
Theorem subscribe_calls_at_once (s : sys) (key : string) (f : nat) (opts : options) :
  let sub := new_subscription s (Ext f) opts in
  let s' := exec (subscribe key (VFun f) opts) s in
  result (subscribe key (VFun f) opts) s = Ok (ThunkUnsubscribe key (Ext f)) /\
  bucket (subscribers s') key = bucket (subscribers s) key ++ [sub] /\
  (forall k', k' <> key -> subscribers s' !! k' = subscribers s !! k') /\
  sub_immediate sub = negb (bool_decide (opt_immediate opts = VBool false)) /\
  trace s' = trace s ++ (if sub_immediate sub then immediate_call s key f sub else []) /\
  List.filter (is_call_of f) (immediate_call s key f sub) =
    [Call AtSubscribe (Ext f) (this_of sub) [current_value s key; VStr key]] /\
  (forall cb, typeof_function cb = false ->
     subscribe key cb opts s = (Exn (Error "Callback must be a function"), s)).
Proof.
  intros sub s'.
  assert (Hs : subscribers s' = add_subscription key sub (subscribers s))
    by apply subscribers_subscribed.
  split; [unfold result; rewrite subscribe_run; reflexivity|].
  split; [rewrite Hs; apply bucket_add_subscription_eq|].
  split; [intros k' Hk'; rewrite Hs; apply lookup_add_subscription_ne; exact Hk'|].
  split; [reflexivity|].
  split.
  { unfold s', exec. rewrite subscribe_run. cbn [snd]. fold sub.
    destruct (sub_immediate sub); [reflexivity|]. cbn. rewrite app_nil_r. reflexivity. }
  split.
  { unfold immediate_call. cbn [List.filter is_call_of]. rewrite Nat.eqb_refl.
    destruct (behaviour s f _ _ _); reflexivity. }
  intros cb Hcb. destruct cb; try reflexivity. discriminate.
Qed.

Lemma remove_first_sub_found (c : callee) (pre post : list subscription) (x : subscription) :
  Forall (fun y => sub_callback y <> c) pre ->
  sub_callback x = c ->
  remove_first c (pre ++ x :: post) = pre ++ post.
Proof.
  intros Hpre Hx. induction Hpre as [|y pre Hy _ IH]; simpl.
  - rewrite bool_decide_eq_true_2 by exact Hx. reflexivity.
  - rewrite bool_decide_eq_false_2 by exact Hy. rewrite IH. reflexivity.
Qed.

Lemma bucket_unsubscribe (key : string) (c : callee) (s : sys) :
  bucket (subscribers (exec (unsubscribe key c) s)) key =
  remove_first c (bucket (subscribers s) key).
Proof.
  unfold exec, unsubscribe, modify, bucket. cbn [snd].
  destruct (subscribers s !! key) as [subs|] eqn:Hk; cbn [default].
  - destruct (length (remove_first c subs) =? 0)%nat eqn:Hlen; cbn [subscribers set_subscribers].
    + rewrite lookup_delete_eq. cbn. apply Nat.eqb_eq in Hlen.
      symmetry. apply nil_length_inv. exact Hlen.
    + rewrite lookup_insert_eq. reflexivity.
  - rewrite Hk. reflexivity.
Qed.

Lemma lookup_unsubscribe_ne (key k' : string) (c : callee) (s : sys) :
  k' <> key -> subscribers (exec (unsubscribe key c) s) !! k' = subscribers s !! k'.
Proof.
  intros Hne. unfold exec, unsubscribe, modify. cbn [snd].
  destruct (subscribers s !! key) as [subs|]; [|reflexivity].
  destruct (length (remove_first c subs) =? 0)%nat; cbn [subscribers set_subscribers].
  - apply lookup_delete_ne. congruence.
  - apply lookup_insert_ne. congruence.
Qed.

Lemma unsubscribe_frame (key : string) (c : callee) (s : sys) :
  rest (exec (unsubscribe key c) s) = rest s /\
  heap (exec (unsubscribe key c) s) = heap s /\
  trace (exec (unsubscribe key c) s) = trace s /\
  history (exec (unsubscribe key c) s) = history s.
Proof.
  unfold exec, unsubscribe, modify. cbn [snd].
  destruct (subscribers s !! key) as [subs|]; [|repeat split].
  destruct (length (remove_first c subs) =? 0)%nat; repeat split.
Qed.

(** X17.  The thunk [subscribe] returns removes one subscription of that
    function from the bucket of the key, the first one: the bucket is as
    before if the function was not subscribed to the key, and otherwise the
    older subscription goes and the new one stays.  Other keys are not
    touched. *)
Theorem subscribe_then_its_thunk (s : sys) (key : string) (f : nat) (opts : options) :
  let sub := new_subscription s (Ext f) opts in
  let s2 := exec (t <- subscribe key (VFun f) opts ;; call_thunk t) s in
  result (t <- subscribe key (VFun f) opts ;; call_thunk t) s = Ok tt /\
  (Forall (fun x => sub_callback x <> Ext f) (bucket (subscribers s) key) ->
   bucket (subscribers s2) key = bucket (subscribers s) key) /\
  (forall pre x post,
     bucket (subscribers s) key = pre ++ x :: post ->
     Forall (fun y => sub_callback y <> Ext f) pre ->
     sub_callback x = Ext f ->
     bucket (subscribers s2) key = pre ++ post ++ [sub]) /\
  (forall k', k' <> key -> subscribers s2 !! k' = subscribers s !! k').
Proof.
  intros sub s2.
  assert (E2 : s2 = exec (unsubscribe key (Ext f)) (exec (subscribe key (VFun f) opts) s)).
  { unfold s2, exec. erewrite bind_run; [|apply subscribe_run].
    rewrite subscribe_run. reflexivity. }
  assert (B2 : bucket (subscribers s2) key =
               remove_first (Ext f) (bucket (subscribers s) key ++ [sub])).
  { rewrite E2, bucket_unsubscribe, subscribers_subscribed, bucket_add_subscription_eq.
    reflexivity. }
  split.
  { unfold result. erewrite bind_run; [|apply subscribe_run]. reflexivity. }
  split.
  { intros Hreg. rewrite B2.
    rewrite (remove_first_sub_found _ _ [] sub Hreg eq_refl). apply app_nil_r. }
  split.
  { intros pre x post Hb Hpre Hx. rewrite B2, Hb.
    rewrite <- app_assoc. cbn [app].
    rewrite (remove_first_sub_found _ pre (post ++ [sub]) x Hpre Hx). reflexivity. }
  intros k' Hne. rewrite E2, lookup_unsubscribe_ne by exact Hne.
  rewrite subscribers_subscribed. apply lookup_add_subscription_ne. exact Hne.
Qed.

Lemma setState_path_run (k : string) (v : val) (s : sys) :
  setState (Path k) v false s = this_notifySubscribers k (commit s (Path k) v).
Proof. unfold setState. rewrite StoreFacts.setState_via_run. reflexivity. Qed.

(** X18.  Once a function has been unsubscribed from a key, a write to the
    key no longer enters it; the subscribers that remain are entered as
    before, in their order. *)
Theorem unsubscribed_is_not_notified (s : sys) (key : string) (f : nat) (v : val)
    (pre post : list subscription) (x : subscription) :
  _notifySubscribers_slot s = Original ->
  bucket (subscribers s) key = pre ++ x :: post ->
  sub_callback x = Ext f ->
  Forall (fun y => sub_callback y <> Ext f) pre ->
  Forall (fun y => sub_callback y <> Ext f) post ->
  let s1 := exec (unsubscribe key (Ext f)) s in
  bucket (subscribers s1) key = pre ++ post /\
  exists s2 evs,
    setState (Path key) v false s1 = (Ok tt, s2) /\
    trace s2 = trace s ++ evs /\
    List.filter (is_call_at AtNotify) evs =
      map (notification key (current_value (commit s1 (Path key) v) key)) (pre ++ post) /\
    forall this args, ~ In (Call AtNotify (Ext f) this args) evs.
Proof.
  intros Hslot Hb Hx Hpre Hpost s1.
  destruct (unsubscribe_frame key (Ext f) s) as (Hr & _ & Ht & _). fold s1 in Hr, Ht.
  assert (B1 : bucket (subscribers s1) key = pre ++ post).
  { unfold s1. rewrite bucket_unsubscribe, Hb.
    apply remove_first_sub_found; assumption. }
  split; [exact B1|].
  set (c := commit s1 (Path key) v).
  destruct (NotifyFacts.notifySubscribers_spec key c)
    as (s2 & E & _ & _ & _ & (evs & Hte & Hf) & _).
  assert (Hsc : _notifySubscribers_slot c = Original).
  { change (_notifySubscribers_slot c) with (_notifySubscribers_slot s1).
    rewrite (NotifyFacts.rest_slot _ _ Hr). exact Hslot. }
  exists s2, evs.
  change (bucket (subscribers c) key) with (bucket (subscribers s1) key) in Hf.
  rewrite B1 in Hf.
  split.
  { rewrite setState_path_run. fold c.
    rewrite NotifyFacts.this_notify_original by exact Hsc. exact E. }
  split; [rewrite Hte; unfold c; cbn [trace commit set_history set_ticks set_heap]; rewrite Ht; reflexivity|].
  split; [exact Hf|].
  intros this args Hin.
  assert (Hin' : In (Call AtNotify (Ext f) this args) (List.filter (is_call_at AtNotify) evs)).
  { apply List.filter_In. split; [exact Hin|]. cbn. apply bool_decide_eq_true_2. reflexivity. }
  rewrite Hf in Hin'. apply List.in_map_iff in Hin' as (y & Hy & Hiny).
  unfold notification in Hy. injection Hy as Hcb _ _.
  apply List.in_app_or in Hiny as [Hiny|Hiny].
  - rewrite Forall_forall in Hpre. apply (Hpre y); [apply list_elem_of_In; exact Hiny | exact Hcb].
  - rewrite Forall_forall in Hpost. apply (Hpost y); [apply list_elem_of_In; exact Hiny | exact Hcb].
Qed.

End SubscribeFacts.

(** ** StateManager: writes and their record *)

Module WriteFacts.
Import StateManager Tree StoreSpec Paths.

Lemma notify_collecting (c : nat) (k : string) (s : sys) :
  _notifySubscribers_slot s = Collector c ->
  this_notifySubscribers k s = (Ok tt, set_sets (alter (set_add k) c (sets s)) s).
Proof.
  intros Hslot. unfold this_notifySubscribers, bind, gets. rewrite Hslot. reflexivity.
Qed.

(** X19.  [getState(key)] after [setState(key, v)] returns [v] when the
    write notifies nobody: it is silent, or made while a batch collects the
    keys, or the key has no subscriber.  (The descent of the path does not
    pass twice through the slot it writes, and no segment of the path is a
    name the host keeps for itself.) *)
Theorem getState_reads_the_write (s : sys) (key : string) (v : val) (silent : bool) :
  key <> "" ->
  ordinary key = true ->
  unaliased (copy_root (heap s) (state s)) (state s) key = true ->
  (silent = false -> _notifySubscribers_slot s = Original ->
   bucket (subscribers s) key = []) ->
  result (setState (Path key) v silent ;; getState key) s = Ok v.
Proof.
  intros Hne _ Hun Hquiet.
  destruct silent; [apply TreeFacts.getState_after_setState; assumption|].
  set (c := commit s (Path key) v).
  assert (Hw : exists s', setState (Path key) v false s = (Ok tt, s') /\
                          heap s' = heap c /\ state s' = state s).
  { rewrite SubscribeFacts.setState_path_run. fold c.
    destruct (_notifySubscribers_slot s) as [|n] eqn:Hslot.
    - rewrite NotifyFacts.this_notify_original by exact Hslot.
      destruct (NotifyFacts.notifySubscribers_spec key c)
        as (s' & E & Hr & _ & _ & _ & Hh).
      exists s'. split; [exact E|].
      split; [|exact (NotifyFacts.rest_state _ _ Hr)].
      apply Hh; [|exact Hne].
      change (subscribers c) with (subscribers s).
      rewrite (Hquiet eq_refl eq_refl). constructor.
    - rewrite (notify_collecting n) by exact Hslot.
      eexists. split; [reflexivity|]. split; reflexivity. }
  destruct Hw as (s' & E & Hh & Hs).
  unfold result. erewrite bind_run; [|exact E].
  rewrite NotifyFacts.getState_run. cbn [fst].
  rewrite NotifyFacts.current_value_nonempty by exact Hne.
  rewrite Hh, Hs. f_equal. exact (TreeFacts.read_after_commit s key v Hun).
Qed.

(** X20.  A silent [setState] enters no callback, leaves the registry as it
    is and, inside a batch, adds nothing to the keys to notify; it is
    recorded in the history like any other write. *)
Theorem silent_write_notifies_nobody (s : sys) (key : key_arg) (value : val) :
  let s' := exec (setState key value true) s in
  result (setState key value true) s = Ok tt /\
  trace s' = trace s /\
  subscribers s' = subscribers s /\
  sets s' = sets s /\
  _notifySubscribers_slot s' = _notifySubscribers_slot s /\
  exists e,
    history s' = push_history (maxHistoryLength s) e (history s) /\
    timestamp e = clock s (ticks s) /\
    oldState e = fresh (dom (heap s)) /\
    heap s' !! newState e = Some (deref (heap s') (state s')).
Proof.
  intros s'.
  assert (E : setState key value true s = (Ok tt, commit s key value))
    by apply StoreFacts.setState_silent_run.
  unfold s', result, exec. rewrite E. cbn [fst snd].
  split; [reflexivity|]. split; [reflexivity|]. split; [reflexivity|].
  split; [reflexivity|]. split; [reflexivity|].
  eexists. split; [reflexivity|]. split; [reflexivity|]. split; [reflexivity|].
  cbn [newState heap commit set_history set_ticks set_heap state].
  set (h2 := write (copy_root (heap s) (state s)) (state s) key value).
  unfold copy_root at 1 2. fold h2. rewrite lookup_insert_eq. f_equal.
  destruct (decide (fresh (dom h2) = state s)) as [Heq|Hne].
  - rewrite Heq, StoreFacts.deref_insert_eq. reflexivity.
  - rewrite StoreFacts.deref_insert_ne by exact Hne. reflexivity.
Qed.




End WriteFacts.

(** ** Frame rules: what every method keeps *)

Module Frames.
Import StateManager Tree StoreSpec SubscribeSpec Batch Session Keeps.

Lemma keeps_try_finally {A} (R : sys -> sys -> Prop) `{!PreOrder R}
    (body : M A) (fin : M unit) :
  keeps R body -> keeps R fin -> keeps R (try_finally body fin).
Proof.
  intros Hb Hf s. unfold try_finally. specialize (Hb s).
  destruct (body s) as [r s1]. specialize (Hf s1).
  destruct (fin s1) as [[[]|e] s2]; cbn [snd] in *; etransitivity; eassumption.
Qed.

Lemma dom_copy_root (h : heap_t) (root : loc) : dom h ⊆ dom (copy_root h root).
Proof. apply dom_insert_subseteq. Qed.

Lemma dom_descend (h : heap_t) (l : loc) (k : string) : dom h ⊆ dom (fst (Tree.descend h l k)).
Proof.
  unfold Tree.descend. destruct (lookup_prop (deref h l) k); cbn [fst];
    try (etransitivity; [|apply dom_insert_subseteq]; apply dom_insert_subseteq).
  reflexivity.
Qed.

Lemma dom_walk (keys : list string) (h : heap_t) (l : loc) : dom h ⊆ dom (fst (walk h l keys)).
Proof.
  revert h l. induction keys as [|k keys IH]; intros h l; cbn [walk fst]; [reflexivity|].
  etransitivity; [apply (dom_descend h l k) | apply IH].
Qed.

Lemma dom_setNestedValue (h : heap_t) (root : loc) (path : string) (v : val) :
  dom h ⊆ dom (setNestedValue h root path v).
Proof.
  unfold setNestedValue. etransitivity; [apply dom_walk | apply dom_insert_subseteq].
Qed.

Lemma dom_write (h : heap_t) (root : loc) (key : key_arg) (v : val) :
  dom h ⊆ dom (write h root key v).
Proof.
  destruct key as [k|o]; cbn [write]; [apply dom_setNestedValue|].
  generalize (deref h o) at 1. intros es. revert h.
  induction es as [|kv es IH]; intros h; cbn [fold_left]; [reflexivity|].
  etransitivity; [apply dom_setNestedValue | apply IH].
Qed.

Lemma dom_commit (s : sys) (key : key_arg) (v : val) :
  dom (heap s) ⊆ dom (heap (commit s key v)).
Proof.
  unfold commit. cbn [heap set_history set_ticks set_heap].
  etransitivity; [apply dom_copy_root|].
  etransitivity; [apply dom_write | apply dom_copy_root].
Qed.

(** The rules for the parts of the store that read and write the tree. *)
Section Core.
Context (R : sys -> sys -> Prop) `{!PreOrder R}.
Hypothesis R_heap : forall s h, dom (heap s) ⊆ dom h -> R s (set_heap h s).
Hypothesis R_trace : forall s t, R s (set_trace t s).
Hypothesis R_ticks : forall s n, R s (set_ticks n s).
Hypothesis R_history :
  forall s e, R s (set_history (push_history (maxHistoryLength s) e (history s)) s).

Lemma keeps_alloc (o : obj) : keeps R (alloc o).
Proof. intros s. unfold alloc. cbn [snd]. apply R_heap, dom_insert_subseteq. Qed.

Lemma keeps_getState (key : string) : keeps R (getState key).
Proof.
  intros s. rewrite NotifyFacts.getState_run. cbn [snd]. unfold after_read.
  destruct (String.eqb key ""); [apply R_heap, dom_copy_root | reflexivity].
Qed.

Lemma R_commit (s : sys) (key : key_arg) (v : val) : R s (commit s key v).
Proof.
  unfold commit.
  etransitivity; [apply (R_heap s), (dom_commit s key v)|].
  etransitivity; [apply R_ticks|].
  apply (R_history (set_ticks _ (set_heap _ s))).
Qed.

Lemma keeps_setState_via (notify : string -> M unit) (key : key_arg) (v : val)
    (silent : bool) :
  (forall k, keeps R (notify k)) -> keeps R (setState_via notify key v silent).
Proof.
  intros Hn s. rewrite StoreFacts.setState_via_run.
  etransitivity; [apply (R_commit s key v)|].
  destruct silent; cbn [negb]; [reflexivity|].
  destruct key as [k|o]; [apply Hn|].
  apply keeps_forEach; [exact _ | exact Hn].
Qed.

Lemma keeps_call_ext (st : site) (f : nat) (this : val) (args : list val) :
  keeps R (call_ext st f this args).
Proof.
  intros s. unfold call_ext.
  destruct (behaviour s f this args (trace s)); apply R_trace.
Qed.

Lemma keeps_updateComputed (f : nat) (deps : list string) (target : string) :
  keeps R (updateComputed f deps target).
Proof.
  unfold updateComputed.
  apply keeps_bind; [exact _ | |intros inputs].
  - apply keeps_mapM; [exact _|]. apply keeps_getState.
  - apply keeps_bind; [exact _ | apply keeps_call_ext |intros r].
    apply keeps_setState_via. intros k. apply keeps_ret. exact _.
Qed.

Lemma keeps_call_callee (st : site) (c : callee) (this : val) (args : list val) :
  keeps R (call_callee st c this args).
Proof.
  destruct c as [f|f deps target]; cbn [call_callee].
  - apply keeps_call_ext.
  - apply keeps_bind; [exact _ | |intros _].
    + apply keeps_modify. intros s. apply R_trace.
    + apply keeps_bind; [exact _ | apply keeps_updateComputed |intros _].
      apply keeps_ret. exact _.
Qed.

Lemma keeps_console_error (msg : string) (e : exn) : keeps R (console_error msg e).
Proof. apply keeps_modify. intros s. apply R_trace. Qed.

(** The notification round, for a fact that every step of it keeps. *)
Section Stepwise.
Hypothesis R_unregister :
  forall s key b b', subscribers s !! key = Some b -> b' `sublist_of` b ->
    R s (set_subscribers (<[key := b']> (subscribers s)) s).
Hypothesis R_drop : forall s key, R s (set_subscribers (delete key (subscribers s)) s).

Lemma keeps_delete_subscription (key : string) (sub : subscription) :
  keeps R (delete_subscription key sub).
Proof.
  intros s. unfold delete_subscription, bind, gets.
  destruct (subscribers s !! key) as [subs|] eqn:Hk; [|reflexivity].
  cbn [modify snd]. apply (R_unregister s key subs); [exact Hk|].
  unfold remove_sub. apply sublist_filter.
Qed.

Lemma keeps_notify_one (key : string) (v : val) (sub : subscription) :
  keeps R (notify_one key v sub).
Proof.
  rewrite NotifyFacts.notify_one_call.
  apply keeps_try_catch; [exact _ | |intros e; apply keeps_console_error].
  apply keeps_bind; [exact _ | apply keeps_call_callee |intros _].
  destruct (sub_once sub); [apply keeps_delete_subscription | apply keeps_ret; exact _].
Qed.

Lemma keeps_notifySubscribers (key : string) : keeps R (_notifySubscribers key).
Proof.
  unfold _notifySubscribers.
  apply keeps_bind; [exact _ | apply keeps_gets; exact _ |intros m].
  destruct (m !! key); [|apply keeps_ret; exact _].
  apply keeps_bind; [exact _ | apply keeps_getState |intros v].
  apply keeps_bind; [exact _ | |intros _].
  - apply keeps_forEach; [exact _|]. apply keeps_notify_one.
  - apply keeps_bind; [exact _ | apply keeps_gets; exact _ |intros m'].
    destruct (m' !! key) as [subs|]; [|apply keeps_throw; exact _].
    destruct (length subs =? 0)%nat; [|apply keeps_ret; exact _].
    apply keeps_modify. intros s. apply R_drop.
Qed.

Lemma sublist_remove_first (c : callee) (subs : list subscription) :
  remove_first c subs `sublist_of` subs.
Proof.
  induction subs as [|x subs IH]; cbn [remove_first]; [constructor|].
  case_bool_decide; [apply sublist_cons; reflexivity | apply sublist_skip; exact IH].
Qed.

Lemma keeps_unsubscribe (key : string) (c : callee) : keeps R (unsubscribe key c).
Proof.
  intros s. unfold unsubscribe, modify. cbn [snd].
  destruct (subscribers s !! key) as [subs|] eqn:Hk; [|reflexivity].
  destruct (length (remove_first c subs) =? 0)%nat; [apply R_drop|].
  apply (R_unregister s key subs); [exact Hk | apply sublist_remove_first].
Qed.

End Stepwise.

(** The methods of the store, the round and [unsubscribe] being given. *)
Section Store.
Hypothesis R_sets : forall s cs, R s (set_sets cs s).
Hypothesis R_register :
  forall s key sub, sub_id sub = next_sub s -> R s (registered key sub s).
Hypothesis R_clear : forall s, R s (set_history [] s).
Hypothesis R_round : forall key, keeps R (_notifySubscribers key).
Hypothesis R_unsubscribe : forall key c, keeps R (unsubscribe key c).

Lemma keeps_notify_via (n : notifier) (key : string) : keeps R (notify_via n key).
Proof.
  destruct n as [|c]; cbn [notify_via]; [apply R_round|].
  apply keeps_modify. intros s. apply R_sets.
Qed.

Lemma keeps_this_notify (key : string) : keeps R (this_notifySubscribers key).
Proof.
  unfold this_notifySubscribers.
  apply keeps_bind; [exact _ | apply keeps_gets; exact _ |intros n].
  apply keeps_notify_via.
Qed.

Lemma keeps_setState (key : key_arg) (v : val) (silent : bool) :
  keeps R (setState key v silent).
Proof. apply keeps_setState_via. apply keeps_this_notify. Qed.

Lemma keeps_subscribe_callee (key : string) (c : callee) (opts : options) :
  keeps R (subscribe_callee key c opts).
Proof.
  intros s. unfold subscribe_callee.
  unfold bind at 1. unfold gets at 1.
  fold (new_subscription s c opts).
  set (sub := new_subscription s c opts).
  unfold bind at 1. unfold modify at 1.
  fold (registered key sub s).
  etransitivity; [apply (R_register s key sub); reflexivity|].
  generalize (registered key sub s). intros s0.
  revert s0. change (keeps R
    ((if sub_immediate sub
      then try_catch
             (currentValue <- getState key ;;
              (if truthy (sub_context sub)
               then call_callee AtSubscribe c (sub_context sub) [currentValue; VStr key]
               else call_callee AtSubscribe c VUndef [currentValue; VStr key]) ;;
              ret tt)
             (fun error =>
                console_error ("State subscription error for '" +:+ key +:+ "':") error)
      else ret tt) ;;
     ret (ThunkUnsubscribe key c))).
  apply keeps_bind; [exact _ | |intros _; apply keeps_ret; exact _].
  destruct (sub_immediate sub); [|apply keeps_ret; exact _].
  apply keeps_try_catch; [exact _ | |intros e; apply keeps_console_error].
  apply keeps_bind; [exact _ | apply keeps_getState |intros v].
  apply keeps_bind; [exact _ | |intros _; apply keeps_ret; exact _].
  destruct (truthy (sub_context sub)); apply keeps_call_callee.
Qed.

Lemma keeps_subscribe (key : string) (callback : val) (opts : options) :
  keeps R (subscribe key callback opts).
Proof.
  destruct callback; cbn [subscribe]; try (apply keeps_throw; exact _).
  apply keeps_subscribe_callee.
Qed.

Lemma keeps_computed (f : nat) (deps : list string) (target : string) :
  keeps R (computed f deps target).
Proof.
  unfold computed.
  apply keeps_bind; [exact _ | |intros _; apply keeps_updateComputed].
  apply keeps_forEach; [exact _|]. intros dep.
  apply keeps_bind; [exact _ | apply keeps_subscribe_callee |intros _].
  apply keeps_ret. exact _.
Qed.

Lemma keeps_updates (calls : list write_call) (thrown : option exn) :
  keeps R (updates calls thrown).
Proof.
  unfold updates.
  apply keeps_bind; [exact _ | |intros _].
  - apply keeps_forEach; [exact _|]. intros c. apply keeps_setState.
  - destruct thrown; [apply keeps_throw | apply keeps_ret]; exact _.
Qed.

Lemma keeps_getInitialState : keeps R _getInitialState.
Proof.
  unfold _getInitialState.
  repeat (apply keeps_bind; [exact _ | apply keeps_alloc | intros ?]).
  apply keeps_alloc.
Qed.

Lemma keeps_resetState_keys (keys order : list string) :
  keeps R (resetState (Some keys) order).
Proof.
  unfold resetState.
  apply keeps_bind; [exact _ | apply keeps_getInitialState |intros init].
  apply keeps_forEach; [exact _|]. intros key.
  apply keeps_bind; [exact _ | apply keeps_gets; exact _ |intros h].
  apply keeps_setState.
Qed.

Hypothesis R_batch : forall calls thrown, keeps R (batch (updates calls thrown)).

(** Every call on the store but the reset of the whole state. *)
Lemma keeps_run_store_but_reset (c : store_call) :
  resets_all (OnStore c) = false -> keeps R (run_store c).
Proof.
  destruct c as [| | | | | | | |[keys|] order]; cbn [run_store resets_all]; intros Hc.
  - apply keeps_bind; [exact _ | apply keeps_getState |intros _; apply keeps_ret; exact _].
  - apply keeps_setState.
  - apply keeps_bind; [exact _ | apply keeps_subscribe |intros _; apply keeps_ret; exact _].
  - apply R_unsubscribe.
  - apply keeps_computed.
  - apply R_batch.
  - apply keeps_bind; [exact _ | apply keeps_gets; exact _ |intros _; apply keeps_ret; exact _].
  - apply keeps_modify. exact R_clear.
  - apply keeps_resetState_keys.
  - discriminate.
Qed.

(** The reset of the whole state, for a fact that a new root keeps. *)
Hypothesis R_state : forall s l, l ∈ dom (heap s) -> R s (set_state l s).

Lemma keeps_resetState_all (order : list string) : keeps R (resetState None order).
Proof.
  unfold resetState.
  apply keeps_bind; [exact _ | apply keeps_getInitialState |intros init].
  apply keeps_bind; [exact _ | apply keeps_gets; exact _ |intros h].
  assert (Hk : keeps R (forEach order this_notifySubscribers))
    by (apply keeps_forEach; [exact _|]; intros key; apply keeps_this_notify).
  intros s. unfold bind, alloc, modify. cbn [fst snd].
  etransitivity;
    [apply (R_heap s (<[fresh (dom (heap s)) := deref h init]> (heap s))),
       dom_insert_subseteq|].
  etransitivity; [|apply Hk].
  apply R_state. cbn [heap set_heap]. apply elem_of_dom.
  rewrite lookup_insert_eq. eexists. reflexivity.
Qed.

Lemma keeps_run_store (c : store_call) : keeps R (run_store c).
Proof.
  destruct (resets_all (OnStore c)) eqn:Hc; [|apply keeps_run_store_but_reset; exact Hc].
  destruct c as [| | | | | | | |[keys|] order]; try discriminate.
  apply keeps_resetState_all.
Qed.

End Store.

End Core.

(** [batch], for a fact that does not depend on the notifier. *)
Lemma keeps_batch (R : sys -> sys -> Prop) `{!PreOrder R} (updateFn : M unit) :
  (forall s cs, R s (set_sets cs s)) ->
  (forall s n, R s (set_notifier n s)) ->
  (forall key, keeps R (_notifySubscribers key)) ->
  keeps R updateFn ->
  keeps R (batch updateFn).
Proof.
  intros R_sets R_notifier R_round Hf. unfold batch.
  apply keeps_bind; [exact _ | apply keeps_gets; exact _ |intros original].
  apply keeps_bind; [exact _ | |intros collector].
  { intros s. unfold new_set. cbn [snd]. apply R_sets. }
  apply keeps_bind; [exact _ | |intros _].
  { apply keeps_modify. intros s. apply R_notifier. }
  apply keeps_try_finally; [exact _ | exact Hf |].
  apply keeps_bind; [exact _ | |intros _].
  { apply keeps_modify. intros s. apply R_notifier. }
  apply keeps_bind; [exact _ | apply keeps_gets; exact _ |intros keys].
  apply keeps_forEach; [exact _|]. intros key.
  destruct original as [|c]; cbn [notify_via]; [apply R_round|].
  apply keeps_modify. intros s. apply R_sets.
Qed.

(** The methods of the bus. *)
Section Bus.
Context (R : sys -> sys -> Prop) `{!PreOrder R}.
Hypothesis R_heap : forall s h, dom (heap s) ⊆ dom h -> R s (set_heap h s).
Hypothesis R_trace : forall s t, R s (set_trace t s).
Hypothesis R_ticks : forall s n, R s (set_ticks n s).
Hypothesis R_events : forall s m, R s (set_events m s).
Hypothesis R_onceEvents : forall s m, R s (set_onceEvents m s).

Lemma keeps_run_bus (c : bus_call) : keeps R (run_bus c).
Proof.
  destruct c; cbn [run_bus]; intros s.
  - unfold EventBus.on. destruct (negb (typeof_function callback)); [reflexivity|].
    cbn. apply R_events.
  - cbn. apply R_onceEvents.
  - cbn. apply R_events.
  - cbn. apply R_onceEvents.
  - rewrite BusFacts.emit_run. cbn [snd].
    etransitivity; [apply R_ticks|].
    etransitivity; [apply R_heap; cbn [heap set_ticks]; apply dom_insert_subseteq|].
    etransitivity; [apply R_trace|]. apply R_onceEvents.
  - unfold EventBus.removeAllListeners.
    destruct name as [e|]; [destruct (negb (String.eqb e ""))|]; cbn;
      (etransitivity; [apply R_events | apply R_onceEvents]).
Qed.

End Bus.

End Frames.

(** ** Sessions: what holds in every state a session reaches *)

Module SessionFacts.
Import StateManager Tree StoreSpec SubscribeSpec Batch Session Keeps Shape HistoryClaims.

Lemma reachable_keeps (R : sys -> sys -> Prop) `{!PreOrder R}
    (beh : nat -> val -> list val -> list event -> outcome) (clk : nat -> Z) (s : sys) :
  (forall c, keeps R (run c)) ->
  reachable beh clk s -> R (new_system beh clk) s.
Proof.
  intros Hk. induction 1 as [|s c _ IH _]; [reflexivity|].
  etransitivity; [exact IH | apply Hk].
Qed.

Lemma reachable_play (beh : nat -> val -> list val -> list event -> outcome) (clk : nat -> Z)
    (calls : list call) :
  admissible calls (new_system beh clk) ->
  reachable beh clk (play calls (new_system beh clk)).
Proof.
  unfold play. generalize (reachable_new beh clk). generalize (new_system beh clk).
  induction calls as [|c calls IH]; intros s Hs Hadm; cbn [fold_left]; [exact Hs|].
  destruct Hadm as [Hc Hadm]. apply IH; [|exact Hadm]. apply reachable_call; assumption.
Qed.

(** *** Identities of the subscriptions *)

#[export] Instance ids_kept_preorder : PreOrder ids_kept.
Proof.
  split.
  - intros s. split; [lia | auto].
  - intros a b c [H1 H2] [H3 H4]. split; [lia | auto].
Qed.

Lemma ids_kept_same (s s' : sys) :
  subscribers s' = subscribers s -> next_sub s' = next_sub s -> ids_kept s s'.
Proof.
  intros Hs Hn. split; [lia|]. unfold ids_ok. rewrite Hs, Hn. auto.
Qed.

Lemma ids_kept_unregister (s : sys) (key : string) (b b' : list subscription) :
  subscribers s !! key = Some b -> b' `sublist_of` b ->
  ids_kept s (set_subscribers (<[key := b']> (subscribers s)) s).
Proof.
  intros Hk Hsub. split; [reflexivity|]. intros Hok key' l.
  cbn [subscribers next_sub set_subscribers].
  destruct (decide (key' = key)) as [->|Hne].
  - rewrite lookup_insert_eq. intros [= <-].
    destruct (Hok key b Hk) as [Hnd Hlt]. split.
    + eapply sublist_NoDup; [exact Hnd|]. apply fmap_sublist. exact Hsub.
    + rewrite Forall_forall in *. intros x Hx. apply Hlt.
      eapply elem_of_sublist; eassumption.
  - rewrite lookup_insert_ne by congruence. apply Hok.
Qed.

Lemma ids_kept_drop (s : sys) (key : string) :
  ids_kept s (set_subscribers (delete key (subscribers s)) s).
Proof.
  split; [reflexivity|]. intros Hok key' l. cbn [subscribers next_sub set_subscribers].
  intros Hl. apply lookup_delete_Some in Hl as [_ Hl]. exact (Hok _ _ Hl).
Qed.

Lemma ids_kept_register (s : sys) (key : string) (sub : subscription) :
  sub_id sub = next_sub s -> ids_kept s (registered key sub s).
Proof.
  intros Hid. split; [cbn; lia|]. intros Hok key' l.
  unfold registered. cbn [subscribers next_sub set_subscribers set_next_sub].
  unfold add_subscription. destruct (decide (key' = key)) as [->|Hne].
  - rewrite lookup_insert_eq. intros [= <-].
    assert (Hb : NoDup (map sub_id (default [] (subscribers s !! key))) /\
                 Forall (fun x => (sub_id x < next_sub s)%nat)
                        (default [] (subscribers s !! key))).
    { destruct (subscribers s !! key) as [b|] eqn:Hk; cbn [default].
      - exact (Hok _ _ Hk).
      - split; constructor. }
    destruct Hb as [Hnd Hlt]. split.
    + rewrite map_app. cbn [map]. apply NoDup_app. split; [exact Hnd|]. split.
      * intros i Hi Hi'. apply list_elem_of_singleton in Hi'. subst i.
        apply list_elem_of_fmap in Hi as (x & Hx & Hin).
        rewrite Forall_forall in Hlt. specialize (Hlt x Hin). lia.
      * apply NoDup_singleton.
    + apply Forall_app. split.
      * eapply Forall_impl; [exact Hlt|]. cbn. intros x Hx. lia.
      * constructor; [lia | constructor].
  - rewrite lookup_insert_ne by congruence. intros Hl.
    destruct (Hok _ _ Hl) as [Hnd Hlt]. split; [exact Hnd|].
    eapply Forall_impl; [exact Hlt|]. cbn. intros x Hx. lia.
Qed.

Lemma keeps_ids_round (key : string) : keeps ids_kept (_notifySubscribers key).
Proof.
  apply Frames.keeps_notifySubscribers; try exact _.
  - intros s h _. apply ids_kept_same; reflexivity.
  - intros s t. apply ids_kept_same; reflexivity.
  - intros s n. apply ids_kept_same; reflexivity.
  - intros s e. apply ids_kept_same; reflexivity.
  - exact ids_kept_unregister.
  - exact ids_kept_drop.
Qed.

Lemma keeps_ids_unsubscribe (key : string) (c : callee) : keeps ids_kept (unsubscribe key c).
Proof.
  apply Frames.keeps_unsubscribe; try exact _.
  - exact ids_kept_unregister.
  - exact ids_kept_drop.
Qed.

Lemma keeps_ids_run (c : call) : keeps ids_kept (run c).
Proof.
  destruct c as [c|c]; cbn [run].
  - apply Frames.keeps_run_bus; try exact _; intros; apply ids_kept_same; reflexivity.
  - assert (Hsets : forall s cs, ids_kept s (set_sets cs s))
      by (intros; apply ids_kept_same; reflexivity).
    assert (Hheap : forall s h, dom (heap s) ⊆ dom h -> ids_kept s (set_heap h s))
      by (intros; apply ids_kept_same; reflexivity).
    assert (Htrace : forall s t, ids_kept s (set_trace t s))
      by (intros; apply ids_kept_same; reflexivity).
    assert (Hticks : forall s n, ids_kept s (set_ticks n s))
      by (intros; apply ids_kept_same; reflexivity).
    assert (Hhist : forall s e, ids_kept s (set_history
                      (push_history (maxHistoryLength s) e (history s)) s))
      by (intros; apply ids_kept_same; reflexivity).
    assert (Hstate : forall s l, l ∈ dom (heap s) -> ids_kept s (set_state l s))
      by (intros; apply ids_kept_same; reflexivity).
    apply Frames.keeps_run_store; try exact _; try assumption.
    + exact ids_kept_register.
    + intros s. apply ids_kept_same; reflexivity.
    + exact keeps_ids_round.
    + exact keeps_ids_unsubscribe.
    + intros calls thrown. apply Frames.keeps_batch; try exact _; try assumption.
      * intros s n. apply ids_kept_same; reflexivity.
      * exact keeps_ids_round.
      * apply Frames.keeps_updates; try exact _; try assumption.
        exact keeps_ids_round.
Qed.

Lemma ids_ok_new (beh : nat -> val -> list val -> list event -> outcome) (clk : nat -> Z) :
  ids_ok (new_system beh clk).
Proof. intros key b Hb. cbn in Hb. rewrite lookup_empty in Hb. discriminate. Qed.

(** X22.  In every state a session reaches, the subscriptions of a key
    have identities of their own: deleting one from the bucket, as a
    notification round does for a subscription that asked for one call,
    deletes that one, which is then no longer in the bucket, and no
    other. *)
Theorem session_keeps_subscriptions_apart
    (beh : nat -> val -> list val -> list event -> outcome) (clk : nat -> Z) (s : sys) :
  reachable beh clk s ->
  ids_ok s /\
  forall key sub,
    sub ∈ bucket (subscribers s) key ->
    NoDup (map sub_id (bucket (subscribers s) key)) /\
    (sub ∉ remove_sub sub (bucket (subscribers s) key)) /\
    (length (remove_sub sub (bucket (subscribers s) key)) <
       length (bucket (subscribers s) key))%nat /\
    forall x, x ∈ bucket (subscribers s) key ->
              (x ∈ remove_sub sub (bucket (subscribers s) key) <-> x <> sub).
Proof.
  intros Hr.
  assert (Hok : ids_ok s).
  { apply (reachable_keeps ids_kept beh clk s keeps_ids_run Hr). apply ids_ok_new. }
  split; [exact Hok|]. intros key sub Hsub.
  assert (Hnd : NoDup (map sub_id (bucket (subscribers s) key))).
  { unfold bucket. destruct (subscribers s !! key) as [b|] eqn:Hk; cbn [default].
    - exact (proj1 (Hok _ _ Hk)).
    - constructor. }
  split; [exact Hnd|].
  split; [apply OnceClaims.remove_sub_gone|].
  split.
  { unfold remove_sub. clear Hnd.
    induction (bucket (subscribers s) key) as [|y b IH];
      [apply elem_of_nil in Hsub; destruct Hsub|].
    rewrite filter_cons. apply elem_of_cons in Hsub as [->|Hsub].
    - rewrite decide_False by (intros H; apply H; reflexivity).
      cbn [length]. pose proof (length_filter (fun x => sub_id x ≠ sub_id y) b). lia.
    - specialize (IH Hsub). destruct (decide (sub_id y ≠ sub_id sub)); cbn [length]; lia. }
  intros x Hx. split.
  - intros Hin Heq. subst x. exact (OnceClaims.remove_sub_gone _ _ Hin).
  - intros Hne. unfold remove_sub. apply list_elem_of_filter. split; [|exact Hx].
    intros Hid. apply Hne. exact (OnceClaims.nodup_ids_inj _ _ _ Hnd Hx Hsub Hid).
Qed.


(** *** The history *)

Lemma capped_push (s : sys) (e : HistoryEntry) :
  capped s (set_history (push_history (maxHistoryLength s) e (history s)) s).
Proof.
  split; [reflexivity|]. cbn [history maxHistoryLength set_history].
  apply HistoryClaims.push_history_capped.
Qed.

Lemma capped_clear (s : sys) : capped s (set_history [] s).
Proof. split; [reflexivity|]. cbn. lia. Qed.

Lemma keeps_capped_run (c : call) : keeps capped (run c).
Proof.
  destruct c as [c|c]; cbn [run].
  - apply Frames.keeps_run_bus; try exact _;
      intros; apply HistoryClaims.capped_same; reflexivity.
  - assert (Hsets : forall s cs, capped s (set_sets cs s))
      by (intros; apply HistoryClaims.capped_same; reflexivity).
    assert (Hheap : forall s h, dom (heap s) ⊆ dom h -> capped s (set_heap h s))
      by (intros; apply HistoryClaims.capped_same; reflexivity).
    assert (Htrace : forall s t, capped s (set_trace t s))
      by (intros; apply HistoryClaims.capped_same; reflexivity).
    assert (Hticks : forall s n, capped s (set_ticks n s))
      by (intros; apply HistoryClaims.capped_same; reflexivity).
    assert (Hunreg : forall s key b b', subscribers s !! key = Some b -> b' `sublist_of` b ->
                       capped s (set_subscribers (<[key := b']> (subscribers s)) s))
      by (intros; apply HistoryClaims.capped_same; reflexivity).
    assert (Hdrop : forall s key, capped s (set_subscribers (delete key (subscribers s)) s))
      by (intros; apply HistoryClaims.capped_same; reflexivity).
    assert (Hstate : forall s l, l ∈ dom (heap s) -> capped s (set_state l s))
      by (intros; apply HistoryClaims.capped_same; reflexivity).
    apply Frames.keeps_run_store; try exact _; try assumption.
    + exact capped_push.
    + intros s key sub _. apply HistoryClaims.capped_same; reflexivity.
    + exact capped_clear.
    + exact HistoryClaims.keeps_capped_notifySubscribers.
    + intros key cb. apply Frames.keeps_unsubscribe; try exact _; assumption.
    + intros calls thrown. apply Frames.keeps_batch; try exact _; try assumption.
      * intros s n. apply HistoryClaims.capped_same; reflexivity.
      * exact HistoryClaims.keeps_capped_notifySubscribers.
      * apply Frames.keeps_updates; try exact _; try assumption.
        -- exact capped_push.
        -- exact HistoryClaims.keeps_capped_notifySubscribers.
Qed.

(** X23.  In every state a session reaches the history holds at most 50
    entries, whatever was written, by whom (computed values write too) and
    however the calls completed. *)
Theorem session_history_stays_within_its_cap
    (beh : nat -> val -> list val -> list event -> outcome) (clk : nat -> Z) (s : sys) :
  reachable beh clk s ->
  maxHistoryLength s = 50%nat /\
  (length (history s) <= 50)%nat.
Proof.
  intros Hr.
  destruct (reachable_keeps capped beh clk s keeps_capped_run Hr) as [Hm Hc].
  cbn in Hm, Hc. split; [exact Hm|].
  rewrite Hm in Hc. apply Hc. lia.
Qed.

(** *** The registries *)

#[export] Instance kept_preorder (P : sys -> Prop) : PreOrder (kept P).
Proof. split; unfold kept; [intros s; auto | intros a b c; auto]. Qed.

#[export] Instance same_bus_preorder : PreOrder same_bus.
Proof.
  split; [intros s; split; reflexivity|].
  intros a b c [H1 H2] [H3 H4]. split; congruence.
Qed.

#[export] Instance same_slot_preorder : PreOrder same_slot.
Proof. split; [intros s; reflexivity | intros a b c H1 H2; unfold same_slot in *; congruence]. Qed.

#[export] Instance grows_preorder : PreOrder grows.
Proof.
  split; [intros s; split; [reflexivity | auto]|].
  intros a b c [H1 H2] [H3 H4]. split; [etransitivity; eassumption | auto].
Qed.

Lemma keeps_weaken {A} (R R' : sys -> sys -> Prop) (m : M A) :
  (forall s s', R s s' -> R' s s') -> keeps R m -> keeps R' m.
Proof. intros H Hm s. apply H, Hm. Qed.

Lemma keeps_same_bus_store (c : store_call) : keeps same_bus (run_store c).
Proof.
  assert (Hsets : forall s cs, same_bus s (set_sets cs s)) by (intros; split; reflexivity).
  assert (Hheap : forall s h, dom (heap s) ⊆ dom h -> same_bus s (set_heap h s))
    by (intros; split; reflexivity).
  assert (Htrace : forall s t, same_bus s (set_trace t s)) by (intros; split; reflexivity).
  assert (Hticks : forall s n, same_bus s (set_ticks n s)) by (intros; split; reflexivity).
  assert (Hhist : forall s e, same_bus s (set_history
                    (push_history (maxHistoryLength s) e (history s)) s))
    by (intros; split; reflexivity).
  assert (Hunreg : forall s key b b', subscribers s !! key = Some b -> b' `sublist_of` b ->
                     same_bus s (set_subscribers (<[key := b']> (subscribers s)) s))
    by (intros; split; reflexivity).
  assert (Hdrop : forall s key, same_bus s (set_subscribers (delete key (subscribers s)) s))
    by (intros; split; reflexivity).
  assert (Hstate : forall s l, l ∈ dom (heap s) -> same_bus s (set_state l s))
    by (intros; split; reflexivity).
  assert (Hround : forall key, keeps same_bus (_notifySubscribers key))
    by (intros key; apply Frames.keeps_notifySubscribers; try exact _; assumption).
  apply Frames.keeps_run_store; try exact _; try assumption.
  - intros s key sub _. split; reflexivity.
  - intros s. split; reflexivity.
  - intros key cb. apply Frames.keeps_unsubscribe; try exact _; assumption.
  - intros calls thrown. apply Frames.keeps_batch; try exact _; try assumption.
    + intros s n. split; reflexivity.
    + apply Frames.keeps_updates; try exact _; assumption.
Qed.

Lemma keeps_bus_tidy_bus (c : bus_call) : keeps (kept bus_tidy) (run_bus c).
Proof.
  destruct c; cbn [run_bus]; intros s [He Ho]; unfold bus_tidy.
  - unfold EventBus.on. destruct (negb (typeof_function callback)); [split; assumption|].
    cbn. split; [apply BusRegistry.tidy_add_handler; exact He | exact Ho].
  - cbn. split; [exact He | apply BusRegistry.tidy_add_handler; exact Ho].
  - cbn. split; [apply BusRegistry.tidy_remove_listener; exact He | exact Ho].
  - cbn. split; [exact He | apply BusRegistry.tidy_remove_listener; exact Ho].
  - rewrite BusFacts.emit_run. cbn. split; [exact He | apply BusRegistry.tidy_delete; exact Ho].
  - unfold EventBus.removeAllListeners.
    destruct name as [e|]; [destruct (negb (String.eqb e ""))|]; cbn;
      split; try apply BusRegistry.tidy_delete; try apply BusRegistry.tidy_empty; assumption.
Qed.

Lemma keeps_bus_tidy_run (c : call) : keeps (kept bus_tidy) (run c).
Proof.
  destruct c as [c|c]; cbn [run]; [apply keeps_bus_tidy_bus|].
  apply (keeps_weaken same_bus); [|apply keeps_same_bus_store].
  intros s s' [He Ho] [H1 H2]. unfold bus_tidy. rewrite He, Ho. split; assumption.
Qed.

Lemma count_positive (s : sys) (name : string) :
  bus_tidy s ->
  name ∈ EventBus.getEvents s <-> (0 < EventBus.getListenerCount name s)%nat.
Proof.
  intros [He Ho]. unfold EventBus.getEvents, EventBus.getListenerCount, EventBus.bucket.
  rewrite elem_of_union, !elem_of_dom. split.
  - intros [[hs Hn]|[hs Hn]]; rewrite Hn; cbn [default];
      [specialize (He _ _ Hn) | specialize (Ho _ _ Hn)];
      destruct hs; try congruence; unfold id; cbn [length]; lia.
  - intros Hc.
    destruct (events s !! name) as [hs|]; [left; eexists; reflexivity|].
    destruct (onceEvents s !! name) as [hs|]; [right; eexists; reflexivity|].
    cbn in Hc. lia.
Qed.

(** X24.  In every state a session reaches, neither registry of the bus
    holds an empty bucket: the methods that remove the last listener of a
    name remove the name.  So [getEvents] lists exactly the names that have
    a listener. *)
Theorem session_bus_names_have_listeners
    (beh : nat -> val -> list val -> list event -> outcome) (clk : nat -> Z) (s : sys) :
  reachable beh clk s ->
  tidy (events s) /\
  tidy (onceEvents s) /\
  forall name, name ∈ EventBus.getEvents s <-> (0 < EventBus.getListenerCount name s)%nat.
Proof.
  intros Hr.
  assert (Ht : bus_tidy s).
  { apply (reachable_keeps (kept bus_tidy) beh clk s keeps_bus_tidy_run Hr).
    split; apply BusRegistry.tidy_empty. }
  destruct Ht as [He Ho]. split; [exact He|]. split; [exact Ho|].
  intros name. apply count_positive. split; assumption.
Qed.

Lemma store_tidy_same (s s' : sys) :
  subscribers s' = subscribers s -> kept store_tidy s s'.
Proof. intros H Ht. unfold store_tidy. rewrite H. exact Ht. Qed.

Lemma notifySubscribers_bucket (key : string) (s : sys) :
  exists s',
    _notifySubscribers key s = (Ok tt, s') /\
    (subscribers s' !! key = None \/
     exists l, subscribers s' !! key = Some l /\ l <> []).
Proof.
  unfold _notifySubscribers. unfold bind at 1. unfold gets at 1.
  destruct (subscribers s !! key) as [b|] eqn:Hb.
  - erewrite bind_run; [|apply NotifyFacts.getState_run].
    assert (Hb0 : subscribers (after_read s key) !! key = Some b)
      by (rewrite NotifyFacts.subscribers_after_read; exact Hb).
    pose proof (NotifyFacts.forEach_notify_spec key (current_value s key) b b _ Hb0)
      as (Hok & _ & (removed & _ & Hs) & _).
    unfold bind.
    destruct (forEach b (notify_one key (current_value s key)) (after_read s key))
      as [[[]|e] s1]; cbn [fst snd] in *; [|discriminate].
    unfold gets. rewrite Hs, lookup_insert_eq.
    destruct (length (without removed b) =? 0)%nat eqn:Hlen.
    + eexists. split; [reflexivity|]. left. cbn. apply lookup_delete_eq.
    + eexists. split; [reflexivity|]. right. exists (without removed b).
      rewrite Hs, lookup_insert_eq.
      split; [reflexivity|]. intros Hnil. rewrite Hnil in Hlen. discriminate.
  - exists s. split; [reflexivity|]. left. exact Hb.
Qed.

Lemma keeps_store_tidy_round (key : string) : keeps (kept store_tidy) (_notifySubscribers key).
Proof.
  intros s Ht k l Hl.
  destruct (NotifyFacts.notifySubscribers_spec key s) as (s' & E & _ & _ & Hoth & _).
  destruct (decide (k = key)) as [->|Hne].
  - destruct (notifySubscribers_bucket key s) as (s'' & E' & Hcase).
    rewrite E' in Hl. cbn [snd] in Hl.
    destruct Hcase as [Hn|(l' & Hl' & Hne)]; congruence.
  - rewrite E in Hl. cbn [snd] in Hl. rewrite (Hoth k Hne) in Hl. exact (Ht _ _ Hl).
Qed.

Lemma keeps_store_tidy_unsubscribe (key : string) (c : callee) :
  keeps (kept store_tidy) (unsubscribe key c).
Proof.
  intros s Ht. unfold unsubscribe, modify. cbn [snd].
  destruct (subscribers s !! key) as [subs|] eqn:Hk; [|exact Ht].
  destruct (length (remove_first c subs) =? 0)%nat eqn:Hlen.
  - apply BusRegistry.tidy_delete. exact Ht.
  - intros k l. cbn [subscribers set_subscribers].
    destruct (decide (k = key)) as [->|Hne].
    + rewrite lookup_insert_eq. intros [= <-] Hnil. rewrite Hnil in Hlen. discriminate.
    + rewrite lookup_insert_ne by congruence. apply Ht.
Qed.

Lemma store_tidy_register (s : sys) (key : string) (sub : subscription) :
  kept store_tidy s (registered key sub s).
Proof.
  intros Ht k l. unfold registered, add_subscription.
  cbn [subscribers set_subscribers set_next_sub].
  destruct (decide (k = key)) as [->|Hne].
  - rewrite lookup_insert_eq. intros [= <-]. destruct (default [] _); discriminate.
  - rewrite lookup_insert_ne by congruence. apply Ht.
Qed.

Lemma keeps_store_tidy_run (c : call) : keeps (kept store_tidy) (run c).
Proof.
  destruct c as [c|c]; cbn [run].
  - apply Frames.keeps_run_bus; try exact _; intros; apply store_tidy_same; reflexivity.
  - assert (Hsets : forall s cs, kept store_tidy s (set_sets cs s))
      by (intros; apply store_tidy_same; reflexivity).
    assert (Hheap : forall s h, dom (heap s) ⊆ dom h -> kept store_tidy s (set_heap h s))
      by (intros; apply store_tidy_same; reflexivity).
    assert (Htrace : forall s t, kept store_tidy s (set_trace t s))
      by (intros; apply store_tidy_same; reflexivity).
    assert (Hticks : forall s n, kept store_tidy s (set_ticks n s))
      by (intros; apply store_tidy_same; reflexivity).
    assert (Hhist : forall s e, kept store_tidy s (set_history
                      (push_history (maxHistoryLength s) e (history s)) s))
      by (intros; apply store_tidy_same; reflexivity).
    assert (Hstate : forall s l, l ∈ dom (heap s) -> kept store_tidy s (set_state l s))
      by (intros; apply store_tidy_same; reflexivity).
    apply Frames.keeps_run_store; try exact _; try assumption.
    + intros s key sub _. apply store_tidy_register.
    + intros s. apply store_tidy_same; reflexivity.
    + exact keeps_store_tidy_round.
    + exact keeps_store_tidy_unsubscribe.
    + intros calls thrown. apply Frames.keeps_batch; try exact _; try assumption.
      * intros s n. apply store_tidy_same; reflexivity.
      * exact keeps_store_tidy_round.
      * apply Frames.keeps_updates; try exact _; try assumption.
        exact keeps_store_tidy_round.
Qed.

(** X25.  In every state a session reaches, no key of the store has an
    empty bucket: [unsubscribe] and the notification round remove the key
    with its last subscription.  A key is in the registry exactly when
    somebody is subscribed to it. *)
Theorem session_store_keys_have_subscribers
    (beh : nat -> val -> list val -> list event -> outcome) (clk : nat -> Z) (s : sys) :
  reachable beh clk s ->
  tidy (subscribers s) /\
  forall key, is_Some (subscribers s !! key) <-> bucket (subscribers s) key <> [].
Proof.
  intros Hr.
  assert (Ht : store_tidy s).
  { apply (reachable_keeps (kept store_tidy) beh clk s keeps_store_tidy_run Hr).
    apply BusRegistry.tidy_empty. }
  split; [exact Ht|]. intros key. unfold bucket. split.
  - intros [l Hl]. rewrite Hl. cbn. exact (Ht _ _ Hl).
  - destruct (subscribers s !! key) as [l|]; [eexists; reflexivity|]. cbn. congruence.
Qed.

(** *** The notifier and the root *)

Lemma keeps_same_slot_round (key : string) : keeps same_slot (_notifySubscribers key).
Proof.
  apply Frames.keeps_notifySubscribers; try exact _; intros; reflexivity.
Qed.

Lemma keeps_same_slot_batch (updateFn : M unit) : keeps same_slot (batch updateFn).
Proof.
  intros s. unfold batch, bind, gets, new_set, modify, try_finally.
  cbn [fst snd].
  destruct (updateFn _) as [r s3].
  set (s4 := set_notifier (_notifySubscribers_slot s) s3).
  assert (Hf : keeps same_slot
                 (forEach (default [] (sets s4 !! length (sets s)))
                    (notify_via (_notifySubscribers_slot s)))).
  { apply keeps_forEach; [exact _|]. intros key.
    destruct (_notifySubscribers_slot s); cbn [notify_via];
      [apply keeps_same_slot_round | apply keeps_modify; intros; reflexivity]. }
  specialize (Hf s4). unfold same_slot in *.
  destruct (forEach _ _ s4) as [[[]|e] s5]; cbn [snd] in *; rewrite Hf; reflexivity.
Qed.

Lemma keeps_same_slot_run (c : call) : keeps same_slot (run c).
Proof.
  destruct c as [c|c]; cbn [run].
  - apply Frames.keeps_run_bus; try exact _; intros; reflexivity.
  - apply Frames.keeps_run_store; try exact _; try (intros; reflexivity).
    + exact keeps_same_slot_round.
    + intros key cb. apply Frames.keeps_unsubscribe; try exact _; intros; reflexivity.
    + intros calls thrown. apply keeps_same_slot_batch.
Qed.

(** X26.  In every state a session reaches, [_notifySubscribers] is the
    method of the class: [batch] puts it back whether its update function
    returns or throws, so the writes of the next call notify again. *)
Theorem session_restores_the_notifier
    (beh : nat -> val -> list val -> list event -> outcome) (clk : nat -> Z) (s : sys) :
  reachable beh clk s ->
  _notifySubscribers_slot s = Original /\
  forall updateFn, _notifySubscribers_slot (exec (batch updateFn) s) = Original.
Proof.
  intros Hr.
  assert (Hs : _notifySubscribers_slot s = Original)
    by exact (reachable_keeps same_slot beh clk s keeps_same_slot_run Hr).
  split; [exact Hs|]. intros f. rewrite <- Hs. apply keeps_same_slot_batch.
Qed.

Lemma grows_same (s s' : sys) : state s' = state s -> heap s' = heap s -> grows s s'.
Proof. intros H1 H2. split; [rewrite H2; reflexivity | rewrite H1, H2; auto]. Qed.

Lemma keeps_grows_run (c : call) : keeps grows (run c).
Proof.
  assert (Hheap : forall s h, dom (heap s) ⊆ dom h -> grows s (set_heap h s))
    by (intros s h Hd; split; [exact Hd | intros Hs; apply Hd, Hs]).
  destruct c as [c|c]; cbn [run].
  - apply Frames.keeps_run_bus; try exact _; try assumption;
      intros; apply grows_same; reflexivity.
  - assert (Hsets : forall s cs, grows s (set_sets cs s))
      by (intros; apply grows_same; reflexivity).
    assert (Htrace : forall s t, grows s (set_trace t s))
      by (intros; apply grows_same; reflexivity).
    assert (Hticks : forall s n, grows s (set_ticks n s))
      by (intros; apply grows_same; reflexivity).
    assert (Hhist : forall s e, grows s (set_history
                      (push_history (maxHistoryLength s) e (history s)) s))
      by (intros; apply grows_same; reflexivity).
    assert (Hunreg : forall s key b b', subscribers s !! key = Some b -> b' `sublist_of` b ->
                       grows s (set_subscribers (<[key := b']> (subscribers s)) s))
      by (intros; apply grows_same; reflexivity).
    assert (Hdrop : forall s key, grows s (set_subscribers (delete key (subscribers s)) s))
      by (intros; apply grows_same; reflexivity).
    assert (Hstate : forall s l, l ∈ dom (heap s) -> grows s (set_state l s))
      by (intros s l Hl; split; [reflexivity | intros _; exact Hl]).
    assert (Hround : forall key, keeps grows (_notifySubscribers key))
      by (intros key; apply Frames.keeps_notifySubscribers; try exact _; assumption).
    apply Frames.keeps_run_store; try exact _; try assumption.
    + intros s key sub _. apply grows_same; reflexivity.
    + intros s. apply grows_same; reflexivity.
    + intros key cb. apply Frames.keeps_unsubscribe; try exact _; assumption.
    + intros calls thrown. apply Frames.keeps_batch; try exact _; try assumption.
      * intros s n. apply grows_same; reflexivity.
      * apply Frames.keeps_updates; try exact _; assumption.
Qed.

#[export] Instance same_root_preorder : PreOrder same_root.
Proof. split; [intros s; reflexivity | intros a b c H1 H2; unfold same_root in *; congruence]. Qed.

Lemma keeps_same_root_round (key : string) : keeps same_root (_notifySubscribers key).
Proof.
  apply Frames.keeps_notifySubscribers; try exact _; intros; reflexivity.
Qed.

Lemma keeps_same_root_run (c : call) : resets_all c = false -> keeps same_root (run c).
Proof.
  destruct c as [c|c]; cbn [run]; intros Hc.
  - apply Frames.keeps_run_bus; try exact _; intros; reflexivity.
  - apply Frames.keeps_run_store_but_reset; try exact _; try (intros; reflexivity);
      try exact Hc.
    + exact keeps_same_root_round.
    + intros key cb. apply Frames.keeps_unsubscribe; try exact _; intros; reflexivity.
    + intros calls thrown. apply Frames.keeps_batch; try exact _; try (intros; reflexivity).
      * exact keeps_same_root_round.
      * apply Frames.keeps_updates; try exact _; try (intros; reflexivity).
        exact keeps_same_root_round.
Qed.

(** The reset of the whole state: a new tree, a copy of its root as the
    state, then the rounds. *)
Lemma resetState_all_run (order : list string) (s : sys) :
  resetState None order s =
  forEach order this_notifySubscribers
    (set_state (fresh (dom (ResetSpec.new_tree (heap s))))
       (set_heap (<[fresh (dom (ResetSpec.new_tree (heap s))) :=
                     deref (ResetSpec.new_tree (heap s)) (ResetSpec.new_root (heap s))]>
                   (ResetSpec.new_tree (heap s))) s)).
Proof. reflexivity. Qed.

(** X27.  In every state a session reaches, the state of the store is an
    object of the heap, and no object of the heap is ever removed.  No call
    replaces the state object but [resetState()] without keys, which makes
    the state a new object. *)
Theorem session_keeps_the_state_object
    (beh : nat -> val -> list val -> list event -> outcome) (clk : nat -> Z) (s : sys) :
  reachable beh clk s ->
  is_Some (heap s !! state s) /\
  dom initial_heap ⊆ dom (heap s) /\
  (forall c, resets_all c = false -> state (exec (run c) s) = state s) /\
  (forall order,
     heap s !! state (exec (resetState None order) s) = None /\
     is_Some (heap (exec (resetState None order) s) !!
                state (exec (resetState None order) s))).
Proof.
  intros Hr.
  destruct (reachable_keeps grows beh clk s keeps_grows_run Hr) as [Hd Hs].
  assert (Hroot : state s ∈ dom (heap s)).
  { apply Hs. apply elem_of_dom. vm_compute. eexists. reflexivity. }
  split; [apply elem_of_dom; exact Hroot|]. split; [exact Hd|].
  split; [intros c Hc; exact (keeps_same_root_run c Hc s)|].
  intros order.
  assert (Hg : grows s (exec (resetState None order) s))
    by exact (keeps_grows_run (OnStore (ResetState None order)) s).
  destruct Hg as [_ Hin].
  split; [|apply elem_of_dom, Hin, Hroot].
  unfold exec. rewrite resetState_all_run.
  set (ht := ResetSpec.new_tree (heap s)).
  assert (Hk : keeps same_root (forEach order this_notifySubscribers)).
  { apply keeps_forEach; [exact _|]. intros key.
    apply Frames.keeps_this_notify; try exact _; try (intros; reflexivity).
    exact keeps_same_root_round. }
  rewrite (Hk _). cbn [state set_state].
  apply not_elem_of_dom. intros Hin'. apply (is_fresh (dom ht)).
  assert (Hsub : dom (heap s) ⊆ dom ht).
  { assert (Hg : keeps grows _getInitialState).
    { apply Frames.keeps_getInitialState; try exact _.
      intros s0 h Hd0; split; [exact Hd0 | intros Hs0; apply Hd0, Hs0]. }
    exact (proj1 (Hg s)). }
  apply Hsub, Hin'.
Qed.

End SessionFacts.

(** ** StateManager: resetting *)

Module ResetFacts.
Import StateManager Tree StoreSpec ResetSpec.

Lemma getInitialState_run (s : sys) :
  _getInitialState s = (Ok (new_root (heap s)), set_heap (new_tree (heap s)) s).
Proof. reflexivity. Qed.

Lemma allocs_spec (os : list obj) (h : heap_t) :
  dom h ⊆ dom (fst (allocs h os)) /\
  (forall l, is_Some (h !! l) -> fst (allocs h os) !! l = h !! l) /\
  (forall i l, snd (allocs h os) !! i = Some l ->
     h !! l = None /\ fst (allocs h os) !! l = os !! i).
Proof.
  revert h. induction os as [|o os IH]; intros h; cbn [allocs fst snd].
  - split; [reflexivity|]. split; [reflexivity|]. intros i l Hl.
    rewrite lookup_nil in Hl. discriminate.
  - destruct (IH (<[fresh (dom h) := o]> h)) as (Hd & Hold & Hnew).
    split; [etransitivity; [apply dom_insert_subseteq | exact Hd]|].
    split.
    + intros l Hl. rewrite Hold.
      * apply lookup_insert_ne. apply PathFacts.fresh_not_in. exact Hl.
      * rewrite lookup_insert_ne by (apply PathFacts.fresh_not_in; exact Hl). exact Hl.
    + intros [|i] l Hl; cbn in Hl.
      * injection Hl as <-. split; [apply PathFacts.fresh_lookup|].
        rewrite Hold by (rewrite lookup_insert_eq; eexists; reflexivity).
        apply lookup_insert_eq.
      * destruct (Hnew i l Hl) as [Hn Hv]. split; [|exact Hv].
        destruct (decide (l = fresh (dom h))) as [->|Hne].
        -- rewrite lookup_insert_eq in Hn. discriminate.
        -- rewrite lookup_insert_ne in Hn by congruence. exact Hn.
Qed.

Lemma length_allocs (os : list obj) (h : heap_t) : length (snd (allocs h os)) = length os.
Proof.
  revert h. induction os as [|o os IH]; intros h; cbn [allocs snd length]; [reflexivity|].
  rewrite IH. reflexivity.
Qed.

Lemma new_root_fresh (h : heap_t) : h !! new_root h = None.
Proof.
  unfold new_root. destruct (h !! fresh (dom (fst (allocs h nested)))) eqn:E; [|reflexivity].
  exfalso. apply (is_fresh (dom (fst (allocs h nested)))).
  apply (proj1 (allocs_spec nested h)). apply elem_of_dom. rewrite E. eexists. reflexivity.
Qed.

(** Every object of the initial state is in the new tree, at its place,
    and was not in the heap before. *)
Lemma new_tree_objects (h : heap_t) (i : nat) (o : obj) :
  initial_objects !! i = Some o ->
  h !! moved h i = None /\
  deref (new_tree h) (moved h i) = place_obj (moved h) o.
Proof.
  intros Hi. destruct i as [|j].
  - injection Hi as <-. split; [apply new_root_fresh|].
    unfold new_tree, moved. cbn [nth]. apply StoreFacts.deref_insert_eq.
  - assert (Hj : nested !! j = Some o) by exact Hi.
    assert (Hlen : (j < length (snd (allocs h nested)))%nat).
    { rewrite length_allocs. apply lookup_lt_Some in Hj. exact Hj. }
    destruct (lookup_lt_is_Some_2 _ _ Hlen) as [l Hl].
    assert (Hm : moved h (S j) = l).
    { unfold moved. cbn [nth]. apply nth_lookup_Some with (d := new_root h) in Hl. exact Hl. }
    destruct (allocs_spec nested h) as (_ & _ & Hnew).
    destruct (Hnew j l Hl) as [Hn Hv]. rewrite Hm. split; [exact Hn|].
    unfold new_tree, deref. rewrite lookup_insert_ne.
    + rewrite Hv, Hj. cbn [default].
      assert (Hprim : Forall (fun o => forall ρ, place_obj ρ o = o) nested)
        by (repeat constructor).
      rewrite Forall_forall in Hprim. symmetry. apply Hprim.
      apply list_elem_of_lookup. exists j. exact Hj.
    + apply PathFacts.fresh_not_in. rewrite Hv, Hj. eexists. reflexivity.
Qed.

Lemma lookup_place_obj (ρ : loc -> loc) (o : obj) (k : string) :
  lookup_prop (place_obj ρ o) k = place ρ (lookup_prop o k).
Proof.
  induction o as [|[k' v] o IH]; [reflexivity|].
  cbn [place_obj map lookup_prop fst snd]. destruct (String.eqb k k'); [reflexivity | exact IH].
Qed.

Lemma lookup_prop_cases (o : obj) (k : string) :
  lookup_prop o k = VUndef \/ exists kv, In kv o /\ snd kv = lookup_prop o k.
Proof.
  induction o as [|[k' v] o IH]; [left; reflexivity|].
  cbn [lookup_prop]. destruct (String.eqb k k').
  - right. exists (k', v). split; [left; reflexivity | reflexivity].
  - destruct IH as [IH|(kv & Hin & Hkv)]; [left; exact IH|].
    right. exists kv. split; [right; exact Hin | exact Hkv].
Qed.

Lemma closed_initial : closed initial_objects = true.
Proof. reflexivity. Qed.

Lemma deref_initial (i : nat) (o : obj) :
  initial_objects !! i = Some o -> deref initial_heap i = o.
Proof.
  intros Hi.
  do 7 (destruct i as [|i]; [injection Hi as <-; vm_compute; reflexivity|]).
  discriminate.
Qed.

(** Reading in the new tree goes as reading in the state of the
    constructor. *)
Lemma step_in_new_tree (h : heap_t) (i : nat) (k : string) :
  (i < length initial_objects)%nat ->
  getState_step (new_tree h) (VRef (moved h i)) k =
    place (moved h) (getState_step initial_heap (VRef i) k) /\
  ((forall l, getState_step initial_heap (VRef i) k <> VRef l) \/
   exists i', getState_step initial_heap (VRef i) k = VRef i' /\
              (i' < length initial_objects)%nat).
Proof.
  intros Hi. destruct (lookup_lt_is_Some_2 _ _ Hi) as [o Ho].
  destruct (new_tree_objects h i o Ho) as [_ Hd].
  unfold getState_step. cbn [truthy read_prop andb].
  rewrite Hd, (deref_initial i o Ho), lookup_place_obj.
  assert (Hdef : defined (place (moved h) (lookup_prop o k)) = defined (lookup_prop o k))
    by (destruct (lookup_prop o k); reflexivity).
  rewrite Hdef. split; [destruct (defined (lookup_prop o k)); reflexivity|].
  destruct (lookup_prop_cases o k) as [Hu|(kv & Hin & Hkv)].
  - left. rewrite Hu. cbn. discriminate.
  - destruct (lookup_prop o k) as [| |b|n|str|l|g] eqn:E; cbn [defined];
      try (left; discriminate).
    right. exists l. split; [reflexivity|].
    pose proof closed_initial as Hc. unfold closed in Hc.
    rewrite forallb_forall in Hc. specialize (Hc o).
    assert (Ho' : In o initial_objects)
      by (apply list_elem_of_In, list_elem_of_lookup; exists i; exact Ho).
    specialize (Hc Ho'). rewrite forallb_forall in Hc. specialize (Hc kv Hin).
    rewrite Hkv in Hc. apply Nat.ltb_lt in Hc. exact Hc.
Qed.

Lemma fold_primitive (h : heap_t) (keys : list string) (a : val) :
  (forall l, a <> VRef l) ->
  fold_left (getState_step h) keys a = match keys with [] => a | _ :: _ => VUndef end.
Proof.
  intros Ha. destruct keys as [|k keys]; [reflexivity|]. cbn [fold_left].
  assert (E : getState_step h a k = VUndef).
  { unfold getState_step. destruct a; cbn; try reflexivity; try rewrite andb_false_r;
      try reflexivity. exfalso. exact (Ha _ eq_refl). }
  rewrite E. apply ConfigFacts.fold_getState_step_undef.
Qed.

Lemma read_in_new_tree (h : heap_t) (keys : list string) (i : nat) :
  (i < length initial_objects)%nat ->
  fold_left (getState_step (new_tree h)) keys (VRef (moved h i)) =
    place (moved h) (fold_left (getState_step initial_heap) keys (VRef i)) /\
  ((forall l, fold_left (getState_step initial_heap) keys (VRef i) <> VRef l) \/
   exists i', fold_left (getState_step initial_heap) keys (VRef i) = VRef i' /\
              (i' < length initial_objects)%nat).
Proof.
  revert i. induction keys as [|k keys IH]; intros i Hi.
  - split; [reflexivity|]. right. exists i. split; [reflexivity | exact Hi].
  - cbn [fold_left]. destruct (step_in_new_tree h i k Hi) as [Hs Hc]. rewrite Hs.
    destruct Hc as [Hp|(i' & Hv & Hi')].
    + assert (Hp' : forall l, place (moved h) (getState_step initial_heap (VRef i) k) <> VRef l).
      { intros l. destruct (getState_step initial_heap (VRef i) k) eqn:E; cbn; try discriminate.
        exfalso. exact (Hp _ eq_refl). }
      rewrite (fold_primitive _ keys _ Hp'), (fold_primitive _ keys _ Hp).
      split; [destruct keys; reflexivity|].
      left. destruct keys; [exact Hp | discriminate].
    + rewrite Hv. cbn [place]. apply IH. exact Hi'.
Qed.

Lemma defined_initial_nonempty (key : string) :
  defined (read_path initial_heap 0 key) = true -> key <> "".
Proof. intros Hd ->. vm_compute in Hd. discriminate. Qed.

(** X28.  [resetState([key])], for a path that the constructor gave a
    value, writes at the path the value the constructor gave it, taken from
    a new initial tree, and notifies the subscribers of the path with it: a
    path that the constructor gave a primitive is notified of that again,
    and a path that it gave an object is notified of a new object.  When
    the path has no subscriber, it reads that value afterwards.  Stated for
    a path that is not aliased along its descent. *)
Theorem resetState_restores_the_initial_value (s : sys) (key : string)
    (order : list string) :
  _notifySubscribers_slot s = Original ->
  defined (read_path initial_heap 0 key) = true ->
  unaliased (copy_root (heap (exec _getInitialState s)) (state s)) (state s) key = true ->
  exists s' v evs,
    resetState (Some [key]) order s = (Ok tt, s') /\
    state s' = state s /\
    match read_path initial_heap 0 key with
    | VRef _ => exists l, v = VRef l /\ heap s !! l = None
    | initial => v = initial
    end /\
    trace s' = trace s ++ evs /\
    List.filter (is_call_at AtNotify) evs =
      map (notification key v) (bucket (subscribers s) key) /\
    (bucket (subscribers s) key = [] -> read_path (heap s') (state s') key = v).
Proof.
  intros Hslot Hdef Hun.
  assert (Hne : key <> "") by (apply defined_initial_nonempty; exact Hdef).
  set (h := heap s) in *.
  set (s1 := set_heap (new_tree h) s).
  set (v := read_path (new_tree h) (new_root h) key).
  assert (E1 : exec _getInitialState s = s1) by reflexivity.
  rewrite E1 in Hun.
  assert (H0 : (0 < length initial_objects)%nat) by (cbn; lia).
  destruct (read_in_new_tree h (split_dot key) 0 H0) as [Hv Hin].
  change (moved h 0) with (new_root h) in Hv.
  fold (read_path (new_tree h) (new_root h) key) in Hv. fold v in Hv.
  fold (read_path initial_heap 0 key) in Hv, Hin.
  set (c := commit s1 (Path key) v).
  destruct (NotifyFacts.notifySubscribers_spec key c)
    as (s' & E & Hr & _ & _ & (evs & Ht & Hf) & Hh).
  assert (Hread : read_path (heap c) (state c) key = v)
    by exact (TreeFacts.read_after_commit s1 key v Hun).
  rewrite NotifyFacts.current_value_nonempty in Hf by exact Hne.
  rewrite Hread in Hf.
  exists s', v, evs.
  split.
  { unfold resetState. erewrite bind_run; [|apply getInitialState_run].
    fold h s1. rewrite StoreClaims.forEach_single.
    unfold bind at 1. unfold gets at 1. cbn [heap s1 set_heap]. fold s1. fold v.
    rewrite SubscribeFacts.setState_path_run. fold c.
    rewrite NotifyFacts.this_notify_original by exact Hslot. exact E. }
  split; [exact (NotifyFacts.rest_state _ _ Hr)|].
  split.
  { rewrite Hv. destruct (read_path initial_heap 0 key) as [| |b|n|str|l|g] eqn:Ei;
      try reflexivity.
    exists (moved h l). split; [reflexivity|].
    destruct Hin as [Hp|(i' & Hi' & Hlt)]; [exfalso; exact (Hp _ eq_refl)|].
    injection Hi' as <-.
    destruct (lookup_lt_is_Some_2 _ _ Hlt) as [o Ho].
    exact (proj1 (new_tree_objects h l o Ho)). }
  split; [rewrite Ht; reflexivity|].
  split; [exact Hf|].
  intros Hnone.
  rewrite (NotifyFacts.rest_state _ _ Hr), Hh; [exact Hread | | exact Hne].
  change (subscribers c) with (subscribers s). rewrite Hnone. constructor.
Qed.

End ResetFacts.

(** ** Instances *)

Module Instances.
Import StateManager Tree StoreSpec Paths Shape Session.

Ltac decided := Witnesses.by_decision.

Lemma emit_without_listeners_witness :
  EventBus.getListenerCount "other" Demo.bus = 0%nat /\
  trace (exec (EventBus.emit "other" VNull VUndef) Demo.bus) = trace Demo.bus /\
  events (exec (EventBus.emit "other" VNull VUndef) Demo.bus) = events Demo.bus.
Proof.
  assert (H : EventBus.getListenerCount "other" Demo.bus = 0%nat) by (vm_compute; reflexivity).
  split; [exact H|].
  destruct (BusRegistry.emit_without_listeners Demo.bus "other" VNull VUndef H)
    as (_ & Ht & He & _).
  split; [exact Ht | exact He].
Defined.

Lemma namespace_routes_witness :
  exists evs,
    trace (exec (EventBus.ns_emit (EventBus.namespace "nav") "open" (VStr "menu"))
             (exec (EventBus.ns_on (EventBus.namespace "nav") "open" (VFun 5)
                      EventBus.no_options) Demo.bus)) = trace Demo.bus ++ evs /\
    List.filter (is_call_of 5) evs = [Call AtEmit (Ext 5) VUndef [VRef 7]].
Proof.
  destruct (NamespaceFacts.namespace_routes_by_prefix Demo.bus "nav" "open" 5
              EventBus.no_options (VStr "menu"))
    as (_ & _ & _ & (evs & Ht & Hf) & _).
  - decided.
  - decided.
  - exists evs. split; [exact Ht|]. rewrite Hf. vm_compute. reflexivity.
Defined.

Lemma namespaces_separate_witness :
  EventBus.prefixed "nav" "open" <> EventBus.prefixed "ui" "open" /\
  exists evs,
    trace (exec (EventBus.ns_emit (EventBus.namespace "nav") "open" VNull)
             (exec (EventBus.ns_on (EventBus.namespace "ui") "open" (VFun 5)
                      EventBus.no_options) Demo.bus)) = trace Demo.bus ++ evs /\
    List.filter (is_call_of 5) evs = [].
Proof.
  apply (NamespaceFacts.namespaces_without_colon_are_separate
           Demo.bus "nav" "ui" "open" "open" 5 EventBus.no_options VNull).
  - reflexivity.
  - reflexivity.
  - discriminate.
  - decided.
  - decided.
Defined.

Lemma namespaces_overlap_witness :
  exists evs,
    trace (exec (EventBus.ns_emit (EventBus.namespace "app") "nav:open" VNull)
             (exec (EventBus.ns_on (EventBus.namespace "app:nav") "open" (VFun 5)
                      EventBus.no_options) Demo.bus)) = trace Demo.bus ++ evs /\
    List.filter (is_call_of 5) evs = [Call AtEmit (Ext 5) VUndef [VRef 7]].
Proof.
  destruct (NamespaceFacts.namespaces_with_colon_overlap Demo.bus "app" "nav" "open" 5
              EventBus.no_options VNull)
    as (_ & (evs & Ht & Hf) & _).
  - decided.
  - decided.
  - exists evs. split; [exact Ht|]. rewrite Hf. vm_compute. reflexivity.
Defined.

Lemma getState_below_nothing_witness :
  read_path (heap Demo.fresh_system) (state Demo.fresh_system) "modalContent" = VNull /\
  getState "modalContent.title" Demo.fresh_system = (Ok VUndef, Demo.fresh_system).
Proof.
  split; [vm_compute; reflexivity|].
  apply (PathFacts.getState_below_nothing Demo.fresh_system "modalContent" "title").
  - reflexivity.
  - vm_compute. reflexivity.
  - vm_compute. reflexivity.
Defined.


Lemma top_level_write_witness :
  result (getState "theme") Tour.themed = Ok (VStr "light") /\
  result (getState "isLoading") Tour.themed = result (getState "isLoading") Demo.fresh_system.
Proof.
  apply (PathFacts.top_level_write_is_local Demo.fresh_system "theme" "isLoading" (VStr "light")).
  - vm_compute. eexists. reflexivity.
  - reflexivity.
  - discriminate.
  - reflexivity.
  - reflexivity.
  - discriminate.
  - discriminate.
Defined.

Lemma write_below_a_non_object_witness :
  exists n,
    heap Demo.fresh_system !! n = None /\
    result (getState "theme")
      (exec (setState (Path "theme.accent") (VStr "blue") true) Demo.fresh_system) =
      Ok (VRef n) /\
    deref (heap (exec (setState (Path "theme.accent") (VStr "blue") true)
                   Demo.fresh_system)) n = [("accent", VStr "blue")] /\
    result (getState "theme.accent")
      (exec (setState (Path "theme.accent") (VStr "blue") true) Demo.fresh_system) =
      Ok (VStr "blue").
Proof.
  destruct (PathFacts.write_below_a_non_object_replaces_it
              Demo.fresh_system "theme" "accent" (VStr "blue"))
    as (n & Hn & Hk & Hd & Hr).
  - vm_compute. eexists. reflexivity.
  - reflexivity.
  - reflexivity.
  - discriminate.
  - reflexivity.
  - reflexivity.
  - intros l. vm_compute. discriminate.
  - exists n. split; [exact Hn|]. split; [exact Hk|]. split; [exact Hd | exact Hr].
Defined.

Lemma getConfig_value_or_default_witness :
  result (Config.getConfig 20 "performance.enableServiceWorker" (VBool true)) Tour.config_off =
    Ok (VBool false) /\
  result (Config.getConfig 20 "performance.enableServiceWorker.scope" VUndef) Tour.config_off =
    Ok VUndef.
Proof.
  split.
  - destruct (ConfigFacts.getConfig_value_or_default Tour.config_off 20
                "performance.enableServiceWorker" (VBool true)) as (_ & H & _).
    + reflexivity.
    + etransitivity; [apply H; vm_compute; reflexivity|]. vm_compute. reflexivity.
  - destruct (ConfigFacts.getConfig_value_or_default Tour.config_off 20
                "performance.enableServiceWorker.scope" VUndef) as (_ & _ & H).
    + reflexivity.
    + apply (H "performance.enableServiceWorker" "scope"); vm_compute; reflexivity.
Defined.



Lemma setConfig_stops_witness :
  Config.setConfig 20 "animations.duration.unit" (VStr "ms") Tour.config =
  (Exn (TypeError "Cannot create property"), Tour.config).
Proof.
  apply (ConfigFacts.setConfig_stops_at_a_primitive Tour.config 20 "animations.duration.unit"
           ["animations"] 21 "duration" "unit" (VStr "ms")).
  - reflexivity.
  - reflexivity.
  - exists 21%nat. split; [vm_compute; reflexivity | reflexivity].
  - vm_compute. reflexivity.
Defined.

Lemma unsubscribed_witness :
  exists s2 evs,
    setState (Path "k") (VNum 1) false (exec (unsubscribe "k" (Ext 1)) Demo.k_store) =
      (Ok tt, s2) /\
    trace s2 = trace Demo.k_store ++ evs /\
    forall this args, ~ In (Call AtNotify (Ext 1) this args) evs.
Proof.
  destruct (SubscribeFacts.unsubscribed_is_not_notified Demo.k_store "k" 1 (VNum 1) [] []
              (Subscription 0 (Ext 1) VNull false false))
    as (_ & s2 & evs & E & Ht & _ & Hno).
  - reflexivity.
  - vm_compute. reflexivity.
  - reflexivity.
  - constructor.
  - constructor.
  - exists s2, evs. split; [exact E|]. split; [exact Ht | exact Hno].
Defined.

Lemma getState_reads_the_write_witness :
  result (setState (Path "preferences.highContrast") (VBool true) false ;;
          getState "preferences.highContrast") Demo.store = Ok (VBool true) /\
  result (setState (Path "preferences.fontSize") (VStr "large") true ;;
          getState "preferences.fontSize") Demo.store = Ok (VStr "large").
Proof.
  split.
  - apply (WriteFacts.getState_reads_the_write Demo.store "preferences.highContrast"
             (VBool true) false).
    + discriminate.
    + reflexivity.
    + vm_compute. reflexivity.
    + intros _ _. vm_compute. reflexivity.
  - apply (WriteFacts.getState_reads_the_write Demo.store "preferences.fontSize"
             (VStr "large") true).
    + discriminate.
    + reflexivity.
    + vm_compute. reflexivity.
    + discriminate.
Defined.


Lemma tour_is_a_session : reachable Demo.beh Demo.clk Tour.visited.
Proof.
  apply SessionFacts.reachable_play. cbn [admissible Tour.session allowed].
  repeat split. vm_compute. reflexivity.
Defined.

Lemma session_ids_witness :
  reachable Demo.beh Demo.clk Tour.visited /\
  ids_ok Tour.visited /\
  forall key sub,
    sub ∈ bucket (subscribers Tour.visited) key ->
    sub ∉ remove_sub sub (bucket (subscribers Tour.visited) key).
Proof.
  assert (H : reachable Demo.beh Demo.clk Tour.visited) by exact tour_is_a_session.
  split; [exact H|].
  destruct (SessionFacts.session_keeps_subscriptions_apart _ _ _ H) as [Hok Hall].
  split; [exact Hok|]. intros key sub Hsub.
  exact (proj1 (proj2 (Hall key sub Hsub))).
Defined.

Lemma session_history_witness :
  reachable Demo.beh Demo.clk Tour.visited /\ (length (history Tour.visited) <= 50)%nat.
Proof.
  assert (H : reachable Demo.beh Demo.clk Tour.visited) by exact tour_is_a_session.
  split; [exact H|].
  exact (proj2 (SessionFacts.session_history_stays_within_its_cap _ _ _ H)).
Defined.

Lemma session_bus_witness :
  reachable Demo.beh Demo.clk Tour.visited /\
  forall name, name ∈ EventBus.getEvents Tour.visited <->
               (0 < EventBus.getListenerCount name Tour.visited)%nat.
Proof.
  assert (H : reachable Demo.beh Demo.clk Tour.visited) by exact tour_is_a_session.
  split; [exact H|].
  exact (proj2 (proj2 (SessionFacts.session_bus_names_have_listeners _ _ _ H))).
Defined.

Lemma session_store_witness :
  reachable Demo.beh Demo.clk Tour.visited /\ tidy (subscribers Tour.visited).
Proof.
  assert (H : reachable Demo.beh Demo.clk Tour.visited) by exact tour_is_a_session.
  split; [exact H|].
  exact (proj1 (SessionFacts.session_store_keys_have_subscribers _ _ _ H)).
Defined.

Lemma session_notifier_witness :
  reachable Demo.beh Demo.clk Tour.visited /\ _notifySubscribers_slot Tour.visited = Original.
Proof.
  assert (H : reachable Demo.beh Demo.clk Tour.visited) by exact tour_is_a_session.
  split; [exact H|].
  exact (proj1 (SessionFacts.session_restores_the_notifier _ _ _ H)).
Defined.

Lemma session_root_witness :
  reachable Demo.beh Demo.clk Tour.visited /\
  is_Some (heap Tour.visited !! state Tour.visited) /\
  state (exec (run (OnStore (SetState (Path "theme") (VStr "light") false))) Tour.visited) =
    state Tour.visited /\
  heap Tour.visited !! state (exec (resetState None ["theme"]) Tour.visited) = None.
Proof.
  assert (H : reachable Demo.beh Demo.clk Tour.visited) by exact tour_is_a_session.
  split; [exact H|].
  destruct (SessionFacts.session_keeps_the_state_object _ _ _ H) as (Hr & _ & Hs & Hn).
  split; [exact Hr|].
  split; [apply Hs; reflexivity | exact (proj1 (Hn ["theme"]))].
Defined.

Lemma resetState_witness :
  exists s',
    resetState (Some ["theme"]) [] Tour.themed = (Ok tt, s') /\
    read_path (heap s') (state s') "theme" = VStr "dark".
Proof.
  destruct (ResetFacts.resetState_restores_the_initial_value Tour.themed "theme" [])
    as (s' & v & evs & E & _ & Hv & _ & _ & Hr).
  - reflexivity.
  - vm_compute. reflexivity.
  - vm_compute. reflexivity.
  - exists s'. split; [exact E|].
    etransitivity; [apply Hr; vm_compute; reflexivity|].
    etransitivity; [exact Hv|]. vm_compute. reflexivity.
Defined.

End Instances.
